(** * GraphContext of rag.py: query parsing, path queries, deduplication

    A shallow embedding of the [AutoId] and [GraphContext] classes of
    [src/rag.py], and of the topic inference and the upload requests of
    its [Application] class.  Python values are modelled as follows.

    - A [str] is a [string]; its characters are the code points 0..255
      (Latin-1), on which [str.lower], [str.strip] and [str.isdigit] are
      given by the tables below; the module [Wide] adds one character
      beyond them, to show what [parse] does with it.
    - A dynamically typed value (a node handle, an attribute, an id) is a
      [pyval]; its truth value is [truthy].
    - A [dict] is an association list in insertion order ([list(d.keys())]
      is used by the code, so the order matters).
    - A [float] score is a rational number; the code only compares scores.
    - An exception is a value of [exn], carried by the [result] monad. *)

From Stdlib Require Import Bool Arith List ZArith QArith Lia.
From Stdlib Require Import Ascii String DecimalString.
Import ListNotations.

Close Scope Q_scope.
Open Scope string_scope.
Open Scope list_scope.
Open Scope nat_scope.

(* ------------------------------------------------------------------ *)
(** ** Python [str] methods *)

Module PyStr.

(** [str.isspace] on one character: TAB..CR, FS..US, space, NEL, NBSP. *)
Definition isspace (c : ascii) : bool :=
  let n := nat_of_ascii c in
  ((9 <=? n) && (n <=? 13)) || ((28 <=? n) && (n <=? 32))
  || (n =? 133) || (n =? 160).

(** [str.isupper] on one character: A..Z and the Latin-1 capitals
    (0xC0..0xDE without the multiplication sign 0xD7). *)
Definition isupper (c : ascii) : bool :=
  let n := nat_of_ascii c in
  ((65 <=? n) && (n <=? 90))
  || ((192 <=? n) && (n <=? 222) && negb (n =? 215)).

(** [str.isdigit] on one character: 0..9 and the superscripts 1, 2, 3. *)
Definition isdigit_char (c : ascii) : bool :=
  let n := nat_of_ascii c in
  ((48 <=? n) && (n <=? 57)) || (n =? 178) || (n =? 179) || (n =? 185).

Definition lower_char (c : ascii) : ascii :=
  if isupper c then ascii_of_nat (nat_of_ascii c + 32) else c.

(** [s.lower()] *)
Fixpoint lower (s : string) : string :=
  match s with
  | EmptyString => EmptyString
  | String c s' => String (lower_char c) (lower s')
  end.

(** [s.lstrip()] *)
Fixpoint lstrip (s : string) : string :=
  match s with
  | EmptyString => EmptyString
  | String c s' => if isspace c then lstrip s' else s
  end.

(** [s.rstrip()] *)
Fixpoint rstrip (s : string) : string :=
  match s with
  | EmptyString => EmptyString
  | String c s' =>
      match rstrip s' with
      | EmptyString => if isspace c then EmptyString else String c EmptyString
      | r => String c r
      end
  end.

(** [s.strip()] *)
Definition strip (s : string) : string := rstrip (lstrip s).

(** [s.isdigit()]: non-empty and every character is a digit. *)
Fixpoint all_digits (s : string) : bool :=
  match s with
  | EmptyString => true
  | String c s' => isdigit_char c && all_digits s'
  end.

Definition isdigit (s : string) : bool :=
  match s with
  | EmptyString => false
  | _ => all_digits s
  end.

(** [s.startswith(p)] *)
Definition startswith (s p : string) : bool := prefix p s.

(** [s[n:]] *)
Fixpoint drop (n : nat) (s : string) : string :=
  match n, s with
  | O, _ => s
  | S n', String _ s' => drop n' s'
  | S _, EmptyString => EmptyString
  end.

(** [sub in s] *)
Fixpoint contains (sub s : string) : bool :=
  if prefix sub s then true
  else match s with
       | EmptyString => false
       | String _ s' => contains sub s'
       end.

(** The first occurrence of [sep] in [s]: the text before it and the
    text after it. *)
Fixpoint find_split (sep s : string) : option (string * string) :=
  if prefix sep s then Some (EmptyString, drop (length sep) s)
  else match s with
       | EmptyString => None
       | String c s' =>
           match find_split sep s' with
           | Some (a, b) => Some (String c a, b)
           | None => None
           end
       end.

(** [s.split(sep, 1)], for a non-empty [sep]. *)
Definition split1 (sep s : string) : list string :=
  match find_split sep s with
  | Some (a, b) => [a; b]
  | None => [s]
  end.

(** [s.split(sep)], for a non-empty [sep] (Python raises on an empty
    one): the pieces between the occurrences of [sep], found left to
    right without overlap.  A piece is a difference list, so that the
    recursion is structural on [s]. *)
Fixpoint split_go (sep : string) (skip : nat) (piece : string -> string)
         (s : string) : list string :=
  match s with
  | EmptyString => [piece EmptyString]
  | String c s' =>
      match skip with
      | S k => split_go sep k piece s'
      | O =>
          if prefix sep s
          then piece EmptyString
                 :: split_go sep (length sep - 1) (fun r => r) s'
          else split_go sep 0 (fun r => piece (String c r)) s'
      end
  end.

Definition split (sep s : string) : list string :=
  split_go sep 0 (fun r => r) s.

(** [sep.join(parts)] *)
Fixpoint join (sep : string) (parts : list string) : string :=
  match parts with
  | [] => EmptyString
  | [p] => p
  | p :: rest => p ++ sep ++ join sep rest
  end.

End PyStr.

(* ------------------------------------------------------------------ *)
(** ** Values, exceptions *)

Inductive pyval : Type :=
| PyNone
| PyInt (z : Z)
| PyStr (s : string).

(** [bool(v)] *)
Definition truthy (v : pyval) : bool :=
  match v with
  | PyNone => false
  | PyInt z => negb (z =? 0)%Z
  | PyStr s => negb (s =? EmptyString)%string
  end.

(** [a == b] *)
Definition pyval_eqb (a b : pyval) : bool :=
  match a, b with
  | PyNone, PyNone => true
  | PyInt x, PyInt y => (x =? y)%Z
  | PyStr x, PyStr y => (x =? y)%string
  | _, _ => false
  end.

(** [str(z)] for an [int]. *)
Definition str_of_Z (z : Z) : string := NilZero.string_of_int (Z.to_int z).

(** [str(v)], as an f-string formats it. *)
Definition py_str (v : pyval) : string :=
  match v with
  | PyNone => "None"
  | PyInt z => str_of_Z z
  | PyStr s => s
  end.

Inductive exn : Type :=
| IndexError
| KeyError
| AttributeError.

Inductive result (A : Type) : Type :=
| Ok (a : A)
| Raise (e : exn).
Arguments Ok {A} a.
Arguments Raise {A} e.

Definition bind {A B : Type} (r : result A) (k : A -> result B) : result B :=
  match r with
  | Ok a => k a
  | Raise e => Raise e
  end.

Notation "x <- r ;; k" := (bind r (fun x => k))
  (at level 61, r at next level, right associativity).
Notation "' p <- r ;; k" := (bind r (fun p => k))
  (at level 61, p pattern, r at next level, right associativity).

(* ------------------------------------------------------------------ *)
(** ** Dictionaries

    A [dict] keeps its keys in insertion order; assigning to a key that
    is present keeps the key's position. *)

Section Dict.
Context {K V : Type} (eqb : K -> K -> bool).

Fixpoint dict_get (k : K) (d : list (K * V)) : option V :=
  match d with
  | [] => None
  | (k', v) :: d' => if eqb k k' then Some v else dict_get k d'
  end.

Fixpoint dict_set (k : K) (v : V) (d : list (K * V)) : list (K * V) :=
  match d with
  | [] => [(k, v)]
  | (k', v') :: d' =>
      if eqb k k' then (k', v) :: d' else (k', v') :: dict_set k v d'
  end.

Definition dict_keys (d : list (K * V)) : list K := map fst d.

Fixpoint mem (k : K) (l : list K) : bool :=
  match l with
  | [] => false
  | k' :: l' => eqb k k' || mem k l'
  end.
End Dict.

(** [label -> node] and [node -> label] dictionaries. *)
Definition pydict : Type := list (pyval * pyval).

(* ------------------------------------------------------------------ *)
(** ** The traversal result *)

(** Modelled from the spec: the graph object that
    [embeddings.graph.search(path, graph=True)] returns belongs to the
    graph store, which is not part of the repository.  Following the data
    model and the design notes of the specification it is an arena of
    nodes keyed by node handle (in scan order) with a directed adjacency
    structure keyed by source handle.  Attribute mappings are
    dictionaries from names to values. *)
Definition attrs : Type := list (string * pyval).

Definition adjacency : Type := list (pyval * attrs).

(** Modelled from the spec: the arena of nodes and the adjacency
    structure of a traversal result. *)
Record graph : Type := {
  g_nodes : list (pyval * attrs);
  g_adj : list (pyval * adjacency)
}.

(** Modelled from the spec: the operations of a traversal result that
    [GraphContext] calls.  [addedge] sets the attributes of the edge from
    source to target; [delete] removes the nodes together with every edge
    that has one of them as source or as target. *)
Module Graph.

(** [graph.count()] *)
Definition count (g : graph) : nat := List.length (g_nodes g).

(** [graph.scan()] *)
Definition scan (g : graph) : list pyval := map fst (g_nodes g).

(** [graph.attribute(node, field)]: [None] when absent. *)
Definition attribute (g : graph) (node : pyval) (field : string) : pyval :=
  match dict_get pyval_eqb node (g_nodes g) with
  | Some a =>
      match dict_get String.eqb field a with
      | Some v => v
      | None => PyNone
      end
  | None => PyNone
  end.

(** [graph.edges(node)]: target -> edge attributes. *)
Definition edges (g : graph) (node : pyval) : adjacency :=
  match dict_get pyval_eqb node (g_adj g) with
  | Some d => d
  | None => []
  end.

(** [graph.addedge(source, target, **attributes)] *)
Definition addedge (g : graph) (source target : pyval) (a : attrs) : graph :=
  {| g_nodes := g_nodes g;
     g_adj := dict_set pyval_eqb source
                (dict_set pyval_eqb target a (edges g source)) (g_adj g) |}.

Definition kept {A : Type} (ids : list pyval) (p : pyval * A) : bool :=
  negb (mem pyval_eqb (fst p) ids).

(** [graph.delete(ids)] *)
Definition delete (g : graph) (ids : list pyval) : graph :=
  {| g_nodes := filter (kept ids) (g_nodes g);
     g_adj := map (fun sd => (fst sd, filter (kept ids) (snd sd)))
                (filter (kept ids) (g_adj g)) |}.

(** The edge [source -> target] carries the attributes [a]. *)
Definition has_edge (g : graph) (source target : pyval) (a : attrs) : Prop :=
  dict_get pyval_eqb target (edges g source) = Some a.

End Graph.

(* ------------------------------------------------------------------ *)
(** ** Values handled by GraphContext *)

(** The value bound to [query] in [parse]: a string, or the list that
    [split(prefix, 1)] left when it has a single element. *)
Inductive qval : Type :=
| QStr (s : string)
| QList (l : list string).

(** [bool(query)] *)
Definition qtruthy (q : qval) : bool :=
  match q with
  | QStr s => negb (s =? EmptyString)%string
  | QList l => match l with [] => false | _ => true end
  end.

(** A context entry [{"id": ..., "text": ...}]. *)
Record entry : Type := { e_id : pyval; e_text : pyval }.

(** What [parse] returns: [query, concepts, context]. *)
Definition parsed : Type :=
  (option qval * option (list string) * option (list entry))%type.

Definition gq_prefix : string := "gq: ".

(* ------------------------------------------------------------------ *)
(** ** The embeddings instance *)

(** One search result [{"id": ..., "score": ...}]. *)
Record hit : Type := { h_id : pyval; h_score : Q }.

(** [embeddings.graph]: the persistent store, reached through
    [graph.search(path, graph=True)]. *)
Record GraphStore : Type := { gs_search : string -> graph }.

Record Embeddings : Type := {
  emb_graph : option GraphStore;
  (** [embeddings.search(query, limit)] *)
  emb_search : option qval -> Z -> list hit;
  (** [embeddings.similarity(query, data)]: (index, score), best first *)
  emb_similarity : pyval -> list pyval -> list (nat * Q)
}.

(** What [plot] returns: the picture drawn from a graph and its labels. *)
Record image : Type := Drawing { drawn_graph : graph; drawn_labels : pydict }.

(** The Streamlit side: what [st.write] displayed and the chat history. *)
Record ui : Type := {
  written : list image;
  messages : list (string * image)
}.

(** The state of the scan in [deduplicate]. *)
Record dstate : Type := {
  d_graph : graph;
  d_labels : pydict;
  d_topics : pydict;
  d_deletes : list pyval
}.

(** What a call of [GraphContext] leaves: the returned pair, the Streamlit
    side and the traversal result of this request, if one was fetched. *)
Record outcome : Type := {
  o_question : qval;
  o_context : option (list entry);
  o_ui : ui;
  o_graph : option graph
}.

(* ------------------------------------------------------------------ *)
(** ** GraphContext.parse *)

Definition parse (question : string) : result parsed :=
  if PyStr.contains "->" question
     || PyStr.startswith (PyStr.lower (PyStr.strip question)) gq_prefix
  then
    let concepts :=
      map PyStr.strip (PyStr.split "->" (PyStr.lower (PyStr.strip question))) in
    match rev concepts with
    | [] => Raise IndexError
    | tail :: init_rev =>
        if PyStr.contains gq_prefix tail then
          let query := map PyStr.strip (PyStr.split1 gq_prefix tail) in
          let concepts := rev init_rev in
          match query with
          | [] => Raise IndexError
          | q0 :: rest =>
              let concepts :=
                if negb (q0 =? EmptyString)%string
                then concepts ++ [q0] else concepts in
              match rest with
              | q1 :: _ => Ok (Some (QStr q1), Some concepts, None)
              | [] => Ok (Some (QList query), Some concepts, None)
              end
          end
        else Ok (None, Some concepts, None)
    end
  else Ok (None, None, None).

(* ------------------------------------------------------------------ *)
(** ** AutoId.valid *)

Section GraphContext.

(** [uuid.UUID(s)] succeeds on [s] (it raises [ValueError] otherwise);
    the parser belongs to the Python library. *)
Variable uuid_parses : string -> bool.

(** How an f-string formats [concepts] ([None] or a list of strings). *)
Variable format_concepts : option (list string) -> string.

(** [self.embeddings] and [self.context] *)
Variable embeddings : Embeddings.
Variable context : Z.

(** [AutoId.valid(uid)], by its truth value.  [None] has no [isdigit]. *)
Definition valid (uid : pyval) : result bool :=
  if uuid_parses (py_str uid) then Ok true
  else match uid with
       | PyInt _ => Ok true
       | PyStr s => Ok (PyStr.isdigit s)
       | PyNone => Raise AttributeError
       end.

(* ---------------------------------------------------------------- *)
(** ** GraphContext.path *)

Definition dquote : string := String (ascii_of_nat 34) EmptyString.

(** [f'({{id: "{uid}"}})'] *)
Definition anchor (uid : pyval) : string :=
  "({id: " ++ dquote ++ py_str uid ++ dquote ++ "})".

Definition hop : string := "-[*1..4]->".

(** [self.embeddings.search(concept, 1)[0]["id"]] for every concept. *)
Fixpoint resolve (concepts : list string) : result (list pyval) :=
  match concepts with
  | [] => Ok []
  | concept :: rest =>
      match emb_search embeddings (Some (QStr concept)) 1 with
      | [] => Raise IndexError
      | h :: _ =>
          uids <- resolve rest ;;
          Ok (h_id h :: uids)
      end
  end.

(** The query text built from the resolved ids. *)
Definition match_query (uids : list pyval) : string :=
  "MATCH P=" ++ PyStr.join hop (map anchor uids)
    ++ " RETURN P LIMIT " ++ str_of_Z context.

Definition path (question : option qval) (concepts : option (list string))
  : result string :=
  match concepts with
  | Some (c :: cs) =>
      uids <- resolve (c :: cs) ;;
      Ok (match_query uids)
  | _ =>
      Ok (match_query (map h_id (emb_search embeddings question 3)))
  end.

(* ---------------------------------------------------------------- *)
(** ** GraphContext.deduplicate *)

(** [label = topic if AutoId.valid(uid) and topic else uid] *)
Definition node_label (g : graph) (node : pyval) : result pyval :=
  let uid := Graph.attribute g node "id" in
  let topic := Graph.attribute g node "topic" in
  auto <- valid uid ;;
  Ok (if auto && truthy topic then topic else uid).

(** [pid, pscore]: the head of the similarity ranking, or [(0, 0.0)]
    when no topic is registered yet. *)
Definition best_match (label : pyval) (topicnames : list pyval)
  : result (nat * Q) :=
  match topicnames with
  | [] => Ok (0, 0%Q)
  | _ =>
      match emb_similarity embeddings label topicnames with
      | [] => Raise IndexError
      | best :: _ => Ok best
      end
  end.

(** [topics[topicnames[pid]] if pscore >= threshold else None] *)
Definition find_primary (threshold : Q) (topics : pydict)
           (topicnames : list pyval) (pid : nat) (pscore : Q)
  : result pyval :=
  if Qle_bool threshold pscore then
    match nth_error topicnames pid with
    | None => Raise IndexError
    | Some name =>
        match dict_get pyval_eqb name topics with
        | Some node => Ok node
        | None => Raise KeyError
        end
    end
  else Ok PyNone.

(** The loop that copies the edges of a duplicate to its primary. *)
Definition copy_edges (g : graph) (primary : pyval) (es : adjacency) : graph :=
  fold_left
    (fun g e =>
       if negb (pyval_eqb primary (fst e))
       then Graph.addedge g primary (fst e) (snd e)
       else g)
    es g.

(** [labels[node], topics[label] = label, node] *)
Definition register (st : dstate) (node label : pyval) : dstate :=
  {| d_graph := d_graph st;
     d_labels := dict_set pyval_eqb node label (d_labels st);
     d_topics := dict_set pyval_eqb label node (d_topics st);
     d_deletes := d_deletes st |}.

(** The [else] branch: copy the edges of [node] to [primary], then
    [deletes.append(node)]. *)
Definition merge (st : dstate) (node primary : pyval) : dstate :=
  {| d_graph := copy_edges (d_graph st) primary
                  (Graph.edges (d_graph st) node);
     d_labels := d_labels st;
     d_topics := d_topics st;
     d_deletes := d_deletes st ++ [node] |}.

(** The body of the scan loop for one node. *)
Definition dedup_step (threshold : Q) (st : dstate) (node : pyval)
  : result dstate :=
  label <- node_label (d_graph st) node ;;
  let topicnames := dict_keys (d_topics st) in
  best <- best_match label topicnames ;;
  primary <- find_primary threshold (d_topics st) topicnames
               (fst best) (snd best) ;;
  if negb (truthy primary)
  then Ok (register st node label)
  else Ok (merge st node primary).

Fixpoint dedup_scan (threshold : Q) (st : dstate) (nodes : list pyval)
  : result dstate :=
  match nodes with
  | [] => Ok st
  | node :: rest =>
      st' <- dedup_step threshold st node ;;
      dedup_scan threshold st' rest
  end.

Definition dedup_init (g : graph) : dstate :=
  {| d_graph := g; d_labels := []; d_topics := []; d_deletes := [] |}.

Definition deduplicate (g : graph) (threshold : Q) : result (graph * pydict) :=
  st <- dedup_scan threshold (dedup_init g) (Graph.scan g) ;;
  Ok (Graph.delete (d_graph st) (d_deletes st), d_labels st).

(* ---------------------------------------------------------------- *)
(** ** GraphContext.plot and GraphContext.__call__ *)

(** [plot] deduplicates the graph in place and returns the picture. *)
Definition plot (g : graph) : result (graph * image) :=
  gl <- deduplicate g (9 # 10) ;;
  Ok (fst gl, Drawing (fst gl) (snd gl)).

Definition newline : string := String (ascii_of_nat 10) EmptyString.

Definition default_prompt (concepts : option (list string)) : string :=
  "Write a title and text summarizing the context." ++ newline
    ++ "Include the following concepts: " ++ format_concepts concepts
    ++ " if they're mentioned in the context.".

Definition opt_truthy (query : option qval) : bool :=
  match query with
  | Some q => qtruthy q
  | None => false
  end.

Definition concepts_truthy (concepts : option (list string)) : bool :=
  match concepts with
  | Some (_ :: _) => true
  | _ => false
  end.

Definition build_context (g : graph) : list entry :=
  map (fun node => {| e_id := Graph.attribute g node "id";
                      e_text := Graph.attribute g node "text" |})
      (Graph.scan g).

Definition call (question : string) (u : ui) : result outcome :=
  p <- parse question ;;
  let query := fst (fst p) in
  let concepts := snd (fst p) in
  let fallback (g : option graph) :=
    Ok {| o_question := QStr question; o_context := snd p;
          o_ui := u; o_graph := g |} in
  match emb_graph embeddings with
  | None => fallback None
  | Some store =>
      if opt_truthy query || concepts_truthy concepts then
        pq <- path query concepts ;;
        let g := gs_search store pq in
        if negb (Graph.count g =? 0) then
          gi <- plot g ;;
          let g' := fst gi in
          let response := snd gi in
          let u' := {| written := written u ++ [response];
                       messages := messages u ++ [("assistant", response)] |} in
          let ctx := build_context g' in
          match ctx with
          | [] =>
              Ok {| o_question := QStr question; o_context := Some ctx;
                    o_ui := u'; o_graph := Some g' |}
          | _ :: _ =>
              let default := default_prompt concepts in
              Ok {| o_question :=
                      match query with
                      | Some q => if qtruthy q then q else QStr default
                      | None => QStr default
                      end;
                    o_context := Some ctx;
                    o_ui := u'; o_graph := Some g' |}
          end
        else fallback (Some g)
      else fallback None
  end.

End GraphContext.

(* ------------------------------------------------------------------ *)
(** ** Application.infertopics and Application.topics *)

Module App.

(** The exceptions of this part: those of [GraphContext], [TypeError]
    (raised by [re.search] on a value that is no string) and [ValueError]
    (raised by [int] on the content of [TOPICSBATCH]). *)
Inductive error : Type :=
| Core (e : exn)
| TypeError
| ValueError.

Inductive res (A : Type) : Type :=
| Done (a : A)
| Fail (e : error).
Arguments Done {A} a.
Arguments Fail {A} e.

Definition and_then {A B : Type} (r : res A) (k : A -> res B) : res B :=
  match r with
  | Done a => k a
  | Fail e => Fail e
  end.

Notation "x <-- r ;; k" := (and_then r (fun x => k))
  (at level 61, r at next level, right associativity).

Definition lift {A : Type} (r : result A) : res A :=
  match r with
  | Ok a => Done a
  | Raise e => Fail (Core e)
  end.

(** A character that [\w] matches: alphanumeric, or the underscore. *)
Definition is_word (c : ascii) : bool :=
  let n := nat_of_ascii c in
  ((48 <=? n) && (n <=? 57)) || ((65 <=? n) && (n <=? 90)) || (n =? 95)
  || ((97 <=? n) && (n <=? 122))
  || (n =? 170) || (n =? 178) || (n =? 179) || (n =? 181)
  || (n =? 185) || (n =? 186) || ((188 <=? n) && (n <=? 190))
  || ((192 <=? n) && (n <=? 214)) || ((216 <=? n) && (n <=? 246))
  || (248 <=? n).

(** [re.search(r"\w+", s)] finds a match. *)
Fixpoint has_word (s : string) : bool :=
  match s with
  | EmptyString => false
  | String c s' => is_word c || has_word s'
  end.

(** The prompt of [topics], up to the place of [{text}]. *)
Definition template : string :=
  newline
    ++ "Create a simple, concise topic for the following text. Only return the topic name."
    ++ newline ++ newline ++ "Text:" ++ newline.

(** [graph.topics]: topic -> node handles, or [None]. *)
Definition topic_index : Type := option (list (pyval * list pyval)).

(** The graph of the embeddings, its topic index, and the prompt lists
    of the calls made to the language model so far, in order. *)
Record world : Type := {
  w_graph : graph;
  w_index : topic_index;
  w_prompts : list (list string)
}.

(** A batch entry [(uid, text)]. *)
Definition batch_entry : Type := (pyval * pyval)%type.

Fixpoint set_attribute (node : pyval) (field : string) (value : pyval)
         (nodes : list (pyval * attrs)) : option (list (pyval * attrs)) :=
  match nodes with
  | [] => None
  | (n, a) :: rest =>
      if pyval_eqb node n
      then Some ((n, dict_set String.eqb field value a) :: rest)
      else option_map (cons (n, a)) (set_attribute node field value rest)
  end.

(** [graph.addattribute(node, field, value)]: the graph store's method
    sets the attribute of a node of the graph; for a handle that is no
    node of the graph it does nothing, and raises nothing. *)
Definition addattribute (g : graph) (node : pyval) (field : string)
           (value : pyval) : graph :=
  match set_attribute node field value (g_nodes g) with
  | Some nodes => {| g_nodes := nodes; g_adj := g_adj g |}
  | None => g
  end.

(** [topics[topic].append(uid)], after [topics[topic] = []] for a new
    topic; nothing when [graph.topics] is [None] or empty. *)
Definition index_add (topic uid : pyval) (index : topic_index) : topic_index :=
  match index with
  | Some (e :: d) =>
      Some (dict_set pyval_eqb topic
              (match dict_get pyval_eqb topic (e :: d) with
               | Some uids => uids ++ [uid]
               | None => [uid]
               end)
              (e :: d))
  | other => other
  end.

(** The chat message recorded for an input, in [run]: for an input that
    starts with [#],
    [f"Upload request for _{message.split('#')[-1].strip()}_"]. *)
Definition request_message (question : string) : res string :=
  if PyStr.startswith question "#" then
    match rev (PyStr.split "#" question) with
    | piece :: _ =>
        Done ("Upload request for _" ++ PyStr.strip piece ++ "_")%string
    | [] => Fail (Core IndexError)
    end
  else Done question.

(** [question.split("#")[1].strip()]: the path or URL that [run] hands
    to [addurl] for an input that starts with [#]. *)
Definition upload_url (question : string) : res string :=
  match nth_error (PyStr.split "#" question) 1 with
  | Some url => Done (PyStr.strip url)
  | None => Fail (Core IndexError)
  end.

Section Application.

Variable uuid_parses : string -> bool.

(** [self.llm(prompts, maxlength=2048, **kwargs)], by the contents of
    the prompts and the batch size, if one is given. *)
Variable llm : list string -> option Z -> list pyval.

(** [os.environ.get("TOPICSBATCH")] *)
Variable topicsbatch : option string.

(** [int(s)]; [None] stands for [ValueError]. *)
Variable to_int : string -> option Z.

(** [prompt.format(text=text)] after
    [text = text if re.search(r"\w+", text) else uid]. *)
Definition prompt_of (e : batch_entry) : res string :=
  match snd e with
  | PyStr s =>
      Done (template ++ py_str (if has_word s then PyStr s else fst e))%string
  | _ => Fail TypeError
  end.

Fixpoint prompts_of (batch : list batch_entry) : res (list string) :=
  match batch with
  | [] => Done []
  | e :: rest =>
      p <-- prompt_of e ;;
      ps <-- prompts_of rest ;;
      Done (p :: ps)
  end.

(** [{"batch_size": int(topicsbatch)} if topicsbatch else {}] *)
Definition batch_size : res (option Z) :=
  match topicsbatch with
  | Some s =>
      if (s =? EmptyString)%string then Done None
      else match to_int s with
           | Some z => Done (Some z)
           | None => Fail ValueError
           end
  | None => Done None
  end.

(** The loop over [enumerate(self.llm(...))], from position [x]. *)
Fixpoint set_topics (batch : list batch_entry) (x : nat) (outputs : list pyval)
         (w : world) : res world :=
  match outputs with
  | [] => Done w
  | topic :: rest =>
      match nth_error batch x with
      | None => Fail (Core IndexError)
      | Some e =>
          set_topics batch (S x) rest
            {| w_graph := addattribute (w_graph w) (fst e) "topic" topic;
               w_index := index_add topic (fst e) (w_index w);
               w_prompts := w_prompts w |}
      end
  end.

Definition topics (w : world) (batch : list batch_entry) : res world :=
  prompts <-- prompts_of batch ;;
  size <-- batch_size ;;
  set_topics batch 0 (llm prompts size)
    {| w_graph := w_graph w;
       w_index := w_index w;
       w_prompts := w_prompts w ++ [prompts] |}.

(** The scan loop of [infertopics], with the pending batch. *)
Fixpoint infer_scan (w : world) (batch : list batch_entry) (nodes : list pyval)
  : res (world * list batch_entry) :=
  match nodes with
  | [] => Done (w, batch)
  | uid :: rest =>
      let rid := Graph.attribute (w_graph w) uid "id" in
      let topic := Graph.attribute (w_graph w) uid "topic" in
      auto <-- lift (valid uuid_parses rid) ;;
      if auto && negb (truthy topic) then
        let text := Graph.attribute (w_graph w) uid "text" in
        let text := if truthy text then text else rid in
        let batch := batch ++ [(uid, text)] in
        if List.length batch =? 32 then
          w' <-- topics w batch ;;
          infer_scan w' [] rest
        else infer_scan w batch rest
      else infer_scan w batch rest
  end.

(** [infertopics(embeddings, start)]; [store] is [None] when the
    embeddings have no graph.  [start] only sizes the progress bar. *)
Definition infertopics (store : option world) (start : Z) : res (option world) :=
  match store with
  | None => Done None
  | Some w =>
      wb <-- infer_scan w [] (Graph.scan (w_graph w)) ;;
      match snd wb with
      | [] => Done (Some (fst wb))
      | _ :: _ =>
          w' <-- topics (fst wb) (snd wb) ;;
          Done (Some w')
      end
  end.

(** A node for which a topic is inferred: its id is an automatic id and
    it has no topic. *)
Definition eligible (g : graph) (uid : pyval) : bool :=
  match valid uuid_parses (Graph.attribute g uid "id") with
  | Ok auto => auto && negb (truthy (Graph.attribute g uid "topic"))
  | Raise _ => false
  end.

(** The batch entry of a node: its text, or its id when it has no text. *)
Definition entry_of (g : graph) (uid : pyval) : batch_entry :=
  (uid,
   if truthy (Graph.attribute g uid "text")
   then Graph.attribute g uid "text"
   else Graph.attribute g uid "id").

End Application.

End App.

(* ------------------------------------------------------------------ *)
(** ** parse beyond Latin-1 *)

(** [GraphContext.parse] on a [str] that may hold, besides the code
    points 0..255, the character U+1D400 (MATHEMATICAL BOLD CAPITAL A).
    For this character [str.isupper] is true and [str.isspace] false,
    and [str.lower] leaves it as it is: it has no lowercase mapping.
    The string methods are those of [PyStr], on lists of characters. *)
Module Wide.

Inductive char : Type :=
| Latin (c : ascii)
| BoldA.

Definition str : Type := list char.

Fixpoint of_string (s : string) : str :=
  match s with
  | EmptyString => []
  | String c s' => Latin c :: of_string s'
  end.

Definition char_eqb (a b : char) : bool :=
  match a, b with
  | Latin x, Latin y => Ascii.eqb x y
  | BoldA, BoldA => true
  | _, _ => false
  end.

Definition isspace (c : char) : bool :=
  match c with
  | Latin a => PyStr.isspace a
  | BoldA => false
  end.

Definition isupper (c : char) : bool :=
  match c with
  | Latin a => PyStr.isupper a
  | BoldA => true
  end.

Definition lower_char (c : char) : char :=
  match c with
  | Latin a => Latin (PyStr.lower_char a)
  | BoldA => BoldA
  end.

(** [s.lower()] *)
Definition lower (s : str) : str := map lower_char s.

(** [s.lstrip()] *)
Fixpoint lstrip (s : str) : str :=
  match s with
  | [] => []
  | c :: s' => if isspace c then lstrip s' else s
  end.

(** [s.rstrip()] *)
Fixpoint rstrip (s : str) : str :=
  match s with
  | [] => []
  | c :: s' =>
      match rstrip s' with
      | [] => if isspace c then [] else [c]
      | r => c :: r
      end
  end.

(** [s.strip()] *)
Definition strip (s : str) : str := rstrip (lstrip s).

(** [s.startswith(p)] *)
Fixpoint startswith (s p : str) : bool :=
  match p, s with
  | [], _ => true
  | a :: p', b :: s' => char_eqb a b && startswith s' p'
  | _ :: _, [] => false
  end.

(** [sub in s] *)
Fixpoint contains (sub s : str) : bool :=
  if startswith s sub then true
  else match s with
       | [] => false
       | _ :: s' => contains sub s'
       end.

(** The first occurrence of [sep] in [s]: the text before it and the
    text after it. *)
Fixpoint find_split (sep s : str) : option (str * str) :=
  if startswith s sep then Some ([], skipn (List.length sep) s)
  else match s with
       | [] => None
       | c :: s' =>
           match find_split sep s' with
           | Some (a, b) => Some (c :: a, b)
           | None => None
           end
       end.

(** [s.split(sep, 1)], for a non-empty [sep]. *)
Definition split1 (sep s : str) : list str :=
  match find_split sep s with
  | Some (a, b) => [a; b]
  | None => [s]
  end.

(** [s.split(sep)], for a non-empty [sep]. *)
Fixpoint split_go (sep : str) (skip : nat) (piece : str -> str) (s : str)
  : list str :=
  match s with
  | [] => [piece []]
  | c :: s' =>
      match skip with
      | S k => split_go sep k piece s'
      | O =>
          if startswith s sep
          then piece [] :: split_go sep (List.length sep - 1) (fun r => r) s'
          else split_go sep 0 (fun r => piece (c :: r)) s'
      end
  end.

Definition split (sep s : str) : list str := split_go sep 0 (fun r => r) s.

(** The value bound to [query] in [parse]. *)
Inductive qval : Type :=
| QStr (s : str)
| QList (l : list str).

Definition parsed : Type :=
  (option qval * option (list str) * option (list entry))%type.

Definition parse (question : str) : result parsed :=
  if contains (of_string "->") question
     || startswith (lower (strip question)) (of_string gq_prefix)
  then
    let concepts :=
      map strip (split (of_string "->") (lower (strip question))) in
    match rev concepts with
    | [] => Raise IndexError
    | tail :: init_rev =>
        if contains (of_string gq_prefix) tail then
          let query := map strip (split1 (of_string gq_prefix) tail) in
          let concepts := rev init_rev in
          match query with
          | [] => Raise IndexError
          | q0 :: rest =>
              let concepts :=
                match q0 with
                | [] => concepts
                | _ :: _ => concepts ++ [q0]
                end in
              match rest with
              | q1 :: _ => Ok (Some (QStr q1), Some concepts, None)
              | [] => Ok (Some (QList query), Some concepts, None)
              end
          end
        else Ok (None, Some concepts, None)
    end
  else Ok (None, None, None).

(** Some character of [s] is an uppercase letter. *)
Definition has_upper (s : str) : bool := existsb isupper s.

End Wide.

(** The results of [parse] on Latin-1 strings, as results of [Wide.parse]. *)
Definition wide_qval (q : qval) : Wide.qval :=
  match q with
  | QStr s => Wide.QStr (Wide.of_string s)
  | QList l => Wide.QList (map Wide.of_string l)
  end.

Definition wide_parsed (p : parsed) : Wide.parsed :=
  (option_map wide_qval (fst (fst p)),
   option_map (map Wide.of_string) (snd (fst p)),
   snd p).

(* ------------------------------------------------------------------ *)
(** ** Properties stated on the model *)

(** The two guards of [parse]. *)
Definition is_graph_query (question : string) : bool :=
  PyStr.contains "->" question
  || PyStr.startswith (PyStr.lower (PyStr.strip question)) gq_prefix.

(** Every character of [s] satisfies [P]. *)
Fixpoint all_chars (P : ascii -> bool) (s : string) : bool :=
  match s with
  | EmptyString => true
  | String c s' => P c && all_chars P s'
  end.

(** No character of [s] is an uppercase letter. *)
Definition no_upper (s : string) : bool :=
  all_chars (fun c => negb (PyStr.isupper c)) s.

(** [s] is made of whitespace only. *)
Definition all_space (s : string) : bool := all_chars PyStr.isspace s.




(** An auto-generated identifier, as the specification and the
    docstring of [AutoId.valid] describe it: a syntactically valid UUID,
    or a numeric id - an integer, or a string made of digits. *)
Definition auto_generated (uuid_parses : string -> bool) (uid : pyval) : bool :=
  uuid_parses (py_str uid)
  || match uid with
     | PyInt _ => true
     | PyStr s => PyStr.isdigit s
     | PyNone => false
     end.

(** The node [node] carries an automatic id and the topic [topic], so
    that [topic] is its label. *)
Definition topic_node (uuid_parses : string -> bool) (g : graph)
           (node : pyval) (topic : string) : Prop :=
  valid uuid_parses (Graph.attribute g node "id") = Ok true
  /\ Graph.attribute g node "topic" = PyStr topic.

(** The invariant of the scan, after the nodes [done] of the graph [g0]:
    the nodes of the graph are those of [g0], the labelled nodes are the
    scanned nodes that are not in the delete list, in scan order, and each
    carries its label. *)
Definition labels_inv (uuid_parses : string -> bool) (g0 : graph)
           (done : list pyval) (st : dstate) : Prop :=
  g_nodes (d_graph st) = g_nodes g0
  /\ dict_keys (d_labels st)
     = filter (fun n => negb (mem pyval_eqb n (d_deletes st))) done
  /\ (forall n, In n (d_deletes st) -> In n done)
  /\ (forall n lab, dict_get pyval_eqb n (d_labels st) = Some lab ->
                    node_label uuid_parses g0 n = Ok lab).

(** The similarity ranking of a non-empty list of candidates starts with
    the index of one of them. *)
Definition ranks_candidates (emb : Embeddings) : Prop :=
  forall label names,
    names <> [] ->
    exists pid pscore rest,
      emb_similarity emb label names = (pid, pscore) :: rest
      /\ pid < List.length names.

(** Every node of the graph has an id attribute. *)
Definition ids_present (g : graph) : Prop :=
  forall n, In n (Graph.scan g) -> Graph.attribute g n "id" <> PyNone.

(** Node handles are unique and every dictionary of the graph has unique
    keys, as dictionaries have. *)
Definition wf_graph (g : graph) : Prop :=
  NoDup (Graph.scan g)
  /\ NoDup (dict_keys (g_adj g))
  /\ forall node, NoDup (dict_keys (Graph.edges g node)).

(* ------------------------------------------------------------------ *)
(** ** Sample collaborators and graphs *)

Module Sample.

Definition is_hex (c : ascii) : bool :=
  let n := nat_of_ascii c in
  ((48 <=? n) && (n <=? 57)) || ((65 <=? n) && (n <=? 70))
  || ((97 <=? n) && (n <=? 102)).

Fixpoint hex_digits (s : string) : option nat :=
  match s with
  | EmptyString => Some 0
  | String c s' =>
      if (nat_of_ascii c =? 45) then hex_digits s'
      else if is_hex c then option_map S (hex_digits s') else None
  end.

(** A UUID recogniser: 32 hexadecimal digits, hyphens ignored. *)
Definition uuid_parses (s : string) : bool :=
  match hex_digits s with
  | Some n => n =? 32
  | None => false
  end.

(** The list display of plain concepts. *)
Definition format_concepts (concepts : option (list string)) : string :=
  match concepts with
  | None => "None"
  | Some cs =>
      "[" ++ PyStr.join ", " (map (fun c => ("'" ++ c ++ "'")%string) cs) ++ "]"
  end.

Definition ui0 : ui := {| written := []; messages := [] |}.

Definition empty_graph : graph := {| g_nodes := []; g_adj := [] |}.

Definition empty_store : GraphStore := {| gs_search := fun _ => empty_graph |}.

(** An index in which no search finds anything. *)
Definition emb_miss : Embeddings :=
  {| emb_graph := Some empty_store;
     emb_search := fun _ _ => [];
     emb_similarity := fun _ _ => [] |}.

(** The same index without a graph. *)
Definition emb_nograph : Embeddings :=
  {| emb_graph := None;
     emb_search := fun _ _ => [];
     emb_similarity := fun _ _ => [] |}.

(** Every search finds the document "doc"; the traversal is empty. *)
Definition emb_hit : Embeddings :=
  {| emb_graph := Some empty_store;
     emb_search := fun _ _ => [{| h_id := PyStr "doc"; h_score := 1%Q |}];
     emb_similarity := fun _ _ => [] |}.

(** Scores of the Linux example. *)
Definition score (a b : pyval) : Q :=
  match a, b with
  | PyStr x, PyStr y =>
      if (x =? y)%string then 1%Q
      else if ((x =? "Linux OS") && (y =? "Linux"))%string then (95 # 100)%Q
      else if ((x =? "Linux") && (y =? "Linux OS"))%string then (95 # 100)%Q
      else if ((x =? "Unix") && (y =? "Linux"))%string then (2 # 10)%Q
      else if ((x =? "Linux") && (y =? "Unix"))%string then (2 # 10)%Q
      else (1 # 10)%Q
  | _, _ => 0%Q
  end.

Fixpoint insert_ranked (x : nat * Q) (l : list (nat * Q)) : list (nat * Q) :=
  match l with
  | [] => [x]
  | y :: l' =>
      if Qle_bool (snd y) (snd x) then x :: l else y :: insert_ranked x l'
  end.

(** Candidates ranked by score, best first. *)
Definition similarity (label : pyval) (names : list pyval) : list (nat * Q) :=
  fold_right insert_ranked []
    (combine (seq 0 (List.length names)) (map (score label) names)).

Definition emb_linux : Embeddings :=
  {| emb_graph := Some empty_store;
     emb_search := fun _ _ => [];
     emb_similarity := similarity |}.

Definition node_attrs (uid topic : string) : attrs :=
  [("id", PyStr uid); ("topic", PyStr topic); ("text", PyStr topic)].

Definition rel (kind : string) : attrs := [("kind", PyStr kind)].

(** Nodes 1 "Linux", 2 "Linux OS", 3 "Unix" with automatic ids; the
    edges 2 -> 3, 2 -> 1 and 3 -> 2. *)
Definition linux_graph : graph :=
  {| g_nodes := [ (PyInt 1, node_attrs "101" "Linux");
                  (PyInt 2, node_attrs "102" "Linux OS");
                  (PyInt 3, node_attrs "103" "Unix") ];
     g_adj := [ (PyInt 2, [ (PyInt 3, rel "descends");
                            (PyInt 1, rel "same") ]);
                (PyInt 3, [ (PyInt 2, rel "ancestor") ]) ] |}.

(** Nodes 1 "Linux" and 2 "Linux OS" with automatic ids, and node 4,
    whose id "notes.txt" was given by the user and whose topic is
    "Unix"; the edge 2 -> 4. *)
Definition named_graph : graph :=
  {| g_nodes := [ (PyInt 1, node_attrs "101" "Linux");
                  (PyInt 2, node_attrs "102" "Linux OS");
                  (PyInt 4, node_attrs "notes.txt" "Unix") ];
     g_adj := [ (PyInt 2, [ (PyInt 4, rel "descends") ]) ] |}.

(** The three nodes of the Linux example with the edges 1 -> 3, 2 -> 3
    and 3 -> 1: the nodes 1 and 3, which survive, are joined both ways,
    and the duplicate 2 has an edge to the same target as 1. *)
Definition linked_graph : graph :=
  {| g_nodes := [ (PyInt 1, node_attrs "101" "Linux");
                  (PyInt 2, node_attrs "102" "Linux OS");
                  (PyInt 3, node_attrs "103" "Unix") ];
     g_adj := [ (PyInt 1, [ (PyInt 3, rel "related") ]);
                (PyInt 2, [ (PyInt 3, rel "descends") ]);
                (PyInt 3, [ (PyInt 1, rel "ancestor") ]) ] |}.

(** Nodes 0 "Linux" and 1 "Linux OS": the first handle is the integer 0. *)
Definition zero_graph : graph :=
  {| g_nodes := [ (PyInt 0, node_attrs "100" "Linux");
                  (PyInt 1, node_attrs "101" "Linux OS") ];
     g_adj := [ (PyInt 1, [ (PyInt 0, rel "same") ]) ] |}.

(** An index whose similarity ranks the first candidate first, with the
    score 0, and whose graph store returns the Linux graph. *)
Definition linux_store : GraphStore := {| gs_search := fun _ => linux_graph |}.

Definition emb_flat : Embeddings :=
  {| emb_graph := Some linux_store;
     emb_search := fun _ _ => [{| h_id := PyStr "doc"; h_score := 1%Q |}];
     emb_similarity := fun _ _ => [(0, 0%Q)] |}.

(** A graph with a single node that has no id attribute. *)
Definition anonymous_graph : graph :=
  {| g_nodes := [ (PyInt 7, [("text", PyStr "note")]) ]; g_adj := [] |}.

(** A graph with a single node and a loop on it. *)
Definition single_graph : graph :=
  {| g_nodes := [ (PyInt 5, node_attrs "105" "Linux") ];
     g_adj := [ (PyInt 5, [ (PyInt 5, rel "self") ]) ] |}.

(** A language model that answers "topic" to every prompt. *)
Definition llm (prompts : list string) (size : option Z) : list pyval :=
  map (fun _ => PyStr "topic") prompts.

(** A language model that gives one answer too many. *)
Definition llm_more (prompts : list string) (size : option Z) : list pyval :=
  PyStr "extra" :: map (fun _ => PyStr "topic") prompts.

Definition no_int (s : string) : option Z := None.

(** Forty nodes with integer ids and a text, none with a topic. *)
Definition many_nodes : graph :=
  {| g_nodes := map (fun i => (PyInt (Z.of_nat i),
                               [("id", PyInt (Z.of_nat i));
                                ("text", PyStr "note")]))
                    (seq 0 40);
     g_adj := [] |}.

Definition many_world : App.world :=
  {| App.w_graph := many_nodes; App.w_index := None; App.w_prompts := [] |}.

(** The same graph after topic inference. *)
Definition many_world_done : App.world :=
  Eval vm_compute in
    match App.infertopics uuid_parses llm None no_int (Some many_world) 0 with
    | App.Done (Some w) => w
    | _ => many_world
    end.

(** Node 1 has a topic; node 3 has none, and a text without any word
    character. *)
Definition mixed_nodes : graph :=
  {| g_nodes := [ (PyInt 1, node_attrs "101" "Linux");
                  (PyInt 3, [("id", PyStr "103"); ("text", PyStr "...")]) ];
     g_adj := [ (PyInt 1, [ (PyInt 3, rel "next") ]) ] |}.

Definition mixed_world : App.world :=
  {| App.w_graph := mixed_nodes;
     App.w_index := Some [(PyStr "Linux", [PyInt 1])];
     App.w_prompts := [] |}.

Definition mixed_world_done : App.world :=
  Eval vm_compute in
    match App.infertopics uuid_parses llm None no_int (Some mixed_world) 0 with
    | App.Done (Some w) => w
    | _ => mixed_world
    end.

(** A language model that answers the first prompt only. *)
Definition llm_first (prompts : list string) (size : option Z) : list pyval :=
  match prompts with
  | [] => []
  | _ :: _ => [PyStr "first"]
  end.

(** The graph of [mixed_world] after [topics] on the batch of its nodes
    3 and 1, with a model that answers the first prompt only. *)
Definition mixed_world_first : App.world :=
  Eval vm_compute in
    match App.topics llm_first None no_int mixed_world
            [(PyInt 3, PyStr "..."); (PyInt 1, PyStr "Linux")] with
    | App.Done w => w
    | App.Fail _ => mixed_world
    end.

(** A node with an integer id and no text: its id stands for its text. *)
Definition textless_world : App.world :=
  {| App.w_graph := {| g_nodes := [ (PyInt 4, [("id", PyInt 4)]) ];
                       g_adj := [] |};
     App.w_index := None;
     App.w_prompts := [] |}.

End Sample.

(* ------------------------------------------------------------------ *)
(** ** Strings: basic facts *)

Lemma append_nil_r (s : string) : (s ++ EmptyString)%string = s.
Proof. induction s as [|c s IH]; simpl; [reflexivity | now rewrite IH]. Qed.

Lemma append_assoc (a b c : string) :
  ((a ++ b) ++ c)%string = (a ++ (b ++ c))%string.
Proof. induction a as [|x a IH]; simpl; [reflexivity | now rewrite IH]. Qed.

Lemma prefix_app (p s : string) :
  prefix p s = true -> s = (p ++ PyStr.drop (String.length p) s)%string.
Proof.
  revert s; induction p as [|c p IH]; intros s H.
  - reflexivity.
  - destruct s as [|d s]; simpl in H; [discriminate|].
    destruct (ascii_dec c d) as [->|]; [|discriminate].
    simpl. f_equal. now apply IH.
Qed.

Lemma find_split_app (sep s a b : string) :
  PyStr.find_split sep s = Some (a, b) -> s = (a ++ sep ++ b)%string.
Proof.
  revert a b; induction s as [|c s IH]; intros a b; cbn [PyStr.find_split].
  - destruct (prefix sep EmptyString) eqn:E; [|discriminate].
    intros [= <- <-]. simpl. now apply prefix_app in E.
  - destruct (prefix sep (String c s)) eqn:E.
    + intros [= <- <-]. simpl. now apply prefix_app in E.
    + destruct (PyStr.find_split sep s) as [[a' b']|] eqn:F; [|discriminate].
      intros [= <- <-]. simpl. f_equal. now apply IH.
Qed.

Lemma contains_find_split (sep s : string) :
  PyStr.contains sep s = true ->
  exists a b, PyStr.find_split sep s = Some (a, b).
Proof.
  induction s as [|c s IH]; cbn [PyStr.find_split PyStr.contains].
  - destruct (prefix sep EmptyString); [eauto | discriminate].
  - destruct (prefix sep (String c s)); [eauto|].
    intros H. destruct (IH H) as (a & b & ->). eauto.
Qed.

Lemma split_go_nonempty (sep : string) (s : string) :
  forall skip piece, PyStr.split_go sep skip piece s <> [].
Proof.
  induction s as [|c s IH]; intros skip piece; cbn [PyStr.split_go];
    [discriminate|].
  destruct skip; [|apply IH].
  destruct (prefix sep (String c s)); [discriminate | apply IH].
Qed.

Lemma rev_map_cons {A B : Type} (f : A -> B) (l : list A) (y : B) (r : list B) :
  rev (map f l) = y :: r ->
  exists x l', rev l = x :: l' /\ y = f x /\ r = map f l'.
Proof.
  rewrite <- map_rev. destruct (rev l) as [|x l']; simpl; [discriminate|].
  intros [= <- <-]. eauto.
Qed.

(* ------------------------------------------------------------------ *)
(** ** parse: shape of the result *)

(** What [parse] computes on a graph query, in terms of the last chain
    element and the split at the marker. *)
Lemma parse_graph_query (question : string) :
  is_graph_query question = true ->
  exists seg init_rev,
    rev (PyStr.split "->" (PyStr.lower (PyStr.strip question)))
    = seg :: init_rev
    /\ ((PyStr.contains gq_prefix (PyStr.strip seg) = false
         /\ parse question
            = Ok (None, Some (map PyStr.strip (rev (seg :: init_rev))), None))
        \/ (exists a b,
              PyStr.find_split gq_prefix (PyStr.strip seg) = Some (a, b)
              /\ parse question
                 = Ok (Some (QStr (PyStr.strip b)),
                       Some (if negb (PyStr.strip a =? EmptyString)%string
                             then map PyStr.strip (rev init_rev) ++ [PyStr.strip a]
                             else map PyStr.strip (rev init_rev)),
                       None))).
Proof.
  intros G. unfold parse. fold (is_graph_query question). rewrite G.
  destruct (rev (PyStr.split "->" (PyStr.lower (PyStr.strip question))))
    as [|seg init_rev] eqn:R.
  { exfalso. apply (f_equal (@rev _)) in R. rewrite rev_involutive in R.
    now apply split_go_nonempty in R. }
  exists seg, init_rev. split; [reflexivity|].
  assert (L : PyStr.split "->" (PyStr.lower (PyStr.strip question))
              = rev (seg :: init_rev))
    by (now rewrite <- R, rev_involutive).
  rewrite <- map_rev, R, L. cbn [map].
  destruct (PyStr.contains gq_prefix (PyStr.strip seg)) eqn:C.
  - right. destruct (contains_find_split _ _ C) as (a & b & F).
    exists a, b. split; [exact F|].
    unfold PyStr.split1. rewrite F. cbn [map]. now rewrite map_rev.
  - left. split; reflexivity.
Qed.

Lemma parse_not_graph_query (question : string) :
  is_graph_query question = false -> parse question = Ok (None, None, None).
Proof.
  intros G. unfold parse. fold (is_graph_query question). now rewrite G.
Qed.

(** [parse] never fails, always yields a list-free query and no context. *)
Lemma parse_total (question : string) :
  exists query concepts, parse question = Ok (query, concepts, None)
    /\ forall l, query <> Some (QList l).
Proof.
  destruct (is_graph_query question) eqn:G.
  - destruct (parse_graph_query _ G) as (seg & ir & _ & [[_ ->]|(a & b & _ & ->)]);
      do 2 eexists; (split; [reflexivity | intros l; discriminate]).
  - rewrite (parse_not_graph_query _ G).
    do 2 eexists; (split; [reflexivity | intros l; discriminate]).
Qed.

(* ------------------------------------------------------------------ *)
(** ** parse: the documented examples *)

(** C8: a concept chain followed by the free-query marker is split into
    both parts in order; the leading concept of the last segment goes back
    to the end of the chain and the text after the marker is the query. *)
Theorem parse_chain_and_query :
  parse "linux -> macos -> windows gq: tell me about linux"
  = Ok (Some (QStr "tell me about linux"),
        Some ["linux"; "macos"; "windows"], None).
Proof. vm_compute. reflexivity. Qed.

(** C4, as stated: the plain question does not parse to an empty concept
    list; [concepts] is [None], as [query] is. *)
Lemma parse_plain_question_not_empty_list :
  parse "just a plain question" <> Ok (None, Some [], None).
Proof. vm_compute. discriminate. Qed.

(** C4, amended: an input without the [->] delimiter that does not start
    (case-insensitively, after trimming) with the [gq: ] marker yields no
    free query and no concept list: both are [None]. *)
Theorem parse_plain_question (question : string) :
  PyStr.contains "->" question = false ->
  PyStr.startswith (PyStr.lower (PyStr.strip question)) gq_prefix = false ->
  parse question = Ok (None, None, None).
Proof.
  intros H1 H2. apply parse_not_graph_query.
  unfold is_graph_query. now rewrite H1, H2.
Qed.

Lemma parse_plain_question_witness :
  parse "just a plain question" = Ok (None, None, None).
Proof. apply parse_plain_question; reflexivity. Defined.

(* ------------------------------------------------------------------ *)
(** ** path *)




Lemma resolve_miss (emb : Embeddings) (concept : string) (rest : list string) :
  emb_search emb (Some (QStr concept)) 1 = [] ->
  resolve emb (concept :: rest) = Raise IndexError.
Proof. intros E. simpl. now rewrite E. Qed.



(* ------------------------------------------------------------------ *)
(** ** __call__: the fallbacks *)

Lemma parse_context_none (question : string) (p : parsed) :
  parse question = Ok p -> snd p = None.
Proof.
  destruct (parse_total question) as (query & concepts & E & _).
  rewrite E. now intros [= <-].
Qed.

(** C1, as stated: with a graph store, a question whose concepts all miss
    does not come back unchanged; the lookup of the first hit raises. *)
Lemma call_resolution_miss_raises :
  call Sample.uuid_parses Sample.format_concepts Sample.emb_miss 10
       "linux -> macos" Sample.ui0
  = Raise IndexError.
Proof. vm_compute. reflexivity. Qed.

(** C1, amended: for a question that parses to a non-empty concept list,
    when the search returns no candidate for any concept, the call returns
    the question unchanged with no context ([None]) if there is no graph
    store, and raises [IndexError] from the path builder if there is one. *)
Theorem call_resolution_miss
        (uuid_parses : string -> bool)
        (format_concepts : option (list string) -> string)
        (emb : Embeddings) (limit : Z) (question : string) (u : ui)
        (query : option qval) (concepts : list string)
        (context : option (list entry)) :
  parse question = Ok (query, Some concepts, context) ->
  concepts <> [] ->
  (forall c, In c concepts -> emb_search emb (Some (QStr c)) 1 = []) ->
  call uuid_parses format_concepts emb limit question u
  = match emb_graph emb with
    | Some _ => Raise IndexError
    | None => Ok {| o_question := QStr question; o_context := None;
                    o_ui := u; o_graph := None |}
    end.
Proof.
  intros P NE Miss.
  pose proof (parse_context_none _ _ P) as C. simpl in C. subst context.
  unfold call. rewrite P. cbn [bind fst snd].
  destruct (emb_graph emb) as [store|]; [|reflexivity].
  destruct concepts as [|c cs]; [congruence|].
  cbn [concepts_truthy]. rewrite orb_true_r.
  unfold path. rewrite resolve_miss by (apply Miss; now left).
  reflexivity.
Qed.

Lemma call_resolution_miss_witness :
  call Sample.uuid_parses Sample.format_concepts Sample.emb_nograph 10
       "linux -> macos" Sample.ui0
  = Ok {| o_question := QStr "linux -> macos"; o_context := None;
          o_ui := Sample.ui0; o_graph := None |}.
Proof.
  apply (call_resolution_miss Sample.uuid_parses Sample.format_concepts
           Sample.emb_nograph 10 "linux -> macos" Sample.ui0
           None ["linux"; "macos"] None).
  - reflexivity.
  - discriminate.
  - reflexivity.
Defined.

(** C7: if the graph store is absent, or parsing yields neither concepts
    nor a free query, or the traversal that was executed has no node, the
    call returns the question unchanged with an empty context (the [None]
    that [parse] returned).  Nothing was written or appended to the chat
    history, and a traversal result, if one was fetched, is exactly the
    graph the store returned. *)
Theorem call_fallback
        (uuid_parses : string -> bool)
        (format_concepts : option (list string) -> string)
        (emb : Embeddings) (limit : Z) (question : string) (u : ui) :
  emb_graph emb = None
  \/ (exists query concepts context,
        parse question = Ok (query, concepts, context)
        /\ opt_truthy query = false /\ concepts_truthy concepts = false)
  \/ (exists store query concepts context pq,
        emb_graph emb = Some store
        /\ parse question = Ok (query, concepts, context)
        /\ path emb limit query concepts = Ok pq
        /\ Graph.count (gs_search store pq) = 0) ->
  exists fetched,
    call uuid_parses format_concepts emb limit question u
    = Ok {| o_question := QStr question; o_context := None;
            o_ui := u; o_graph := fetched |}
    /\ forall g, fetched = Some g ->
         exists store pq, emb_graph emb = Some store /\ g = gs_search store pq.
Proof.
  intros H. unfold call.
  destruct (parse_total question) as (query & concepts & P & _).
  rewrite P. cbn [bind fst snd].
  destruct H as [G | [(q' & c' & x' & P' & Tq & Tc)
                     | (store & q' & c' & x' & pq & G & P' & Pq & Cnt)]].
  - rewrite G. exists None. split; [reflexivity | discriminate].
  - rewrite P in P'. injection P' as <- <- <-. rewrite Tq, Tc.
    exists None. destruct (emb_graph emb); (split; [reflexivity | discriminate]).
  - rewrite P in P'. injection P' as <- <- <-. rewrite G.
    destruct (opt_truthy query || concepts_truthy concepts).
    + rewrite Pq. cbn [bind]. rewrite Cnt. cbn [Nat.eqb negb].
      exists (Some (gs_search store pq)).
      split; [reflexivity|]. intros g [= <-]. eauto.
    + exists None. split; [reflexivity | discriminate].
Qed.

Lemma call_fallback_witness :
  exists fetched,
    call Sample.uuid_parses Sample.format_concepts Sample.emb_hit 10
         "linux -> macos" Sample.ui0
    = Ok {| o_question := QStr "linux -> macos"; o_context := None;
            o_ui := Sample.ui0; o_graph := fetched |}
    /\ forall g, fetched = Some g ->
         exists store pq,
           emb_graph Sample.emb_hit = Some store /\ g = gs_search store pq.
Proof.
  apply call_fallback. right. right.
  exists Sample.empty_store, None, (Some ["linux"; "macos"]), None.
  eexists. repeat split; reflexivity.
Defined.

(* ------------------------------------------------------------------ *)
(** ** Strings: characters kept by the string methods *)

Lemma isupper_lower_char (c : ascii) : PyStr.isupper (PyStr.lower_char c) = false.
Proof. destruct c as [[] [] [] [] [] [] [] []]; vm_compute; reflexivity. Qed.

Lemma isspace_lower_char (c : ascii) :
  PyStr.isspace (PyStr.lower_char c) = PyStr.isspace c.
Proof. destruct c as [[] [] [] [] [] [] [] []]; vm_compute; reflexivity. Qed.

Lemma no_upper_lower (s : string) : no_upper (PyStr.lower s) = true.
Proof.
  induction s as [|c s IH]; [reflexivity|].
  unfold no_upper in *. simpl. now rewrite isupper_lower_char, IH.
Qed.

Section AllChars.
Variable P : ascii -> bool.

Lemma all_chars_app (a b : string) :
  all_chars P (a ++ b) = all_chars P a && all_chars P b.
Proof.
  induction a as [|c a IH]; simpl; [reflexivity|].
  now rewrite IH, andb_assoc.
Qed.

Lemma all_chars_lstrip (s : string) :
  all_chars P s = true -> all_chars P (PyStr.lstrip s) = true.
Proof.
  induction s as [|c s IH]; simpl; [easy|].
  intros H. apply andb_prop in H as [Hc Hs].
  destruct (PyStr.isspace c); [auto|]. simpl. now rewrite Hc, Hs.
Qed.

Lemma all_chars_rstrip (s : string) :
  all_chars P s = true -> all_chars P (PyStr.rstrip s) = true.
Proof.
  induction s as [|c s IH]; simpl; [easy|].
  intros H. apply andb_prop in H as [Hc Hs]. specialize (IH Hs).
  destruct (PyStr.rstrip s) as [|d r].
  - destruct (PyStr.isspace c); simpl; [reflexivity | now rewrite Hc].
  - change (all_chars P (String c (String d r)))
      with (P c && all_chars P (String d r)).
    now rewrite Hc, IH.
Qed.

Lemma all_chars_strip (s : string) :
  all_chars P s = true -> all_chars P (PyStr.strip s) = true.
Proof. intros H. now apply all_chars_rstrip, all_chars_lstrip. Qed.

Lemma all_chars_find_split (sep s a b : string) :
  PyStr.find_split sep s = Some (a, b) ->
  all_chars P s = true -> all_chars P a = true /\ all_chars P b = true.
Proof.
  intros F H. apply find_split_app in F. subst s.
  rewrite !all_chars_app in H.
  apply andb_prop in H as [Ha H]. apply andb_prop in H as [_ Hb]. auto.
Qed.

Lemma all_chars_split_go (sep s : string) :
  forall skip piece,
    (forall r, all_chars P r = true -> all_chars P (piece r) = true) ->
    all_chars P s = true ->
    Forall (fun x => all_chars P x = true) (PyStr.split_go sep skip piece s).
Proof.
  induction s as [|c s IH]; intros skip piece Hp H; cbn [PyStr.split_go].
  - constructor; [now apply Hp | constructor].
  - simpl in H. apply andb_prop in H as [Hc Hs].
    destruct skip as [|k]; [|now apply IH].
    destruct (prefix sep (String c s)).
    + constructor; [now apply Hp | now apply IH].
    + apply IH; [|exact Hs].
      intros r Hr. apply Hp. simpl. now rewrite Hc, Hr.
Qed.

Lemma all_chars_split (sep s : string) :
  all_chars P s = true ->
  Forall (fun x => all_chars P x = true) (PyStr.split sep s).
Proof. intros H. now apply all_chars_split_go. Qed.
End AllChars.

(* ------------------------------------------------------------------ *)
(** ** Strings: what is stripped, where the last piece lies *)

Lemma lstrip_app (s : string) :
  exists w, s = (w ++ PyStr.lstrip s)%string /\ all_space w = true.
Proof.
  induction s as [|c s (w & E & W)]; simpl.
  - now exists EmptyString.
  - destruct (PyStr.isspace c) eqn:C.
    + exists (String c w). simpl. split; [now rewrite <- E|].
      unfold all_space in *. simpl. now rewrite C, W.
    + now exists EmptyString.
Qed.

Lemma rstrip_app (s : string) :
  exists w, s = (PyStr.rstrip s ++ w)%string /\ all_space w = true.
Proof.
  induction s as [|c s (w & E & W)]; simpl.
  - now exists EmptyString.
  - destruct (PyStr.rstrip s) as [|d r].
    + destruct (PyStr.isspace c) eqn:C.
      * exists (String c w). simpl in *. split; [now rewrite <- E|].
        unfold all_space in *. simpl. now rewrite C, W.
      * exists w. simpl in *. split; [now rewrite <- E | exact W].
    + exists w. split; [|exact W]. simpl in *. now rewrite <- E.
Qed.

Lemma rstrip_all_space (w : string) :
  all_space w = true -> PyStr.rstrip w = EmptyString.
Proof.
  unfold all_space. induction w as [|c w IH]; simpl; [reflexivity|].
  intros H. apply andb_prop in H as [Hc Hw]. now rewrite (IH Hw), Hc.
Qed.

Lemma rstrip_app_space (s w : string) :
  all_space w = true -> PyStr.rstrip (s ++ w) = PyStr.rstrip s.
Proof.
  intros W. induction s as [|c s IH]; simpl.
  - now apply rstrip_all_space.
  - now rewrite IH.
Qed.

Lemma lstrip_all_space (w : string) :
  all_space w = true -> PyStr.lstrip w = EmptyString.
Proof.
  unfold all_space. induction w as [|c w IH]; simpl; [reflexivity|].
  intros H. apply andb_prop in H as [Hc Hw]. now rewrite Hc, IH.
Qed.

Lemma strip_app_space (s w : string) :
  all_space w = true -> PyStr.strip (s ++ w) = PyStr.strip s.
Proof.
  intros W. unfold PyStr.strip. induction s as [|c s IH]; simpl.
  - now rewrite (lstrip_all_space _ W).
  - destruct (PyStr.isspace c); [exact IH|].
    now apply (rstrip_app_space (String c s)).
Qed.

Lemma lower_app (a b : string) :
  PyStr.lower (a ++ b) = (PyStr.lower a ++ PyStr.lower b)%string.
Proof. induction a as [|c a IH]; simpl; [reflexivity | now rewrite IH]. Qed.

Lemma all_space_lower (w : string) :
  all_space w = true -> all_space (PyStr.lower w) = true.
Proof.
  unfold all_space. induction w as [|c w IH]; simpl; [easy|].
  intros H. apply andb_prop in H as [Hc Hw].
  now rewrite isspace_lower_char, Hc, IH.
Qed.

(** A split of [lower s] comes from a split of [s]. *)
Lemma lower_split (x y : string) :
  forall s, PyStr.lower s = (x ++ y)%string ->
  exists s1 s2, s = (s1 ++ s2)%string
                /\ PyStr.lower s1 = x /\ PyStr.lower s2 = y.
Proof.
  induction x as [|c x IH]; intros s E.
  - now exists EmptyString, s.
  - destruct s as [|d s]; [discriminate|]. simpl in E.
    injection E as Ec Es. destruct (IH _ Es) as (s1 & s2 & -> & L1 & L2).
    exists (String d s1), s2. simpl. now rewrite L1, Ec.
Qed.

(** The last piece of a split is a suffix of the text. *)
Lemma split_go_last (sep s : string) :
  forall skip piece acc seg init_rev,
    (forall r, piece r = (acc ++ r)%string) ->
    (skip <> 0 -> acc = EmptyString) ->
    rev (PyStr.split_go sep skip piece s) = seg :: init_rev ->
    exists x, (acc ++ s)%string = (x ++ seg)%string.
Proof.
  induction s as [|c s IH]; intros skip piece acc seg ir Hp Hs R;
    cbn [PyStr.split_go] in R.
  - simpl in R. injection R as <- _. rewrite Hp. now exists EmptyString.
  - destruct skip as [|k].
    + destruct (prefix sep (String c s)).
      * simpl in R.
        destruct (rev (PyStr.split_go sep (String.length sep - 1) (fun r => r) s))
          as [|y l] eqn:R'.
        { exfalso. apply (f_equal (@rev _)) in R'. rewrite rev_involutive in R'.
          now apply split_go_nonempty in R'. }
        simpl in R. injection R as -> _.
        destruct (IH _ _ EmptyString _ _ (fun r => eq_refl) (fun _ => eq_refl) R')
          as (x & E).
        simpl in E. exists (acc ++ String c x)%string.
        now rewrite append_assoc, E.
      * destruct (IH 0 (fun r => piece (String c r))
                    (acc ++ String c EmptyString)%string seg ir) as (x & E).
        -- intros r. now rewrite Hp, append_assoc.
        -- easy.
        -- exact R.
        -- exists x. now rewrite <- E, append_assoc.
    + rewrite (Hs ltac:(discriminate)) in *.
      destruct (IH k piece EmptyString seg ir Hp (fun _ => eq_refl) R) as (x & E).
      simpl in E. exists (String c x). simpl. now rewrite E.
Qed.

Lemma split_last (sep s seg : string) (init_rev : list string) :
  rev (PyStr.split sep s) = seg :: init_rev ->
  exists x, s = (x ++ seg)%string.
Proof.
  intros R.
  now apply (split_go_last sep s 0 (fun r => r) EmptyString seg init_rev).
Qed.

(* ------------------------------------------------------------------ *)
(** ** parse: lower case *)

(** The text after the marker found in the last chain element is, up to
    surrounding whitespace, the lower-cased text after a marker of the
    question itself. *)
Lemma marker_in_question (question seg a b : string) (init_rev : list string) :
  rev (PyStr.split "->" (PyStr.lower (PyStr.strip question))) = seg :: init_rev ->
  PyStr.find_split gq_prefix (PyStr.strip seg) = Some (a, b) ->
  exists pre marker post,
    question = (pre ++ marker ++ post)%string
    /\ PyStr.lower marker = gq_prefix
    /\ PyStr.strip (PyStr.lower post) = PyStr.strip b.
Proof.
  intros R F.
  destruct (split_last _ _ _ _ R) as (x & L).
  destruct (lstrip_app seg) as (w0 & E0 & W0).
  destruct (rstrip_app (PyStr.lstrip seg)) as (w1 & E1 & W1).
  fold (PyStr.strip seg) in E1.
  apply find_split_app in F.
  destruct (lstrip_app question) as (v0 & Q0 & V0).
  destruct (rstrip_app (PyStr.lstrip question)) as (v1 & Q1 & V1).
  fold (PyStr.strip question) in Q1.
  assert (LQ : PyStr.lower question
               = ((PyStr.lower v0 ++ x ++ w0 ++ a)
                    ++ gq_prefix ++ (b ++ w1 ++ PyStr.lower v1))%string).
  { rewrite Q0 at 1. rewrite Q1. rewrite !lower_app, L, E0, E1, F.
    now rewrite !append_assoc. }
  destruct (lower_split _ _ _ LQ) as (pre & rest & -> & _ & LR).
  destruct (lower_split _ _ _ LR) as (marker & post & -> & LM & LP).
  exists pre, marker, post. split; [reflexivity|]. split; [exact LM|].
  rewrite LP. apply strip_app_space.
  unfold all_space in *. rewrite all_chars_app, W1. simpl.
  now apply all_space_lower.
Qed.

Lemma no_upper_pieces (question seg : string) (init_rev : list string) :
  rev (PyStr.split "->" (PyStr.lower (PyStr.strip question))) = seg :: init_rev ->
  Forall (fun x => no_upper x = true) (seg :: init_rev).
Proof.
  intros R. rewrite <- R. apply Forall_rev.
  apply all_chars_split. apply no_upper_lower.
Qed.

(** C9, amended: for a question made of characters in the range of the
    code points 0..255, the question is lower-cased before it is split.
    A free query, when one is returned, is the lower-cased and trimmed
    text that follows a [gq: ] marker of the question (matched without
    regard to case), and neither it nor any concept contains an
    uppercase character. *)
Theorem parse_lowercases (question : string) (query : option qval)
        (concepts : option (list string)) (context : option (list entry)) :
  parse question = Ok (query, concepts, context) ->
  (forall fq, query = Some fq ->
     exists pre marker post,
       question = (pre ++ marker ++ post)%string
       /\ PyStr.lower marker = gq_prefix
       /\ fq = QStr (PyStr.strip (PyStr.lower post))
       /\ no_upper (PyStr.strip (PyStr.lower post)) = true)
  /\ (forall cs c, concepts = Some cs -> In c cs -> no_upper c = true).
Proof.
  intros P. destruct (is_graph_query question) eqn:G.
  2:{ rewrite (parse_not_graph_query _ G) in P. injection P as <- <- <-.
      split; [intros fq | intros cs c]; discriminate. }
  destruct (parse_graph_query _ G) as (seg & ir & R & Cases).
  pose proof (no_upper_pieces _ _ _ R) as NU.
  assert (NUs : forall x, In x (rev (seg :: ir)) -> no_upper (PyStr.strip x) = true).
  { intros x Hx. apply all_chars_strip. apply in_rev in Hx.
    rewrite Forall_forall in NU. now apply NU. }
  destruct Cases as [[_ P'] | (a & b & F & P')];
    rewrite P' in P; injection P as <- <- <-.
  - split; [intros fq; discriminate|].
    intros cs c [= <-] Hc. apply in_map_iff in Hc as (x & <- & Hx). now apply NUs.
  - assert (Hseg : no_upper (PyStr.strip seg) = true)
      by (apply NUs, in_rev; rewrite rev_involutive; now left).
    destruct (all_chars_find_split _ _ _ _ _ F Hseg) as [Ha Hb].
    split.
    + intros fq [= <-].
      destruct (marker_in_question _ _ _ _ _ R F) as (pre & m & post & E & M & S).
      exists pre, m, post. rewrite S. repeat split; try assumption.
      now apply all_chars_strip.
    + intros cs c Ecs Hc.
      assert (Hinit : forall y, In y (map PyStr.strip (rev ir)) -> no_upper y = true).
      { intros y Hy. apply in_map_iff in Hy as (x & <- & Hx).
        apply NUs. simpl. apply in_or_app. now left. }
      destruct (negb (PyStr.strip a =? EmptyString)%string);
        injection Ecs as <-; [|now apply Hinit].
      apply in_app_or in Hc as [Hc | [<- | []]]; [now apply Hinit|].
      now apply all_chars_strip.
Qed.

Lemma parse_lowercases_witness :
  (forall fq, Some (QStr "tell me") = Some fq ->
     exists pre marker post,
       "  Linux->MacOS GQ: Tell Me  " = (pre ++ marker ++ post)%string
       /\ PyStr.lower marker = gq_prefix
       /\ fq = QStr (PyStr.strip (PyStr.lower post))
       /\ no_upper (PyStr.strip (PyStr.lower post)) = true)
  /\ (forall cs c, Some ["linux"; "macos"] = Some cs -> In c cs ->
        no_upper c = true).
Proof.
  apply (parse_lowercases "  Linux->MacOS GQ: Tell Me  "
           (Some (QStr "tell me")) (Some ["linux"; "macos"]) None).
  reflexivity.
Defined.

(* ------------------------------------------------------------------ *)
(** ** parse: a character without a lowercase mapping *)

Lemma wide_startswith (p s : string) :
  Wide.startswith (Wide.of_string s) (Wide.of_string p) = prefix p s.
Proof.
  revert s. induction p as [|a p IH]; intros s; [now destruct s|].
  destruct s as [|b s]; [reflexivity|].
  cbn [Wide.of_string Wide.startswith Wide.char_eqb prefix].
  destruct (ascii_dec a b) as [->|N].
  - rewrite Ascii.eqb_refl. apply IH.
  - apply Ascii.eqb_neq in N. now rewrite N.
Qed.

Lemma wide_length (s : string) :
  List.length (Wide.of_string s) = String.length s.
Proof. induction s as [|c s IH]; simpl; congruence. Qed.

Lemma wide_skipn (n : nat) (s : string) :
  skipn n (Wide.of_string s) = Wide.of_string (PyStr.drop n s).
Proof.
  revert s. induction n as [|n IH]; intros s; [now destruct s|].
  destruct s as [|c s]; [reflexivity|]. simpl. apply IH.
Qed.

Lemma wide_contains (sub s : string) :
  Wide.contains (Wide.of_string sub) (Wide.of_string s) = PyStr.contains sub s.
Proof.
  induction s as [|c s IH].
  - cbn [Wide.of_string Wide.contains PyStr.contains].
    change (@nil Wide.char) with (Wide.of_string EmptyString).
    now rewrite wide_startswith.
  - cbn [PyStr.contains]. rewrite <- wide_startswith, <- IH. reflexivity.
Qed.

Lemma wide_find_split (sep s : string) :
  Wide.find_split (Wide.of_string sep) (Wide.of_string s)
  = option_map (fun ab => (Wide.of_string (fst ab), Wide.of_string (snd ab)))
      (PyStr.find_split sep s).
Proof.
  induction s as [|c s IH].
  - cbn [Wide.of_string Wide.find_split PyStr.find_split].
    change (@nil Wide.char) with (Wide.of_string EmptyString).
    rewrite wide_startswith, wide_length, wide_skipn.
    now destruct (prefix sep EmptyString).
  - cbn [PyStr.find_split]. rewrite <- wide_startswith.
    change (Wide.find_split (Wide.of_string sep) (Wide.of_string (String c s)))
      with (if Wide.startswith (Wide.of_string (String c s)) (Wide.of_string sep)
            then Some ([], skipn (List.length (Wide.of_string sep))
                             (Wide.of_string (String c s)))
            else match Wide.find_split (Wide.of_string sep) (Wide.of_string s) with
                 | Some (a, b) => Some (Wide.Latin c :: a, b)
                 | None => None
                 end).
    rewrite IH, wide_length, wide_skipn.
    destruct (Wide.startswith (Wide.of_string (String c s)) (Wide.of_string sep));
      [reflexivity|].
    now destruct (PyStr.find_split sep s) as [[a b]|].
Qed.

Lemma wide_split_go (sep s : string) :
  forall skip wpiece piece,
    (forall r, wpiece (Wide.of_string r) = Wide.of_string (piece r)) ->
    Wide.split_go (Wide.of_string sep) skip wpiece (Wide.of_string s)
    = map Wide.of_string (PyStr.split_go sep skip piece s).
Proof.
  induction s as [|c s IH]; intros skip wpiece piece Hp.
  - simpl. change (@nil Wide.char) with (Wide.of_string EmptyString).
    now rewrite Hp.
  - cbn [PyStr.split_go]. rewrite <- wide_startswith, <- wide_length.
    change (Wide.split_go (Wide.of_string sep) skip wpiece
              (Wide.of_string (String c s)))
      with (match skip with
            | S k => Wide.split_go (Wide.of_string sep) k wpiece (Wide.of_string s)
            | O =>
                if Wide.startswith (Wide.of_string (String c s)) (Wide.of_string sep)
                then wpiece []
                       :: Wide.split_go (Wide.of_string sep)
                            (List.length (Wide.of_string sep) - 1) (fun r => r)
                            (Wide.of_string s)
                else Wide.split_go (Wide.of_string sep) 0
                       (fun r => wpiece (Wide.Latin c :: r)) (Wide.of_string s)
            end).
    destruct skip as [|k]; [|now apply IH].
    destruct (Wide.startswith (Wide.of_string (String c s)) (Wide.of_string sep)).
    + cbn [map]. change (@nil Wide.char) with (Wide.of_string EmptyString).
      rewrite Hp. f_equal. now apply IH.
    + apply IH. intros r. apply (Hp (String c r)).
Qed.

Lemma wide_lower (s : string) :
  Wide.lower (Wide.of_string s) = Wide.of_string (PyStr.lower s).
Proof.
  induction s as [|c s IH]; [reflexivity|].
  cbn [Wide.of_string PyStr.lower]. unfold Wide.lower in *.
  cbn [map Wide.lower_char]. now rewrite IH.
Qed.

Lemma wide_lstrip (s : string) :
  Wide.lstrip (Wide.of_string s) = Wide.of_string (PyStr.lstrip s).
Proof.
  induction s as [|c s IH]; [reflexivity|].
  cbn [Wide.of_string PyStr.lstrip Wide.lstrip Wide.isspace].
  now destruct (PyStr.isspace c).
Qed.

Lemma wide_rstrip (s : string) :
  Wide.rstrip (Wide.of_string s) = Wide.of_string (PyStr.rstrip s).
Proof.
  induction s as [|c s IH]; [reflexivity|].
  cbn [Wide.of_string PyStr.rstrip Wide.rstrip Wide.isspace]. rewrite IH.
  destruct (PyStr.rstrip s); cbn [Wide.of_string]; [|reflexivity].
  now destruct (PyStr.isspace c).
Qed.

Lemma wide_strip (s : string) :
  Wide.strip (Wide.of_string s) = Wide.of_string (PyStr.strip s).
Proof. unfold Wide.strip, PyStr.strip. now rewrite wide_lstrip, wide_rstrip. Qed.

Lemma wide_map_strip (l : list string) :
  map Wide.strip (map Wide.of_string l) = map Wide.of_string (map PyStr.strip l).
Proof.
  rewrite !map_map. apply map_ext. intros s. apply wide_strip.
Qed.

(** On a question made of the code points 0..255, the two models of
    [parse] agree. *)
Lemma wide_parse_latin (question : string) :
  Wide.parse (Wide.of_string question)
  = match parse question with
    | Ok p => Ok (wide_parsed p)
    | Raise e => Raise e
    end.
Proof.
  unfold Wide.parse, parse.
  rewrite wide_contains, wide_strip, wide_lower, wide_startswith.
  unfold PyStr.startswith.
  destruct (PyStr.contains "->" question
            || prefix gq_prefix (PyStr.lower (PyStr.strip question)));
    [|reflexivity].
  unfold Wide.split, PyStr.split.
  rewrite (wide_split_go "->" _ 0 (fun r => r) (fun r => r)) by reflexivity.
  rewrite wide_map_strip, <- map_rev.
  set (concepts := map PyStr.strip
                     (PyStr.split_go "->" 0 (fun r => r)
                        (PyStr.lower (PyStr.strip question)))).
  destruct (rev concepts) as [|tail init_rev]; [reflexivity|].
  cbn [map]. rewrite wide_contains.
  destruct (PyStr.contains gq_prefix tail); [|reflexivity].
  unfold Wide.split1, PyStr.split1. rewrite wide_find_split.
  destruct (PyStr.find_split gq_prefix tail) as [[a b]|]; cbn [option_map map fst snd].
  - rewrite !wide_strip, <- map_rev.
    destruct (PyStr.strip a) as [|c a']; cbn [Wide.of_string].
    + reflexivity.
    + unfold wide_parsed. cbn [fst snd option_map wide_qval negb String.eqb].
      now rewrite map_app.
  - rewrite !wide_strip, <- map_rev.
    destruct (PyStr.strip tail) as [|c a']; cbn [Wide.of_string].
    + reflexivity.
    + unfold wide_parsed. cbn [fst snd option_map wide_qval negb String.eqb map].
      now rewrite map_app.
Qed.

(** C9, as stated: in the question [A -> Linux], where [A] is the
    character U+1D400, the first concept is that character, which is an
    uppercase character: [str.lower] has left it as it was. *)
Lemma parse_keeps_uppercase :
  Wide.parse (Wide.BoldA :: Wide.of_string " -> Linux")
  = Ok (None, Some [[Wide.BoldA]; Wide.of_string "linux"], None)
  /\ Wide.isupper Wide.BoldA = true
  /\ Wide.lower [Wide.BoldA] = [Wide.BoldA]
  /\ Wide.has_upper [Wide.BoldA] = true.
Proof. repeat split. Qed.

(* ------------------------------------------------------------------ *)
(** ** Values and dictionaries: basic facts *)

Lemma pyval_eqb_eq (a b : pyval) : pyval_eqb a b = true <-> a = b.
Proof.
  destruct a, b; simpl; split; try congruence; try discriminate.
  - intros H. apply Z.eqb_eq in H. now subst.
  - intros [= ->]. apply Z.eqb_refl.
  - intros H. apply String.eqb_eq in H. now subst.
  - intros [= ->]. apply String.eqb_refl.
Qed.

Lemma pyval_eqb_refl (a : pyval) : pyval_eqb a a = true.
Proof. now apply pyval_eqb_eq. Qed.

Lemma pyval_eqb_neq (a b : pyval) : pyval_eqb a b = false <-> a <> b.
Proof.
  split.
  - intros H E. apply pyval_eqb_eq in E. congruence.
  - intros H. destruct (pyval_eqb a b) eqn:E; [|reflexivity].
    apply pyval_eqb_eq in E. contradiction.
Qed.

Lemma mem_In (k : pyval) (l : list pyval) : mem pyval_eqb k l = true <-> In k l.
Proof.
  induction l as [|x l IH]; simpl; [easy|].
  rewrite orb_true_iff, IH, pyval_eqb_eq. intuition congruence.
Qed.

Lemma mem_not_In (k : pyval) (l : list pyval) :
  mem pyval_eqb k l = false <-> ~ In k l.
Proof.
  rewrite <- mem_In. destruct (mem pyval_eqb k l); intuition congruence.
Qed.

Section DictFacts.
Context {V : Type}.
Implicit Types (d : list (pyval * V)) (k : pyval) (v : V).

Lemma dict_get_set_same k v d :
  dict_get pyval_eqb k (dict_set pyval_eqb k v d) = Some v.
Proof.
  induction d as [|[k' v'] d IH]; simpl.
  - now rewrite pyval_eqb_refl.
  - destruct (pyval_eqb k k') eqn:E; simpl; now rewrite E.
Qed.

Lemma dict_get_set_other k k' v d :
  k' <> k ->
  dict_get pyval_eqb k' (dict_set pyval_eqb k v d) = dict_get pyval_eqb k' d.
Proof.
  intros N. induction d as [|[k0 v0] d IH]; simpl.
  - apply pyval_eqb_neq in N. now rewrite N.
  - destruct (pyval_eqb k k0) eqn:E; simpl; [|now rewrite IH].
    apply pyval_eqb_eq in E. subst k0.
    apply pyval_eqb_neq in N. now rewrite N.
Qed.

Lemma dict_keys_set_new k v d :
  ~ In k (dict_keys d) ->
  dict_keys (dict_set pyval_eqb k v d) = dict_keys d ++ [k].
Proof.
  unfold dict_keys. induction d as [|[k' v'] d IH]; simpl; [reflexivity|].
  intros N. destruct (pyval_eqb k k') eqn:E.
  - apply pyval_eqb_eq in E. subst. exfalso. apply N. now left.
  - simpl. f_equal. apply IH. intros H. apply N. now right.
Qed.

Lemma dict_get_In k v d : dict_get pyval_eqb k d = Some v -> In (k, v) d.
Proof.
  induction d as [|[k' v'] d IH]; simpl; [discriminate|].
  destruct (pyval_eqb k k') eqn:E.
  - apply pyval_eqb_eq in E. subst. intros [= ->]. now left.
  - intros H. right. now apply IH.
Qed.

Lemma dict_get_None k d :
  dict_get pyval_eqb k d = None <-> ~ In k (dict_keys d).
Proof.
  unfold dict_keys. induction d as [|[k' v'] d IH]; simpl; [easy|].
  destruct (pyval_eqb k k') eqn:E.
  - apply pyval_eqb_eq in E. subst. split; [discriminate|]. intros N.
    exfalso. apply N. now left.
  - apply pyval_eqb_neq in E. rewrite IH. intuition congruence.
Qed.

Lemma dict_get_kept k d (ids : list pyval) :
  ~ In k ids ->
  dict_get pyval_eqb k (filter (Graph.kept ids) d) = dict_get pyval_eqb k d.
Proof.
  intros N. induction d as [|[k' v'] d IH]; simpl; [reflexivity|].
  unfold Graph.kept at 1. simpl.
  destruct (pyval_eqb k k') eqn:E.
  - apply pyval_eqb_eq in E. subst k'.
    apply mem_not_In in N. rewrite N. simpl. now rewrite pyval_eqb_refl.
  - destruct (mem pyval_eqb k' ids); simpl; [exact IH | now rewrite E].
Qed.

Lemma keys_kept d (ids : list pyval) :
  dict_keys (filter (Graph.kept ids) d)
  = filter (fun n => negb (mem pyval_eqb n ids)) (dict_keys d).
Proof.
  unfold dict_keys. induction d as [|[k' v'] d IH]; simpl; [reflexivity|].
  unfold Graph.kept at 1. simpl.
  destruct (mem pyval_eqb k' ids); simpl; now rewrite IH.
Qed.

Lemma filter_kept_nil d : filter (Graph.kept []) d = d.
Proof. induction d as [|x d IH]; simpl; [reflexivity | now rewrite IH]. Qed.
End DictFacts.

(* ------------------------------------------------------------------ *)
(** ** The graph operations *)

Lemma dict_get_map_values {V W : Type} (f : V -> W) (k : pyval)
      (d : list (pyval * V)) :
  dict_get pyval_eqb k (map (fun sd => (fst sd, f (snd sd))) d)
  = option_map f (dict_get pyval_eqb k d).
Proof.
  induction d as [|[k' v'] d IH]; simpl; [reflexivity|].
  now destruct (pyval_eqb k k').
Qed.

Lemma edges_addedge_same (g : graph) (p t : pyval) (a : attrs) :
  Graph.edges (Graph.addedge g p t a) p
  = dict_set pyval_eqb t a (Graph.edges g p).
Proof. unfold Graph.edges at 1. simpl. now rewrite dict_get_set_same. Qed.

Lemma has_edge_addedge_same (g : graph) (p t : pyval) (a : attrs) :
  Graph.has_edge (Graph.addedge g p t a) p t a.
Proof.
  unfold Graph.has_edge. rewrite edges_addedge_same. apply dict_get_set_same.
Qed.

Lemma has_edge_addedge_other (g : graph) (p t t' : pyval) (a a' : attrs) :
  t <> t' ->
  Graph.has_edge g p t a -> Graph.has_edge (Graph.addedge g p t' a') p t a.
Proof.
  unfold Graph.has_edge. intros N H.
  now rewrite edges_addedge_same, dict_get_set_other.
Qed.

Lemma copy_edges_nodes (g : graph) (p : pyval) (es : adjacency) :
  g_nodes (copy_edges g p es) = g_nodes g.
Proof.
  unfold copy_edges. revert g. induction es as [|[t a] es IH]; intros g; simpl.
  - reflexivity.
  - rewrite IH. now destruct (pyval_eqb p t).
Qed.

Lemma copy_edges_keeps (g : graph) (p t : pyval) (a : attrs) (es : adjacency) :
  ~ In t (dict_keys es) ->
  Graph.has_edge g p t a -> Graph.has_edge (copy_edges g p es) p t a.
Proof.
  unfold copy_edges. revert g.
  induction es as [|[t' a'] es IH]; intros g N H; simpl; [exact H|].
  simpl in N. apply IH; [tauto|].
  destruct (pyval_eqb p t'); simpl; [exact H|].
  apply has_edge_addedge_other; [|exact H]. intros ->. tauto.
Qed.

(** After the copy, [primary] has every edge of the duplicate whose
    target is not [primary] itself. *)
Lemma copy_edges_has_edge (g : graph) (p t : pyval) (a : attrs) (es : adjacency) :
  NoDup (dict_keys es) ->
  dict_get pyval_eqb t es = Some a ->
  t <> p ->
  Graph.has_edge (copy_edges g p es) p t a.
Proof.
  intros ND G N. revert g.
  induction es as [|[t' a'] es IH]; intros g; [discriminate|].
  simpl in ND, G. inversion ND as [|? ? Hnew ND']; subst.
  destruct (pyval_eqb t t') eqn:E.
  - apply pyval_eqb_eq in E. subst t'. injection G as ->.
    change (copy_edges g p ((t, a) :: es))
      with (copy_edges (if negb (pyval_eqb p t)
                        then Graph.addedge g p t a else g) p es).
    assert (Hp : pyval_eqb p t = false) by (apply pyval_eqb_neq; congruence).
    rewrite Hp. simpl. apply copy_edges_keeps; [exact Hnew|].
    apply has_edge_addedge_same.
  - change (copy_edges g p ((t', a') :: es))
      with (copy_edges (if negb (pyval_eqb p t')
                        then Graph.addedge g p t' a' else g) p es).
    now apply IH.
Qed.

Lemma edges_delete (g : graph) (ids : list pyval) (s : pyval) :
  ~ In s ids ->
  Graph.edges (Graph.delete g ids) s = filter (Graph.kept ids) (Graph.edges g s).
Proof.
  intros N. unfold Graph.edges, Graph.delete. cbn [g_adj].
  rewrite (dict_get_map_values (V := adjacency) (W := adjacency)
             (filter (@Graph.kept attrs ids))), dict_get_kept by exact N.
  now destruct (dict_get pyval_eqb s (g_adj g)).
Qed.

Lemma has_edge_delete (g : graph) (ids : list pyval) (s t : pyval) (a : attrs) :
  ~ In s ids -> ~ In t ids ->
  Graph.has_edge g s t a -> Graph.has_edge (Graph.delete g ids) s t a.
Proof.
  unfold Graph.has_edge. intros Ns Nt H.
  now rewrite edges_delete, dict_get_kept.
Qed.

Lemma scan_delete (g : graph) (ids : list pyval) :
  Graph.scan (Graph.delete g ids)
  = filter (fun n => negb (mem pyval_eqb n ids)) (Graph.scan g).
Proof. apply (keys_kept (g_nodes g)). Qed.

Lemma delete_nil (g : graph) : Graph.delete g [] = g.
Proof.
  destruct g as [nodes adj]. unfold Graph.delete. simpl.
  rewrite !filter_kept_nil. f_equal.
  induction adj as [|[s d] adj IH]; simpl; [reflexivity|].
  now rewrite filter_kept_nil, IH.
Qed.

Lemma attribute_ext (g1 g2 : graph) (n : pyval) (field : string) :
  dict_get pyval_eqb n (g_nodes g1) = dict_get pyval_eqb n (g_nodes g2) ->
  Graph.attribute g1 n field = Graph.attribute g2 n field.
Proof. unfold Graph.attribute. now intros ->. Qed.

Lemma node_label_ext (uuid_parses : string -> bool) (g1 g2 : graph) (n : pyval) :
  dict_get pyval_eqb n (g_nodes g1) = dict_get pyval_eqb n (g_nodes g2) ->
  node_label uuid_parses g1 n = node_label uuid_parses g2 n.
Proof.
  intros H. unfold node_label.
  now rewrite (attribute_ext g1 g2 n "id" H), (attribute_ext g1 g2 n "topic" H).
Qed.

(* ------------------------------------------------------------------ *)
(** ** deduplicate: the scan *)

Lemma mem_app (k : pyval) (l1 l2 : list pyval) :
  mem pyval_eqb k (l1 ++ l2) = mem pyval_eqb k l1 || mem pyval_eqb k l2.
Proof.
  induction l1 as [|x l1 IH]; simpl; [reflexivity|].
  now rewrite IH, orb_assoc.
Qed.

Section Scan.
Variable uuid_parses : string -> bool.
Variable emb : Embeddings.
Variable threshold : Q.

(** The two ways a step can succeed. *)
Lemma dedup_step_cases (st st' : dstate) (node : pyval) :
  dedup_step uuid_parses emb threshold st node = Ok st' ->
  exists label best primary,
    node_label uuid_parses (d_graph st) node = Ok label
    /\ best_match emb label (dict_keys (d_topics st)) = Ok best
    /\ find_primary threshold (d_topics st) (dict_keys (d_topics st))
         (fst best) (snd best) = Ok primary
    /\ st' = if negb (truthy primary)
             then register st node label
             else merge st node primary.
Proof.
  unfold dedup_step.
  destruct (node_label uuid_parses (d_graph st) node) as [label|] eqn:L;
    [|discriminate].
  cbn [bind].
  destruct (best_match emb label (dict_keys (d_topics st))) as [best|] eqn:B;
    [|discriminate].
  cbn [bind].
  destruct (find_primary threshold (d_topics st) (dict_keys (d_topics st))
              (fst best) (snd best)) as [primary|] eqn:P; [|discriminate].
  cbn [bind]. intros H. exists label, best, primary.
  do 3 (split; [first [reflexivity | assumption]|]).
  destruct (negb (truthy primary)); congruence.
Qed.

Lemma dedup_step_nodes (st st' : dstate) (node : pyval) :
  dedup_step uuid_parses emb threshold st node = Ok st' -> g_nodes (d_graph st') = g_nodes (d_graph st).
Proof.
  intros H. destruct (dedup_step_cases _ _ _ H) as (l & b & p & _ & _ & _ & ->).
  destruct (negb (truthy p)); simpl; [reflexivity | apply copy_edges_nodes].
Qed.

Lemma dedup_step_deletes (st st' : dstate) (node n : pyval) :
  dedup_step uuid_parses emb threshold st node = Ok st' ->
  (In n (d_deletes st) -> In n (d_deletes st'))
  /\ (In n (d_deletes st') -> In n (d_deletes st) \/ n = node).
Proof.
  intros H. destruct (dedup_step_cases _ _ _ H) as (l & b & p & _ & _ & _ & ->).
  destruct (negb (truthy p)); simpl; [tauto|].
  rewrite in_app_iff. simpl. intuition.
Qed.

Lemma dedup_scan_nodes (rest : list pyval) :
  forall st st', dedup_scan uuid_parses emb threshold st rest = Ok st' ->
                 g_nodes (d_graph st') = g_nodes (d_graph st).
Proof.
  induction rest as [|node rest IH]; intros st st'; simpl.
  - now intros [= <-].
  - destruct (dedup_step uuid_parses emb threshold st node) as [st1|] eqn:S; [|discriminate]. cbn [bind].
    intros H. rewrite (IH _ _ H). now apply dedup_step_nodes in S.
Qed.

Lemma dedup_scan_deletes (rest : list pyval) :
  forall st st' n,
    dedup_scan uuid_parses emb threshold st rest = Ok st' ->
    (In n (d_deletes st) -> In n (d_deletes st'))
    /\ (In n (d_deletes st') -> In n (d_deletes st) \/ In n rest).
Proof.
  induction rest as [|node rest IH]; intros st st' n; simpl.
  - intros [= <-]. tauto.
  - destruct (dedup_step uuid_parses emb threshold st node) as [st1|] eqn:S; [|discriminate]. cbn [bind].
    intros H. destruct (IH _ _ n H) as [I1 I2].
    destruct (dedup_step_deletes _ _ _ n S) as [J1 J2].
    split; [tauto|]. intros Hn. destruct (I2 Hn) as [Hd|Hr]; [|tauto].
    destruct (J2 Hd); [tauto|]. subst. tauto.
Qed.

(** One step keeps the invariant of the labels. *)
Lemma labels_inv_step (g0 : graph) (done : list pyval) (st st' : dstate)
      (node : pyval) :
  labels_inv uuid_parses g0 done st ->
  ~ In node done ->
  dedup_step uuid_parses emb threshold st node = Ok st' ->
  labels_inv uuid_parses g0 (done ++ [node]) st'.
Proof.
  intros (Hn & Hk & Hd & Hl) Nd H.
  destruct (dedup_step_cases _ _ _ H) as (label & b & p & L & _ & _ & ->).
  assert (Ndel : ~ In node (d_deletes st)) by (intros X; apply Nd, Hd, X).
  destruct (negb (truthy p)); unfold labels_inv; simpl.
  - split; [exact Hn|]. split; [|split].
    + rewrite dict_keys_set_new.
      * rewrite filter_app, Hk. simpl.
        apply mem_not_In in Ndel. now rewrite Ndel.
      * rewrite Hk. intros X. apply filter_In in X. tauto.
    + intros n X. apply in_or_app. left. now apply Hd.
    + intros n lab. destruct (pyval_eqb n node) eqn:E.
      * apply pyval_eqb_eq in E. subst n. rewrite dict_get_set_same.
        intros [= <-]. rewrite <- L. apply node_label_ext. now rewrite Hn.
      * apply pyval_eqb_neq in E. rewrite dict_get_set_other by exact E.
        apply Hl.
  - split; [rewrite copy_edges_nodes; exact Hn|]. split; [|split].
    + rewrite filter_app, Hk. simpl.
      rewrite mem_app. simpl. rewrite pyval_eqb_refl, orb_true_r. simpl.
      rewrite app_nil_r. apply filter_ext_in. intros n Hin.
      rewrite mem_app. simpl.
      assert (E : pyval_eqb n node = false)
        by (apply pyval_eqb_neq; intros ->; contradiction).
      now rewrite E, !orb_false_r.
    + intros n X. apply in_app_or in X. apply in_or_app.
      destruct X as [X|X]; [left; now apply Hd | now right].
    + exact Hl.
Qed.

Lemma labels_inv_scan (g0 : graph) (rest : list pyval) :
  forall done st st',
    labels_inv uuid_parses g0 done st ->
    NoDup (done ++ rest) ->
    dedup_scan uuid_parses emb threshold st rest = Ok st' ->
    labels_inv uuid_parses g0 (done ++ rest) st'.
Proof.
  induction rest as [|node rest IH]; intros done st st' Inv ND; simpl.
  - intros [= <-]. now rewrite app_nil_r.
  - destruct (dedup_step uuid_parses emb threshold st node) as [st1|] eqn:S; [|discriminate]. cbn [bind].
    intros H.
    assert (Nd : ~ In node done).
    { apply NoDup_remove_2 in ND. intros X. apply ND, in_or_app. now left. }
    replace (done ++ node :: rest) with ((done ++ [node]) ++ rest) in *
      by (now rewrite <- app_assoc).
    apply (IH _ st1); [|exact ND|exact H].
    now apply (labels_inv_step g0 done st).
Qed.

(** A second scan, over the nodes that the first one did not delete,
    registers every node again: the first scan decided on the same
    labels and the same registered topics. *)
Lemma rescan (rest : list pyval) :
  forall st st1 g2,
    dedup_scan uuid_parses emb threshold st rest = Ok st1 ->
    NoDup rest ->
    (forall n, In n rest -> ~ In n (d_deletes st)) ->
    (forall n, ~ In n (d_deletes st1) ->
               dict_get pyval_eqb n (g_nodes g2)
               = dict_get pyval_eqb n (g_nodes (d_graph st))) ->
    dedup_scan uuid_parses emb threshold {| d_graph := g2; d_labels := d_labels st;
                 d_topics := d_topics st; d_deletes := [] |}
              (filter (fun n => negb (mem pyval_eqb n (d_deletes st1))) rest)
    = Ok {| d_graph := g2; d_labels := d_labels st1;
            d_topics := d_topics st1; d_deletes := [] |}.
Proof.
  induction rest as [|node rest IH]; intros st st1 g2 H ND Fresh Agree.
  - simpl in *. now injection H as <-.
  - simpl in H.
    destruct (dedup_step uuid_parses emb threshold st node) as [st'|] eqn:S; [|discriminate]. cbn [bind] in H.
    inversion ND as [|? ? Nrest ND']; subst.
    destruct (dedup_step_cases _ _ _ S) as (label & b & p & L & B & P & E).
    pose proof (dedup_scan_nodes _ _ _ H) as Hnodes.
    destruct (negb (truthy p)) eqn:T; subst st'.
    + assert (Nd : ~ In node (d_deletes st1)).
      { intros X. apply (dedup_scan_deletes _ _ _ node H) in X.
        simpl in X. destruct X as [X|X]; [|contradiction].
        apply (Fresh node); [now left | exact X]. }
      cbn [filter]. apply mem_not_In in Nd as Nd'. rewrite Nd'. cbn [negb].
      cbn [dedup_scan]. unfold dedup_step at 1. cbn [d_graph d_topics].
      rewrite (node_label_ext uuid_parses g2 (d_graph st) node (Agree _ Nd)), L.
      cbn [bind]. rewrite B. cbn [bind]. rewrite P. cbn [bind]. rewrite T.
      cbn [bind].
      apply (IH (register st node label) st1 g2 H ND').
      * intros n Hn. simpl. apply Fresh. now right.
      * exact Agree.
    + assert (Hd : In node (d_deletes st1)).
      { apply (dedup_scan_deletes _ _ _ node H). simpl.
        apply in_or_app. right. now left. }
      cbn [filter]. apply mem_In in Hd. rewrite Hd. cbn [negb].
      apply (IH (merge st node p) st1 g2 H ND').
      * intros n Hn. simpl. intros X. apply in_app_or in X as [X|[X|[]]].
        -- apply (Fresh n); [now right | exact X].
        -- subst. contradiction.
      * intros n Hn. simpl. rewrite copy_edges_nodes. now apply Agree.
Qed.
End Scan.

(* ------------------------------------------------------------------ *)
(** ** deduplicate: labels and idempotence *)

Lemma labels_inv_init (uuid_parses : string -> bool) (g : graph) :
  labels_inv uuid_parses g [] (dedup_init g).
Proof. repeat split; simpl; intros; try contradiction; discriminate. Qed.

Lemma valid_auto_generated (uuid_parses : string -> bool) (uid : pyval)
      (auto : bool) :
  valid uuid_parses uid = Ok auto -> auto = auto_generated uuid_parses uid.
Proof.
  unfold valid, auto_generated.
  destruct (uuid_parses (py_str uid)); [now intros [= <-]|].
  destruct uid; simpl; congruence.
Qed.

(** C10: the keys of the label map that [deduplicate] returns are exactly
    the nodes of the returned graph, in scan order: the scanned nodes that
    are not in the delete list.  Each is mapped to its label: the topic
    attribute when the id attribute is an auto-generated identifier (a
    UUID, an integer or a string of digits) and the topic is set, the id
    attribute otherwise. *)
Theorem deduplicate_labels
        (uuid_parses : string -> bool) (emb : Embeddings)
        (g : graph) (threshold : Q) (g' : graph) (labels : pydict) :
  NoDup (Graph.scan g) ->
  deduplicate uuid_parses emb g threshold = Ok (g', labels) ->
  exists st,
    dedup_scan uuid_parses emb threshold (dedup_init g) (Graph.scan g) = Ok st
    /\ dict_keys labels = Graph.scan g'
    /\ (forall n, In n (dict_keys labels)
                  <-> In n (Graph.scan g) /\ ~ In n (d_deletes st))
    /\ (forall n, In n (dict_keys labels) ->
          dict_get pyval_eqb n labels
          = Some (if auto_generated uuid_parses (Graph.attribute g n "id")
                     && truthy (Graph.attribute g n "topic")
                  then Graph.attribute g n "topic"
                  else Graph.attribute g n "id")).
Proof.
  intros ND D. unfold deduplicate in D.
  destruct (dedup_scan uuid_parses emb threshold (dedup_init g) (Graph.scan g))
    as [st|] eqn:S; [|discriminate].
  cbn [bind] in D. injection D as <- <-. exists st.
  destruct (labels_inv_scan uuid_parses emb threshold g (Graph.scan g)
              [] _ _ (labels_inv_init uuid_parses g) ND S)
    as (Hn & Hk & Hd & Hl).
  simpl in Hk.
  assert (K : dict_keys (d_labels st)
              = Graph.scan (Graph.delete (d_graph st) (d_deletes st))).
  { rewrite scan_delete. unfold Graph.scan. now rewrite Hn. }
  split; [reflexivity|]. split; [exact K|]. split.
  - intros n. rewrite Hk, filter_In, negb_true_iff, mem_not_In. tauto.
  - intros n Hin.
    destruct (dict_get pyval_eqb n (d_labels st)) as [lab|] eqn:G.
    2:{ apply dict_get_None in G. contradiction. }
    specialize (Hl _ _ G). unfold node_label in Hl.
    destruct (valid uuid_parses (Graph.attribute g n "id")) as [auto|] eqn:V;
      [|discriminate].
    cbn [bind] in Hl. injection Hl as <-.
    now rewrite (valid_auto_generated _ _ _ V).
Qed.

(** C6: when [deduplicate] has returned a graph, running it again on that
    graph with the same threshold and the same similarity function puts no
    node in the delete list; it returns the same graph and the same labels. *)
Theorem deduplicate_idempotent
        (uuid_parses : string -> bool) (emb : Embeddings)
        (g : graph) (threshold : Q) (g' : graph) (labels : pydict) :
  NoDup (Graph.scan g) ->
  deduplicate uuid_parses emb g threshold = Ok (g', labels) ->
  exists st,
    dedup_scan uuid_parses emb threshold (dedup_init g') (Graph.scan g') = Ok st
    /\ d_deletes st = []
    /\ deduplicate uuid_parses emb g' threshold = Ok (g', labels).
Proof.
  intros ND D. unfold deduplicate in D.
  destruct (dedup_scan uuid_parses emb threshold (dedup_init g) (Graph.scan g))
    as [st1|] eqn:S; [|discriminate].
  cbn [bind] in D. injection D as <- <-.
  pose proof (dedup_scan_nodes _ _ _ _ _ _ S) as Hn. simpl in Hn.
  set (g' := Graph.delete (d_graph st1) (d_deletes st1)).
  assert (Sc : Graph.scan g'
               = filter (fun n => negb (mem pyval_eqb n (d_deletes st1)))
                        (Graph.scan g)).
  { unfold g'. rewrite scan_delete. unfold Graph.scan. now rewrite Hn. }
  pose proof (rescan uuid_parses emb threshold (Graph.scan g)
                (dedup_init g) st1 g' S ND) as R.
  simpl in R. rewrite <- Sc in R.
  assert (R' : dedup_scan uuid_parses emb threshold (dedup_init g') (Graph.scan g')
               = Ok {| d_graph := g'; d_labels := d_labels st1;
                       d_topics := d_topics st1; d_deletes := [] |}).
  { apply R; [tauto|].
    intros n Nn. unfold g'. simpl. rewrite dict_get_kept by exact Nn.
    now rewrite Hn. }
  eexists. split; [exact R'|]. split; [reflexivity|].
  unfold deduplicate. rewrite R'. cbn [bind d_graph d_deletes d_labels].
  now rewrite delete_nil.
Qed.

Lemma deduplicate_labels_witness :
  exists st,
    dedup_scan Sample.uuid_parses Sample.emb_linux (9 # 10)
      (dedup_init Sample.named_graph) (Graph.scan Sample.named_graph) = Ok st
    /\ dict_keys [(PyInt 1, PyStr "Linux"); (PyInt 4, PyStr "notes.txt")]
       = Graph.scan
           (Graph.delete
              (copy_edges Sample.named_graph (PyInt 1)
                 (Graph.edges Sample.named_graph (PyInt 2))) [PyInt 2])
    /\ (forall n,
          In n (dict_keys [(PyInt 1, PyStr "Linux"); (PyInt 4, PyStr "notes.txt")])
          <-> In n (Graph.scan Sample.named_graph) /\ ~ In n (d_deletes st))
    /\ (forall n,
          In n (dict_keys [(PyInt 1, PyStr "Linux"); (PyInt 4, PyStr "notes.txt")]) ->
          dict_get pyval_eqb n
            [(PyInt 1, PyStr "Linux"); (PyInt 4, PyStr "notes.txt")]
          = Some (if auto_generated Sample.uuid_parses
                       (Graph.attribute Sample.named_graph n "id")
                     && truthy (Graph.attribute Sample.named_graph n "topic")
                  then Graph.attribute Sample.named_graph n "topic"
                  else Graph.attribute Sample.named_graph n "id")).
Proof.
  apply (deduplicate_labels Sample.uuid_parses Sample.emb_linux
           Sample.named_graph (9 # 10)).
  - repeat constructor; simpl; intuition discriminate.
  - vm_compute. reflexivity.
Defined.

Lemma deduplicate_idempotent_witness :
  exists st,
    dedup_scan Sample.uuid_parses Sample.emb_linux (9 # 10)
      (dedup_init
         (Graph.delete
            (copy_edges Sample.linux_graph (PyInt 1)
               (Graph.edges Sample.linux_graph (PyInt 2))) [PyInt 2]))
      (Graph.scan
         (Graph.delete
            (copy_edges Sample.linux_graph (PyInt 1)
               (Graph.edges Sample.linux_graph (PyInt 2))) [PyInt 2])) = Ok st
    /\ d_deletes st = []
    /\ deduplicate Sample.uuid_parses Sample.emb_linux
         (Graph.delete
            (copy_edges Sample.linux_graph (PyInt 1)
               (Graph.edges Sample.linux_graph (PyInt 2))) [PyInt 2])
         (9 # 10)
       = Ok (Graph.delete
               (copy_edges Sample.linux_graph (PyInt 1)
                  (Graph.edges Sample.linux_graph (PyInt 2))) [PyInt 2],
             [(PyInt 1, PyStr "Linux"); (PyInt 3, PyStr "Unix")]).
Proof.
  apply (deduplicate_idempotent Sample.uuid_parses Sample.emb_linux
           Sample.linux_graph (9 # 10)).
  - repeat constructor; simpl; intuition discriminate.
  - vm_compute. reflexivity.
Defined.

(* ------------------------------------------------------------------ *)
(** ** deduplicate: merging a duplicate *)

Section Merge.
Variable uuid_parses : string -> bool.
Variable emb : Embeddings.
Variable threshold : Q.

Lemma dedup_step_register (st : dstate) (node label primary : pyval)
      (best : nat * Q) :
  node_label uuid_parses (d_graph st) node = Ok label ->
  best_match emb label (dict_keys (d_topics st)) = Ok best ->
  find_primary threshold (d_topics st) (dict_keys (d_topics st))
    (fst best) (snd best) = Ok primary ->
  truthy primary = false ->
  dedup_step uuid_parses emb threshold st node = Ok (register st node label).
Proof.
  intros L B P T. unfold dedup_step.
  rewrite L. cbn [bind]. rewrite B. cbn [bind]. rewrite P. cbn [bind].
  now rewrite T.
Qed.

Lemma dedup_step_merge (st : dstate) (node label primary : pyval)
      (best : nat * Q) :
  node_label uuid_parses (d_graph st) node = Ok label ->
  best_match emb label (dict_keys (d_topics st)) = Ok best ->
  find_primary threshold (d_topics st) (dict_keys (d_topics st))
    (fst best) (snd best) = Ok primary ->
  truthy primary = true ->
  dedup_step uuid_parses emb threshold st node = Ok (merge st node primary).
Proof.
  intros L B P T. unfold dedup_step.
  rewrite L. cbn [bind]. rewrite B. cbn [bind]. rewrite P. cbn [bind].
  now rewrite T.
Qed.

(** A node whose best score reaches the threshold, matched to a primary
    whose handle is true as a condition, is put in the delete list, and
    the primary receives each of its edges to another target. *)
Lemma dedup_step_duplicate (st : dstate) (node label name primary : pyval)
      (pid : nat) (pscore : Q) :
  node_label uuid_parses (d_graph st) node = Ok label ->
  best_match emb label (dict_keys (d_topics st)) = Ok (pid, pscore) ->
  Qle_bool threshold pscore = true ->
  nth_error (dict_keys (d_topics st)) pid = Some name ->
  dict_get pyval_eqb name (d_topics st) = Some primary ->
  truthy primary = true ->
  NoDup (dict_keys (Graph.edges (d_graph st) node)) ->
  exists st',
    dedup_step uuid_parses emb threshold st node = Ok st'
    /\ d_deletes st' = d_deletes st ++ [node]
    /\ forall target a,
         Graph.has_edge (d_graph st) node target a ->
         target <> primary ->
         Graph.has_edge (d_graph st') primary target a.
Proof.
  intros L B S N G T ND. exists (merge st node primary). split; [|split].
  - apply (dedup_step_merge st node label primary (pid, pscore) L B); [|exact T].
    unfold find_primary. cbn [fst snd]. now rewrite S, N, G.
  - reflexivity.
  - intros target a H Ne. simpl. now apply copy_edges_has_edge.
Qed.
End Merge.

Lemma topic_node_label (uuid_parses : string -> bool) (g : graph)
      (node : pyval) (topic : string) :
  topic_node uuid_parses g node topic ->
  topic <> EmptyString ->
  node_label uuid_parses g node = Ok (PyStr topic).
Proof.
  intros [V T] NE. unfold node_label. rewrite V, T. cbn [bind truthy andb].
  apply String.eqb_neq in NE. now rewrite NE.
Qed.

(** C3, at a primary whose handle is the integer 0: the label "Linux OS"
    scores 0.95 against the registered label "Linux", above the threshold
    0.9, yet node 1 is not put in the delete list: it is registered as a
    primary of its own, and the graph comes back with both nodes. *)
Theorem zero_handle_not_merged :
  best_match Sample.emb_linux (PyStr "Linux OS") [PyStr "Linux"]
  = Ok (0, (95 # 100)%Q)
  /\ Qle_bool (9 # 10) (95 # 100) = true
  /\ dedup_scan Sample.uuid_parses Sample.emb_linux (9 # 10)
       (dedup_init Sample.zero_graph) (Graph.scan Sample.zero_graph)
     = Ok {| d_graph := Sample.zero_graph;
             d_labels := [(PyInt 0, PyStr "Linux"); (PyInt 1, PyStr "Linux OS")];
             d_topics := [(PyStr "Linux", PyInt 0); (PyStr "Linux OS", PyInt 1)];
             d_deletes := [] |}
  /\ deduplicate Sample.uuid_parses Sample.emb_linux Sample.zero_graph (9 # 10)
     = Ok (Sample.zero_graph,
           [(PyInt 0, PyStr "Linux"); (PyInt 1, PyStr "Linux OS")]).
Proof. repeat split; vm_compute; reflexivity. Qed.

(** C2, as stated: in the Linux example the result has two nodes, but the
    edge that joined the "Linux OS" node to the "Linux" node, which was
    incident to "Linux OS", is on no node afterwards: [deduplicate] skips
    it ([primary != target]) and it goes with the deleted node.  The
    only edge of the surviving "Linux" node is the one copied from
    "Linux OS" to "Unix"; no edge of the result carries the attributes
    of the lost one. *)
Lemma linux_incident_edges_not_moved :
  (topic_node Sample.uuid_parses Sample.linux_graph (PyInt 1) "Linux"
   /\ topic_node Sample.uuid_parses Sample.linux_graph (PyInt 2) "Linux OS"
   /\ topic_node Sample.uuid_parses Sample.linux_graph (PyInt 3) "Unix"
   /\ Sample.similarity (PyStr "Linux OS") [PyStr "Linux"] = [(0, (95 # 100)%Q)]
   /\ Sample.similarity (PyStr "Unix") [PyStr "Linux"] = [(0, (2 # 10)%Q)])
  /\ Graph.has_edge Sample.linux_graph (PyInt 2) (PyInt 1) (Sample.rel "same")
  /\ exists g' labels,
       deduplicate Sample.uuid_parses Sample.emb_linux
         Sample.linux_graph (9 # 10) = Ok (g', labels)
       /\ List.length (Graph.scan g') = 2
       /\ Graph.edges g' (PyInt 1) = [(PyInt 3, Sample.rel "descends")]
       /\ forall source target,
            ~ Graph.has_edge g' source target (Sample.rel "same").
Proof.
  split; [repeat split; vm_compute; reflexivity|].
  split; [reflexivity|].
  eexists. eexists. split; [vm_compute; reflexivity|].
  split; [reflexivity|]. split; [reflexivity|].
  intros source target. unfold Graph.has_edge, Graph.edges. simpl.
  destruct (pyval_eqb source (PyInt 3)); simpl; [discriminate|].
  destruct (pyval_eqb source (PyInt 1)); simpl; [|discriminate].
  destruct (pyval_eqb target (PyInt 3)); discriminate.
Qed.

(** C2, amended: for three scanned nodes, with distinct handles, whose
    labels are the topics "Linux", "Linux OS" and "Unix", when the best
    score of "Linux OS" against ["Linux"] is 0.95 and that of "Unix" is
    0.2, and the handle of the "Linux" node is true as a condition,
    [deduplicate] with threshold 0.9 returns a graph with exactly the two
    nodes "Linux" and "Unix", and every edge that left the "Linux OS" node
    for a target other than the "Linux" node and itself is an edge of the
    surviving "Linux" node, with the same attributes. *)
Theorem linux_example
        (uuid_parses : string -> bool) (emb : Embeddings) (g : graph)
        (n1 n2 n3 : pyval) (r2 r3 : list (nat * Q)) :
  wf_graph g ->
  Graph.scan g = [n1; n2; n3] ->
  topic_node uuid_parses g n1 "Linux" ->
  topic_node uuid_parses g n2 "Linux OS" ->
  topic_node uuid_parses g n3 "Unix" ->
  emb_similarity emb (PyStr "Linux OS") [PyStr "Linux"] = (0, (95 # 100)%Q) :: r2 ->
  emb_similarity emb (PyStr "Unix") [PyStr "Linux"] = (0, (2 # 10)%Q) :: r3 ->
  truthy n1 = true ->
  exists g',
    deduplicate uuid_parses emb g (9 # 10)
    = Ok (g', [(n1, PyStr "Linux"); (n3, PyStr "Unix")])
    /\ Graph.scan g' = [n1; n3]
    /\ forall target a,
         Graph.has_edge g n2 target a ->
         target <> n1 -> target <> n2 ->
         Graph.has_edge g' n1 target a.
Proof.
  intros (ND & _ & NDe) Sc T1 T2 T3 S2 S3 Tr.
  rewrite Sc in ND.
  assert (N12 : n1 <> n2 /\ n1 <> n3 /\ n2 <> n3).
  { inversion ND as [|? ? H1 ND1]; subst. inversion ND1 as [|? ? H2 _]; subst.
    simpl in H1, H2. intuition. }
  destruct N12 as (N12 & N13 & N23).
  apply topic_node_label in T1; [|discriminate].
  apply topic_node_label in T2; [|discriminate].
  apply topic_node_label in T3; [|discriminate].
  set (st1 := register (dedup_init g) n1 (PyStr "Linux")).
  set (st2 := merge st1 n2 n1).
  set (st3 := register st2 n3 (PyStr "Unix")).
  assert (E1 : dedup_step uuid_parses emb (9 # 10) (dedup_init g) n1 = Ok st1).
  { apply (dedup_step_register uuid_parses emb (9 # 10) (dedup_init g) n1
             (PyStr "Linux") PyNone (0, 0%Q) T1); reflexivity. }
  assert (E2 : dedup_step uuid_parses emb (9 # 10) st1 n2 = Ok st2).
  { apply (dedup_step_merge uuid_parses emb (9 # 10) st1 n2
             (PyStr "Linux OS") n1 (0, (95 # 100)%Q) T2).
    - simpl. now rewrite S2.
    - reflexivity.
    - exact Tr. }
  assert (E3 : dedup_step uuid_parses emb (9 # 10) st2 n3 = Ok st3).
  { apply (dedup_step_register uuid_parses emb (9 # 10) st2 n3
             (PyStr "Unix") PyNone (0, (2 # 10)%Q)).
    - rewrite <- T3. apply node_label_ext. simpl. now rewrite copy_edges_nodes.
    - simpl. now rewrite S3.
    - reflexivity.
    - reflexivity. }
  exists (Graph.delete (d_graph st3) (d_deletes st3)). split; [|split].
  - unfold deduplicate. rewrite Sc. cbn [dedup_scan].
    rewrite E1. cbn [bind]. rewrite E2. cbn [bind]. rewrite E3. cbn [bind].
    do 2 f_equal. simpl.
    assert (X : pyval_eqb n3 n1 = false) by (apply pyval_eqb_neq; congruence).
    now rewrite X.
  - rewrite scan_delete. simpl. unfold Graph.scan.
    rewrite copy_edges_nodes. fold (Graph.scan g). rewrite Sc. simpl.
    assert (X1 : pyval_eqb n1 n2 = false) by (now apply pyval_eqb_neq).
    assert (X3 : pyval_eqb n3 n2 = false) by (apply pyval_eqb_neq; congruence).
    now rewrite X1, X3, pyval_eqb_refl.
  - intros target a H Nt1 Nt2. simpl.
    apply has_edge_delete.
    + simpl. intuition.
    + simpl. intuition.
    + apply copy_edges_has_edge; [apply NDe | exact H | exact Nt1].
Qed.

Lemma linux_example_witness :
  exists g',
    deduplicate Sample.uuid_parses Sample.emb_linux Sample.linux_graph (9 # 10)
    = Ok (g', [(PyInt 1, PyStr "Linux"); (PyInt 3, PyStr "Unix")])
    /\ Graph.scan g' = [PyInt 1; PyInt 3]
    /\ forall target a,
         Graph.has_edge Sample.linux_graph (PyInt 2) target a ->
         target <> PyInt 1 -> target <> PyInt 2 ->
         Graph.has_edge g' (PyInt 1) target a.
Proof.
  apply (linux_example Sample.uuid_parses Sample.emb_linux Sample.linux_graph
           (PyInt 1) (PyInt 2) (PyInt 3) [] []).
  - split; [|split].
    + repeat constructor; simpl; intuition discriminate.
    + repeat constructor; simpl; intuition discriminate.
    + intros node. unfold Graph.edges. simpl.
      destruct (pyval_eqb node (PyInt 2)).
      * repeat constructor; simpl; intuition discriminate.
      * destruct (pyval_eqb node (PyInt 3));
          repeat constructor; simpl; intuition discriminate.
  - reflexivity.
  - split; reflexivity.
  - split; reflexivity.
  - split; reflexivity.
  - reflexivity.
  - reflexivity.
  - reflexivity.
Defined.

(* ------------------------------------------------------------------ *)
(** ** deduplicate returns *)

Lemma valid_total (uuid_parses : string -> bool) (uid : pyval) :
  uid <> PyNone -> exists auto, valid uuid_parses uid = Ok auto.
Proof.
  intros N. unfold valid. destruct (uuid_parses (py_str uid)); [eauto|].
  destruct uid; [contradiction | eauto | eauto].
Qed.

Lemma find_primary_total (threshold : Q) (topics : pydict) (label : pyval)
      (emb : Embeddings) :
  ranks_candidates emb ->
  Qle_bool threshold 0 = false ->
  exists best primary,
    best_match emb label (dict_keys topics) = Ok best
    /\ find_primary threshold topics (dict_keys topics) (fst best) (snd best)
       = Ok primary.
Proof.
  intros RC Pos. unfold best_match, find_primary.
  destruct (dict_keys topics) as [|k ks] eqn:K.
  - exists (0, 0%Q), PyNone. cbn [fst snd]. now rewrite Pos.
  - destruct (RC label (k :: ks)) as (pid & s & r & E & Lt); [discriminate|].
    rewrite E. exists (pid, s). cbn [fst snd].
    destruct (Qle_bool threshold s); [|eauto].
    destruct (nth_error (k :: ks) pid) as [name|] eqn:N.
    2:{ apply nth_error_None in N. lia. }
    apply nth_error_In in N. rewrite <- K in N.
    destruct (dict_get pyval_eqb name topics) as [node|] eqn:G; [eauto|].
    apply dict_get_None in G. contradiction.
Qed.

(** With a ranking of the candidates, an id on every node and a positive
    threshold, [deduplicate] raises nothing. *)
Lemma deduplicate_total (uuid_parses : string -> bool) (emb : Embeddings)
      (g : graph) (threshold : Q) :
  ranks_candidates emb ->
  ids_present g ->
  Qle_bool threshold 0 = false ->
  exists g' labels, deduplicate uuid_parses emb g threshold = Ok (g', labels).
Proof.
  intros RC Ids Pos. unfold deduplicate.
  assert (H : forall rest st,
             g_nodes (d_graph st) = g_nodes g ->
             (forall n, In n rest -> In n (Graph.scan g)) ->
             exists st', dedup_scan uuid_parses emb threshold st rest = Ok st').
  { induction rest as [|node rest IH]; intros st Hn Sub; simpl; [eauto|].
    assert (A : Graph.attribute (d_graph st) node "id" <> PyNone).
    { rewrite (attribute_ext (d_graph st) g) by (now rewrite Hn).
      apply Ids, Sub. now left. }
    destruct (valid_total uuid_parses _ A) as (auto & V).
    unfold dedup_step, node_label. rewrite V. cbn [bind].
    destruct (find_primary_total threshold (d_topics st)
                (if auto && truthy (Graph.attribute (d_graph st) node "topic")
                 then Graph.attribute (d_graph st) node "topic"
                 else Graph.attribute (d_graph st) node "id") emb RC Pos)
      as (best & primary & B & P).
    rewrite B. cbn [bind]. rewrite P. cbn [bind].
    destruct (negb (truthy primary)); cbn [bind]; apply IH;
      simpl; try rewrite copy_edges_nodes;
      solve [exact Hn | intros n X; apply Sub; now right]. }
  destruct (H (Graph.scan g) (dedup_init g) eq_refl (fun n X => X)) as (st & ->).
  cbn [bind]. eauto.
Qed.

(* ------------------------------------------------------------------ *)
(** ** parse: further properties *)

(** X1: [parse] raises nothing: [concepts[-1]] and [query[0]] always
    exist.  The query it returns is [None] or a string, never the list
    left by [split(prefix, 1)], and the context it returns is [None]. *)
Theorem parse_never_raises (question : string) :
  exists query concepts,
    parse question = Ok (query, concepts, None)
    /\ (query = None \/ exists s, query = Some (QStr s)).
Proof.
  destruct (parse_total question) as (query & concepts & E & NL).
  exists query, concepts. split; [exact E|].
  destruct query as [[s|l]|]; [right; eauto | now destruct (NL l) | now left].
Qed.

Lemma rstrip_idem (s : string) : PyStr.rstrip (PyStr.rstrip s) = PyStr.rstrip s.
Proof.
  induction s as [|c s IH]; [reflexivity|].
  cbn [PyStr.rstrip]. destruct (PyStr.rstrip s) as [|e r] eqn:R.
  - destruct (PyStr.isspace c) eqn:C; [reflexivity|].
    cbn [PyStr.rstrip]. now rewrite C.
  - change (PyStr.rstrip (String c (String e r)))
      with (match PyStr.rstrip (String e r) with
            | EmptyString =>
                if PyStr.isspace c then EmptyString else String c EmptyString
            | r' => String c r'
            end).
    now rewrite IH.
Qed.

(** A text without trailing whitespace ends with a text without
    trailing whitespace. *)
Lemma rstrip_fix_suffix (u v : string) :
  PyStr.rstrip (u ++ v) = (u ++ v)%string -> PyStr.rstrip v = v.
Proof.
  induction u as [|c u IH]; [easy|].
  cbn [append PyStr.rstrip].
  destruct (PyStr.rstrip (u ++ v)) as [|e r] eqn:R.
  - destruct (PyStr.isspace c); [discriminate|].
    intros [= E]. destruct u; [|discriminate]. simpl in E. now subst v.
  - intros [= E]. apply IH. now rewrite <- E.
Qed.

Lemma rstrip_empty_all_space (s : string) :
  PyStr.rstrip s = EmptyString -> all_space s = true.
Proof.
  unfold all_space. induction s as [|c s IH]; [reflexivity|].
  cbn [PyStr.rstrip all_chars].
  destruct (PyStr.rstrip s) as [|e r]; [|discriminate].
  destruct (PyStr.isspace c); [|discriminate]. intros _. now rewrite IH.
Qed.

Lemma strip_empty_all_space (s : string) :
  PyStr.strip s = EmptyString -> all_space s = true.
Proof.
  unfold PyStr.strip. intros H. apply rstrip_empty_all_space in H.
  destruct (lstrip_app s) as (w & E & W). rewrite E.
  unfold all_space in *. now rewrite all_chars_app, W, H.
Qed.

Lemma parse_query_truthy (question : string) (q : qval)
        (concepts : option (list string)) (context : option (list entry)) :
  parse question = Ok (Some q, concepts, context) ->
  exists s, q = QStr s /\ s <> EmptyString /\ qtruthy q = true.
Proof.
  intros P. destruct (is_graph_query question) eqn:G.
  2:{ rewrite (parse_not_graph_query _ G) in P. discriminate. }
  destruct (parse_graph_query _ G) as (seg & ir & _ & [[_ P'] | (a & b & F & P')]);
    rewrite P' in P; [discriminate|].
  injection P as <- _ _. exists (PyStr.strip b).
  assert (NE : PyStr.strip b <> EmptyString).
  { apply find_split_app in F.
    assert (Fix : PyStr.rstrip (PyStr.strip seg) = PyStr.strip seg)
      by apply rstrip_idem.
    rewrite F in Fix. apply rstrip_fix_suffix in Fix.
    assert (Fb : PyStr.rstrip b = b) by (now apply (rstrip_fix_suffix gq_prefix)).
    intros E. apply strip_empty_all_space, rstrip_all_space in E.
    rewrite Fb in E. subst b. vm_compute in Fix. discriminate. }
  split; [reflexivity|]. split; [exact NE|].
  simpl. apply String.eqb_neq in NE. now rewrite NE.
Qed.

(** X2: a free query returned by [parse] is never the empty string, so
    it is always true as a condition. *)
Theorem parse_query_not_empty (question : string) (q : qval)
        (concepts : option (list string)) (context : option (list entry)) :
  parse question = Ok (Some q, concepts, context) ->
  exists s, q = QStr s /\ s <> EmptyString /\ qtruthy q = true.
Proof. apply parse_query_truthy. Qed.

Lemma parse_query_not_empty_witness :
  exists s, QStr "tell me about linux" = QStr s
            /\ s <> EmptyString /\ qtruthy (QStr "tell me about linux") = true.
Proof.
  apply (parse_query_not_empty "gq: tell me about linux" _ (Some []) None).
  reflexivity.
Defined.

Lemma lower_char_idem (c : ascii) :
  PyStr.lower_char (PyStr.lower_char c) = PyStr.lower_char c.
Proof. destruct c as [[] [] [] [] [] [] [] []]; vm_compute; reflexivity. Qed.

Lemma lower_idem (s : string) : PyStr.lower (PyStr.lower s) = PyStr.lower s.
Proof.
  induction s as [|c s IH]; simpl; [reflexivity|].
  now rewrite lower_char_idem, IH.
Qed.

Lemma lstrip_lower (s : string) :
  PyStr.lstrip (PyStr.lower s) = PyStr.lower (PyStr.lstrip s).
Proof.
  induction s as [|c s IH]; simpl; [reflexivity|].
  rewrite isspace_lower_char. now destruct (PyStr.isspace c).
Qed.

Lemma rstrip_lower (s : string) :
  PyStr.rstrip (PyStr.lower s) = PyStr.lower (PyStr.rstrip s).
Proof.
  induction s as [|c s IH]; [reflexivity|].
  cbn [PyStr.lower PyStr.rstrip]. rewrite IH, isspace_lower_char.
  destruct (PyStr.rstrip s) as [|e r]; [|reflexivity].
  now destruct (PyStr.isspace c).
Qed.

Lemma strip_lower (s : string) :
  PyStr.strip (PyStr.lower s) = PyStr.lower (PyStr.strip s).
Proof. unfold PyStr.strip. now rewrite lstrip_lower, rstrip_lower. Qed.

Lemma lstrip_rstrip (s : string) :
  PyStr.lstrip (PyStr.rstrip s) = PyStr.rstrip (PyStr.lstrip s).
Proof.
  induction s as [|c s IH]; [reflexivity|].
  cbn [PyStr.rstrip PyStr.lstrip].
  destruct (PyStr.isspace c) eqn:C.
  - destruct (PyStr.rstrip s) as [|e r] eqn:R.
    + now rewrite <- IH.
    + cbn [PyStr.lstrip]. rewrite C. exact IH.
  - cbn [PyStr.rstrip]. destruct (PyStr.rstrip s) as [|e r];
      cbn [PyStr.lstrip]; now rewrite C.
Qed.

Lemma lstrip_idem (s : string) : PyStr.lstrip (PyStr.lstrip s) = PyStr.lstrip s.
Proof.
  induction s as [|c s IH]; simpl; [reflexivity|].
  destruct (PyStr.isspace c) eqn:C; [exact IH|]. simpl. now rewrite C.
Qed.

Lemma strip_idem (s : string) : PyStr.strip (PyStr.strip s) = PyStr.strip s.
Proof.
  unfold PyStr.strip.
  now rewrite (lstrip_rstrip (PyStr.lstrip s)), rstrip_idem, lstrip_idem.
Qed.

(** The text [parse] works on. *)
Lemma normal_idem (s : string) :
  PyStr.lower (PyStr.strip (PyStr.lower (PyStr.strip s)))
  = PyStr.lower (PyStr.strip s).
Proof. now rewrite strip_lower, strip_idem, lower_idem. Qed.

Lemma prefix_nil (s : string) : prefix EmptyString s = true.
Proof. now destruct s. Qed.

Lemma prefix_arrow (s : string) :
  prefix "->" s = true <-> exists r, s = String "-" (String ">" r).
Proof.
  split.
  - intros H. apply prefix_app in H. simpl in H. eauto.
  - intros (r & ->). simpl. apply prefix_nil.
Qed.

Lemma lower_char_dash (c : ascii) :
  PyStr.lower_char c = "-"%char <-> c = "-"%char.
Proof.
  destruct c as [[] [] [] [] [] [] [] []]; vm_compute; split; congruence.
Qed.

Lemma lower_char_gt (c : ascii) :
  PyStr.lower_char c = ">"%char <-> c = ">"%char.
Proof.
  destruct c as [[] [] [] [] [] [] [] []]; vm_compute; split; congruence.
Qed.

Lemma prefix_arrow_lower (s : string) :
  prefix "->" (PyStr.lower s) = prefix "->" s.
Proof.
  apply eq_true_iff_eq. rewrite !prefix_arrow. split.
  - intros (r & E). destruct s as [|c [|d s]]; simpl in E; try discriminate.
    injection E as Ec Ed _.
    apply (proj1 (lower_char_dash c)) in Ec.
    apply (proj1 (lower_char_gt d)) in Ed. subst. eauto.
  - intros (r & ->). simpl. eauto.
Qed.

Lemma contains_arrow_lower (s : string) :
  PyStr.contains "->" (PyStr.lower s) = PyStr.contains "->" s.
Proof.
  induction s as [|c s IH]; [reflexivity|].
  cbn [PyStr.lower PyStr.contains].
  change (String (PyStr.lower_char c) (PyStr.lower s))
    with (PyStr.lower (String c s)).
  now rewrite prefix_arrow_lower, IH.
Qed.

Lemma prefix_arrow_space (c : ascii) (s : string) :
  PyStr.isspace c = true -> prefix "->" (String c s) = false.
Proof.
  intros C. destruct (prefix "->" (String c s)) eqn:E; [|reflexivity].
  apply prefix_arrow in E as (r & [= -> _]). discriminate.
Qed.

Lemma contains_arrow_space (w : string) :
  all_space w = true -> PyStr.contains "->" w = false.
Proof.
  unfold all_space. induction w as [|c w IH]; [reflexivity|].
  cbn [all_chars PyStr.contains]. intros H. apply andb_prop in H as [C W].
  now rewrite (prefix_arrow_space c w C), IH.
Qed.

Lemma contains_arrow_lstrip (s : string) :
  PyStr.contains "->" (PyStr.lstrip s) = PyStr.contains "->" s.
Proof.
  induction s as [|c s IH]; [reflexivity|].
  cbn [PyStr.lstrip]. destruct (PyStr.isspace c) eqn:C; [|reflexivity].
  cbn [PyStr.contains]. now rewrite (prefix_arrow_space c s C).
Qed.

Lemma prefix_arrow_two (c e : ascii) (x y : string) :
  prefix "->" (String c (String e x)) = prefix "->" (String c (String e y)).
Proof.
  apply eq_true_iff_eq. rewrite !prefix_arrow.
  split; intros (r & [= -> -> _]); eauto.
Qed.

Lemma contains_arrow_rstrip (s : string) :
  PyStr.contains "->" (PyStr.rstrip s) = PyStr.contains "->" s.
Proof.
  induction s as [|c s IH]; [reflexivity|].
  destruct (rstrip_app s) as (w & E & W).
  cbn [PyStr.rstrip]. destruct (PyStr.rstrip s) as [|e r] eqn:R.
  - simpl in E. subst w.
    assert (P : prefix "->" (String c s) = false).
    { destruct (prefix "->" (String c s)) eqn:X; [|reflexivity].
      apply prefix_arrow in X as (r & [= -> ->]).
      unfold all_space in W. simpl in W. discriminate. }
    cbn [PyStr.contains]. rewrite P, (contains_arrow_space s W).
    destruct (PyStr.isspace c); [reflexivity|].
    cbn [PyStr.contains].
    destruct (prefix "->" (String c EmptyString)) eqn:X; [|reflexivity].
    now apply prefix_arrow in X as (r & [=]).
  - cbn [PyStr.contains]. fold (PyStr.contains "->" (String e r)).
    rewrite <- IH.
    replace (prefix "->" (String c s)) with (prefix "->" (String c (String e r)));
      [reflexivity|].
    rewrite E. cbn [append]. apply prefix_arrow_two.
Qed.

Lemma contains_arrow_normal (s : string) :
  PyStr.contains "->" (PyStr.lower (PyStr.strip s)) = PyStr.contains "->" s.
Proof.
  unfold PyStr.strip.
  now rewrite contains_arrow_lower, contains_arrow_rstrip, contains_arrow_lstrip.
Qed.

(** X3: [parse] reads the question up to case and surrounding
    whitespace: the question and its stripped, lower-cased form parse to
    the same result. *)
Theorem parse_normal_form (question : string) :
  parse (PyStr.lower (PyStr.strip question)) = parse question.
Proof.
  unfold parse. now rewrite normal_idem, contains_arrow_normal.
Qed.

Lemma split_go_no_sep (sep s : string) :
  forall piece,
    PyStr.contains sep s = false ->
    PyStr.split_go sep 0 piece s = [piece s].
Proof.
  induction s as [|c s IH]; intros piece H; [reflexivity|].
  cbn [PyStr.contains] in H. cbn [PyStr.split_go].
  destruct (prefix sep (String c s)); [discriminate|].
  now rewrite IH.
Qed.

Lemma split_go_two (sep s : string) :
  forall piece,
    sep <> EmptyString ->
    PyStr.contains sep s = true ->
    2 <= List.length (PyStr.split_go sep 0 piece s).
Proof.
  induction s as [|c s IH]; intros piece NE H.
  - cbn [PyStr.contains] in H. destruct sep; [congruence | discriminate].
  - cbn [PyStr.contains] in H. cbn [PyStr.split_go].
    destruct (prefix sep (String c s)).
    + cbn [List.length].
      pose proof (split_go_nonempty sep s (String.length sep - 1) (fun r => r)).
      destruct (PyStr.split_go sep (String.length sep - 1) (fun r => r) s);
        [congruence | simpl; lia].
    + now apply IH.
Qed.

(** X4: a question that contains [->] parses to a concept list with at
    least one element (a concept can be the empty string), so the call
    takes the graph path whenever a graph store is present. *)
Theorem parse_arrow_has_concepts (question : string) :
  PyStr.contains "->" question = true ->
  exists query concepts,
    parse question = Ok (query, Some concepts, None)
    /\ concepts <> []
    /\ concepts_truthy (Some concepts) = true.
Proof.
  intros A.
  assert (G : is_graph_query question = true)
    by (unfold is_graph_query; now rewrite A).
  destruct (parse_graph_query _ G) as (seg & ir & R & Cases).
  assert (Len : 2 <= List.length (seg :: ir)).
  { rewrite <- R, length_rev. apply split_go_two; [discriminate|].
    now rewrite contains_arrow_normal. }
  destruct ir as [|x ir]; [simpl in Len; lia|].
  assert (NE : map PyStr.strip (rev (x :: ir)) <> []).
  { intros E. apply (f_equal (@List.length _)) in E.
    rewrite length_map, length_rev in E. discriminate. }
  destruct Cases as [[_ ->] | (a & b & _ & ->)]; do 2 eexists.
  - split; [reflexivity|].
    assert (N2 : map PyStr.strip (rev (seg :: x :: ir)) <> []).
    { intros E. apply (f_equal (@List.length _)) in E.
      rewrite length_map, length_rev in E. discriminate. }
    split; [exact N2|].
    destruct (map PyStr.strip (rev (seg :: x :: ir))); [congruence | reflexivity].
  - split; [reflexivity|].
    assert (N2 : (if negb (PyStr.strip a =? EmptyString)%string
                  then map PyStr.strip (rev (x :: ir)) ++ [PyStr.strip a]
                  else map PyStr.strip (rev (x :: ir))) <> []).
    { destruct (negb (PyStr.strip a =? EmptyString)%string); [|exact NE].
      intros E. apply app_eq_nil in E as [E _]. contradiction. }
    split; [exact N2|].
    destruct (if negb (PyStr.strip a =? EmptyString)%string
              then map PyStr.strip (rev (x :: ir)) ++ [PyStr.strip a]
              else map PyStr.strip (rev (x :: ir))); [congruence | reflexivity].
Qed.

Lemma parse_arrow_has_concepts_witness :
  exists query concepts,
    parse "->" = Ok (query, Some concepts, None)
    /\ concepts <> []
    /\ concepts_truthy (Some concepts) = true.
Proof. apply parse_arrow_has_concepts. reflexivity. Defined.

Lemma parse_marker_shape (question : string) :
  PyStr.contains "->" question = false ->
  PyStr.startswith (PyStr.lower (PyStr.strip question)) gq_prefix = true ->
  parse question
  = Ok (Some (QStr (PyStr.strip
                      (PyStr.drop 4 (PyStr.lower (PyStr.strip question))))),
        Some [], None).
Proof.
  intros A S. unfold parse. rewrite A, S. cbn [orb].
  unfold PyStr.split. rewrite split_go_no_sep
    by (now rewrite contains_arrow_normal).
  cbn [map rev app].
  assert (St : PyStr.strip (PyStr.lower (PyStr.strip question))
               = PyStr.lower (PyStr.strip question))
    by (now rewrite strip_lower, strip_idem).
  rewrite St. unfold PyStr.startswith in S.
  assert (C : PyStr.contains gq_prefix (PyStr.lower (PyStr.strip question)) = true).
  { destruct (PyStr.lower (PyStr.strip question));
      cbn [PyStr.contains]; now rewrite S. }
  rewrite C. unfold PyStr.split1.
  assert (F : PyStr.find_split gq_prefix (PyStr.lower (PyStr.strip question))
              = Some (EmptyString,
                      PyStr.drop 4 (PyStr.lower (PyStr.strip question)))).
  { destruct (PyStr.lower (PyStr.strip question));
      cbn [PyStr.find_split]; now rewrite S. }
  rewrite F. reflexivity.
Qed.

(** X5: a question without [->] that starts, after trimming and without
    regard to case, with the marker [gq: ] parses to an empty concept
    list and to the free query that follows the marker, stripped and
    lower-cased. *)
Theorem parse_marker_only (question : string) :
  PyStr.contains "->" question = false ->
  PyStr.startswith (PyStr.lower (PyStr.strip question)) gq_prefix = true ->
  parse question
  = Ok (Some (QStr (PyStr.strip
                      (PyStr.drop 4 (PyStr.lower (PyStr.strip question))))),
        Some [], None).
Proof. apply parse_marker_shape. Qed.

Lemma parse_marker_only_witness :
  parse "  GQ: Tell me about Linux "
  = Ok (Some (QStr (PyStr.strip
                      (PyStr.drop 4
                         (PyStr.lower (PyStr.strip "  GQ: Tell me about Linux "))))),
        Some [], None).
Proof. apply parse_marker_only; reflexivity. Defined.

(* ------------------------------------------------------------------ *)
(** ** path: errors and the free-query branch *)

Lemma resolve_cases (emb : Embeddings) (concepts : list string) :
  (exists uids, resolve emb concepts = Ok uids)
  \/ (resolve emb concepts = Raise IndexError
      /\ exists c, In c concepts /\ emb_search emb (Some (QStr c)) 1 = []).
Proof.
  induction concepts as [|c cs IH]; simpl; [left; eauto|].
  destruct (emb_search emb (Some (QStr c)) 1) as [|h t] eqn:E.
  - right. split; [reflexivity|]. exists c. auto.
  - destruct IH as [(uids & ->) | (-> & c' & In' & E')]; cbn [bind].
    + left. eauto.
    + right. split; [reflexivity|]. exists c'. auto.
Qed.

Lemma resolve_ok_hits (emb : Embeddings) (concepts : list string)
      (uids : list pyval) :
  resolve emb concepts = Ok uids ->
  forall c, In c concepts -> emb_search emb (Some (QStr c)) 1 <> [].
Proof.
  revert uids. induction concepts as [|c cs IH]; intros uids R c' Hc; [easy|].
  simpl in R. destruct (emb_search emb (Some (QStr c)) 1) as [|h t] eqn:E;
    [discriminate|].
  destruct (resolve emb cs) as [us|] eqn:R'; [|discriminate].
  destruct Hc as [<-|Hc]; [now rewrite E | now apply (IH us)].
Qed.

(** X6: on a non-empty concept list [path] raises [IndexError] exactly
    when the search of some concept returns no hit, and it raises
    nothing else. *)
Theorem path_concepts_error (emb : Embeddings) (limit : Z)
        (question : option qval) (c : string) (cs : list string) :
  (path emb limit question (Some (c :: cs)) = Raise IndexError
   <-> exists c', In c' (c :: cs) /\ emb_search emb (Some (QStr c')) 1 = [])
  /\ (forall e, path emb limit question (Some (c :: cs)) = Raise e ->
                e = IndexError).
Proof.
  unfold path.
  destruct (resolve_cases emb (c :: cs)) as [(uids & R) | (R & Miss)];
    rewrite R; cbn [bind].
  - split; [|discriminate]. split; [discriminate|].
    intros (c' & Hc & E). now apply (resolve_ok_hits _ _ _ R) in Hc.
  - split; [tauto|]. now intros e [= <-].
Qed.

(** X7: with a graph store, a free query without [->] whose search
    returns no hit is not stopped before the traversal: the store is
    asked for the query text without any anchor.  When that traversal
    has no node the call falls back, the question and the Streamlit side
    unchanged. *)
Theorem call_free_query_no_hit
        (uuid_parses : string -> bool)
        (format_concepts : option (list string) -> string)
        (emb : Embeddings) (store : GraphStore) (limit : Z)
        (question : string) (u : ui) :
  emb_graph emb = Some store ->
  PyStr.contains "->" question = false ->
  PyStr.startswith (PyStr.lower (PyStr.strip question)) gq_prefix = true ->
  emb_search emb
    (Some (QStr (PyStr.strip (PyStr.drop 4 (PyStr.lower (PyStr.strip question))))))
    3 = [] ->
  Graph.count (gs_search store ("MATCH P= RETURN P LIMIT " ++ str_of_Z limit)%string)
  = 0 ->
  call uuid_parses format_concepts emb limit question u
  = Ok {| o_question := QStr question; o_context := None; o_ui := u;
          o_graph :=
            Some (gs_search store
                    ("MATCH P= RETURN P LIMIT " ++ str_of_Z limit)%string) |}.
Proof.
  intros G A S Miss Cnt.
  pose proof (parse_marker_shape question A S) as P.
  destruct (parse_query_truthy _ _ _ _ P) as (s & _ & _ & T).
  assert (Pq : path emb limit
                 (Some (QStr (PyStr.strip
                                (PyStr.drop 4 (PyStr.lower (PyStr.strip question))))))
                 (Some [])
               = Ok ("MATCH P= RETURN P LIMIT " ++ str_of_Z limit)%string).
  { unfold path, match_query. rewrite Miss. reflexivity. }
  unfold call. rewrite P. cbn [bind fst snd]. rewrite G.
  cbn [opt_truthy]. rewrite T. cbn [orb].
  rewrite Pq. cbn [bind]. now rewrite Cnt.
Qed.

Lemma call_free_query_no_hit_witness :
  call Sample.uuid_parses Sample.format_concepts Sample.emb_miss 10
       "gq: who created linux" Sample.ui0
  = Ok {| o_question := QStr "gq: who created linux"; o_context := None;
          o_ui := Sample.ui0;
          o_graph :=
            Some (gs_search Sample.empty_store
                    ("MATCH P= RETURN P LIMIT " ++ str_of_Z 10)%string) |}.
Proof.
  apply (call_free_query_no_hit Sample.uuid_parses Sample.format_concepts
           Sample.emb_miss Sample.empty_store 10 "gq: who created linux");
    reflexivity.
Defined.

(* ------------------------------------------------------------------ *)
(** ** deduplicate: what the result keeps *)

(** The result of [deduplicate] in terms of the final state of the scan. *)
Lemma deduplicate_result (uuid_parses : string -> bool) (emb : Embeddings)
      (g : graph) (threshold : Q) (g' : graph) (labels : pydict) :
  deduplicate uuid_parses emb g threshold = Ok (g', labels) ->
  exists st,
    dedup_scan uuid_parses emb threshold (dedup_init g) (Graph.scan g) = Ok st
    /\ g' = Graph.delete (d_graph st) (d_deletes st)
    /\ labels = d_labels st
    /\ g_nodes (d_graph st) = g_nodes g
    /\ Graph.scan g'
       = filter (fun n => negb (mem pyval_eqb n (d_deletes st))) (Graph.scan g).
Proof.
  unfold deduplicate. intros D.
  destruct (dedup_scan uuid_parses emb threshold (dedup_init g) (Graph.scan g))
    as [st|] eqn:S; [|discriminate].
  cbn [bind] in D. injection D as <- <-. exists st.
  pose proof (dedup_scan_nodes _ _ _ _ _ _ S) as Hn. simpl in Hn.
  repeat split; try assumption.
  rewrite scan_delete. unfold Graph.scan. now rewrite Hn.
Qed.

(** The first step of a scan: no topic is registered yet. *)
Lemma dedup_first_step (uuid_parses : string -> bool) (emb : Embeddings)
      (g : graph) (threshold : Q) (node : pyval) (st : dstate) :
  dedup_step uuid_parses emb threshold (dedup_init g) node = Ok st ->
  Qle_bool threshold 0 = false
  /\ exists label, node_label uuid_parses g node = Ok label
                   /\ st = register (dedup_init g) node label.
Proof.
  intros H. destruct (dedup_step_cases _ _ _ _ _ _ H)
    as (label & best & primary & L & B & P & E).
  simpl in L, B, P. injection B as <-. unfold find_primary in P.
  simpl in P. destruct (Qle_bool threshold 0); [discriminate|].
  injection P as <-. split; [reflexivity|]. exists label. now split.
Qed.

Lemma deduplicate_first (uuid_parses : string -> bool) (emb : Embeddings)
      (g : graph) (threshold : Q) (g' : graph) (labels : pydict)
      (node : pyval) (rest : list pyval) :
  Graph.scan g = node :: rest ->
  NoDup (Graph.scan g) ->
  deduplicate uuid_parses emb g threshold = Ok (g', labels) ->
  exists rest', Graph.scan g' = node :: rest'.
Proof.
  intros Sc ND D.
  destruct (deduplicate_result _ _ _ _ _ _ D) as (st & S & _ & _ & _ & F).
  rewrite Sc in S, F, ND. simpl in S.
  destruct (dedup_step uuid_parses emb threshold (dedup_init g) node)
    as [st1|] eqn:S1; [|discriminate].
  cbn [bind] in S.
  destruct (dedup_first_step _ _ _ _ _ _ S1) as (_ & label & _ & ->).
  assert (N : ~ In node (d_deletes st)).
  { intros X. apply (dedup_scan_deletes _ _ _ _ _ _ node S) in X.
    simpl in X. inversion ND; subst. tauto. }
  apply mem_not_In in N. simpl in F. rewrite N in F. simpl in F. eauto.
Qed.

Lemma deduplicate_attribute (uuid_parses : string -> bool) (emb : Embeddings)
      (g : graph) (threshold : Q) (g' : graph) (labels : pydict)
      (node : pyval) (field : string) :
  deduplicate uuid_parses emb g threshold = Ok (g', labels) ->
  In node (Graph.scan g') ->
  Graph.attribute g' node field = Graph.attribute g node field.
Proof.
  intros D Hn.
  destruct (deduplicate_result _ _ _ _ _ _ D) as (st & _ & -> & _ & Nodes & F).
  rewrite F in Hn. apply filter_In in Hn as [_ Hn].
  apply negb_true_iff, mem_not_In in Hn.
  apply attribute_ext. simpl. rewrite dict_get_kept by exact Hn.
  now rewrite Nodes.
Qed.

(** X8: when the traversal fetched for a graph query has at least one
    node (with unique handles) and its deduplication succeeds, the call
    writes the picture of the deduplicated graph once and appends it once
    to the chat history as an assistant message.  The context it returns
    is never empty: it lists, for every surviving node in scan order,
    the id and the text that the node had in the fetched graph.  The
    question returned is the parsed free query when there is one, and
    the default prompt otherwise. *)
Theorem call_graph_context
        (uuid_parses : string -> bool)
        (format_concepts : option (list string) -> string)
        (emb : Embeddings) (store : GraphStore) (limit : Z)
        (question : string) (u : ui)
        (query : option qval) (concepts : option (list string))
        (context : option (list entry))
        (pq : string) (g' : graph) (labels : pydict) :
  emb_graph emb = Some store ->
  parse question = Ok (query, concepts, context) ->
  opt_truthy query || concepts_truthy concepts = true ->
  path emb limit query concepts = Ok pq ->
  Graph.count (gs_search store pq) <> 0 ->
  NoDup (Graph.scan (gs_search store pq)) ->
  deduplicate uuid_parses emb (gs_search store pq) (9 # 10) = Ok (g', labels) ->
  call uuid_parses format_concepts emb limit question u
  = Ok {| o_question :=
            match query with
            | Some q => q
            | None => QStr (default_prompt format_concepts concepts)
            end;
          o_context :=
            Some (map (fun node =>
                         {| e_id := Graph.attribute (gs_search store pq) node "id";
                            e_text := Graph.attribute (gs_search store pq) node "text" |})
                      (Graph.scan g'));
          o_ui := {| written := written u ++ [Drawing g' labels];
                     messages := messages u ++ [("assistant", Drawing g' labels)] |};
          o_graph := Some g' |}
  /\ Graph.scan g' <> [].
Proof.
  intros G P T Pq Cnt ND D.
  assert (NE : Graph.scan g' <> []).
  { destruct (Graph.scan (gs_search store pq)) as [|n rest] eqn:Sc.
    - exfalso. apply Cnt. unfold Graph.count, Graph.scan in *.
      now rewrite <- (length_map fst), Sc.
    - rewrite <- Sc in ND.
      destruct (deduplicate_first _ _ _ _ _ _ _ _ Sc ND D) as (r & ->).
      discriminate. }
  split; [|exact NE].
  unfold call. rewrite P. cbn [bind fst snd]. rewrite G, T, Pq. cbn [bind].
  apply Nat.eqb_neq in Cnt. rewrite Cnt. cbn [negb].
  unfold plot. rewrite D. cbn [bind fst snd].
  assert (Ctx : build_context g'
                = map (fun node =>
                         {| e_id := Graph.attribute (gs_search store pq) node "id";
                            e_text := Graph.attribute (gs_search store pq) node "text" |})
                      (Graph.scan g')).
  { unfold build_context. apply map_ext_in. intros n Hn.
    now rewrite !(deduplicate_attribute _ _ _ _ _ _ n _ D Hn). }
  rewrite <- Ctx.
  destruct (build_context g') as [|e es] eqn:B.
  { unfold build_context in B. apply map_eq_nil in B. contradiction. }
  f_equal. f_equal.
  destruct query as [q|]; [|reflexivity].
  destruct (parse_query_truthy _ _ _ _ P) as (s & _ & _ & Tq). now rewrite Tq.
Qed.

Lemma call_graph_context_witness :
  call Sample.uuid_parses Sample.format_concepts Sample.emb_flat 10
       "linux -> unix" Sample.ui0
  = Ok {| o_question :=
            QStr (default_prompt Sample.format_concepts (Some ["linux"; "unix"]));
          o_context :=
            Some (map (fun node =>
                         {| e_id := Graph.attribute Sample.linux_graph node "id";
                            e_text := Graph.attribute Sample.linux_graph node "text" |})
                      (Graph.scan Sample.linux_graph));
          o_ui := {| written := written Sample.ui0
                                ++ [Drawing Sample.linux_graph
                                      [(PyInt 1, PyStr "Linux");
                                       (PyInt 2, PyStr "Linux OS");
                                       (PyInt 3, PyStr "Unix")]];
                     messages := messages Sample.ui0
                                 ++ [("assistant",
                                      Drawing Sample.linux_graph
                                        [(PyInt 1, PyStr "Linux");
                                         (PyInt 2, PyStr "Linux OS");
                                         (PyInt 3, PyStr "Unix")])] |};
          o_graph := Some Sample.linux_graph |}
  /\ Graph.scan Sample.linux_graph <> [].
Proof.
  apply (call_graph_context Sample.uuid_parses Sample.format_concepts
           Sample.emb_flat Sample.linux_store 10 "linux -> unix" Sample.ui0
           None (Some ["linux"; "unix"]) None
           (match_query 10 [PyStr "doc"; PyStr "doc"])).
  - reflexivity.
  - reflexivity.
  - reflexivity.
  - reflexivity.
  - discriminate.
  - repeat constructor; simpl; intuition discriminate.
  - vm_compute. reflexivity.
Defined.

(** X9: [deduplicate] raises nothing when the threshold is positive,
    every scanned node has an id attribute, and the similarity ranking
    of a non-empty candidate list starts with the index of one of the
    candidates. *)
Theorem deduplicate_returns (uuid_parses : string -> bool) (emb : Embeddings)
        (g : graph) (threshold : Q) :
  ranks_candidates emb ->
  ids_present g ->
  Qle_bool threshold 0 = false ->
  exists g' labels, deduplicate uuid_parses emb g threshold = Ok (g', labels).
Proof. apply deduplicate_total. Qed.

Lemma deduplicate_returns_witness :
  exists g' labels,
    deduplicate Sample.uuid_parses Sample.emb_flat Sample.linux_graph (9 # 10)
    = Ok (g', labels).
Proof.
  apply deduplicate_returns.
  - intros label names NE. exists 0, 0%Q, []. split; [reflexivity|].
    destruct names; [congruence | simpl; lia].
  - intros n Hn. simpl in Hn.
    destruct Hn as [<-|[<-|[<-|[]]]]; vm_compute; discriminate.
  - reflexivity.
Defined.

(** X10: with a threshold that is not positive, [deduplicate] raises
    [IndexError] on every graph with a first node that has an id: the
    default score 0.0 reaches the threshold while no topic is registered,
    and [topicnames[0]] is looked up in the empty list. *)
Theorem deduplicate_threshold_not_positive
        (uuid_parses : string -> bool) (emb : Embeddings)
        (g : graph) (threshold : Q) (node : pyval) (rest : list pyval) :
  Graph.scan g = node :: rest ->
  Graph.attribute g node "id" <> PyNone ->
  Qle_bool threshold 0 = true ->
  deduplicate uuid_parses emb g threshold = Raise IndexError.
Proof.
  intros Sc Id T. unfold deduplicate. rewrite Sc. cbn [dedup_scan].
  unfold dedup_step, node_label. cbn [dedup_init d_graph d_topics].
  destruct (valid_total uuid_parses _ Id) as (auto & ->). cbn [bind].
  unfold find_primary. cbn [dict_keys map best_match bind fst snd].
  rewrite T. reflexivity.
Qed.

Lemma deduplicate_threshold_not_positive_witness :
  deduplicate Sample.uuid_parses Sample.emb_linux Sample.linux_graph 0
  = Raise IndexError.
Proof.
  apply (deduplicate_threshold_not_positive Sample.uuid_parses Sample.emb_linux
           Sample.linux_graph 0 (PyInt 1) [PyInt 2; PyInt 3]).
  - reflexivity.
  - vm_compute. discriminate.
  - reflexivity.
Defined.

(** X11: a graph with no node or with a single node comes back from
    [deduplicate] as it was, edges included, with a label for the node
    if there is one. *)
Theorem deduplicate_small_graph (uuid_parses : string -> bool) (emb : Embeddings)
        (g : graph) (threshold : Q) (g' : graph) (labels : pydict) :
  List.length (Graph.scan g) <= 1 ->
  deduplicate uuid_parses emb g threshold = Ok (g', labels) ->
  g' = g /\ dict_keys labels = Graph.scan g.
Proof.
  intros Len D.
  destruct (deduplicate_result _ _ _ _ _ _ D) as (st & S & -> & -> & _ & _).
  destruct (Graph.scan g) as [|n [|m rest]] eqn:Sc; simpl in Len; [| |lia].
  - simpl in S. injection S as <-. simpl. split; [apply delete_nil | reflexivity].
  - simpl in S.
    destruct (dedup_step uuid_parses emb threshold (dedup_init g) n)
      as [st1|] eqn:S1; [|discriminate].
    cbn [bind] in S. injection S as <-.
    destruct (dedup_first_step _ _ _ _ _ _ S1) as (_ & label & _ & ->).
    simpl. split; [apply delete_nil | reflexivity].
Qed.

Lemma deduplicate_small_graph_witness :
  Sample.single_graph = Sample.single_graph
  /\ dict_keys [(PyInt 5, PyStr "Linux")] = Graph.scan Sample.single_graph.
Proof.
  apply (deduplicate_small_graph Sample.uuid_parses Sample.emb_linux
           Sample.single_graph (9 # 10)).
  - simpl. lia.
  - vm_compute. reflexivity.
Defined.

Lemma dedup_scan_labels (uuid_parses : string -> bool) (emb : Embeddings)
      (threshold : Q) (g : graph) (rest : list pyval) :
  forall st st',
    dedup_scan uuid_parses emb threshold st rest = Ok st' ->
    g_nodes (d_graph st) = g_nodes g ->
    forall n, In n rest -> exists label, node_label uuid_parses g n = Ok label.
Proof.
  induction rest as [|node rest IH]; intros st st' S Hn n Hin; [easy|].
  simpl in S.
  destruct (dedup_step uuid_parses emb threshold st node) as [st1|] eqn:S1;
    [|discriminate].
  cbn [bind] in S. destruct Hin as [<-|Hin].
  - destruct (dedup_step_cases _ _ _ _ _ _ S1) as (label & _ & _ & L & _).
    exists label. rewrite <- L. apply node_label_ext. now rewrite Hn.
  - apply (IH st1 st' S); [|exact Hin].
    rewrite <- Hn. now apply dedup_step_nodes in S1.
Qed.

(** X12: a scanned node without an id attribute makes [deduplicate]
    raise ([None] is no UUID and has no [isdigit]): no graph and no label
    map come back. *)
Theorem deduplicate_missing_id (uuid_parses : string -> bool) (emb : Embeddings)
        (g : graph) (threshold : Q) (node : pyval) :
  In node (Graph.scan g) ->
  Graph.attribute g node "id" = PyNone ->
  uuid_parses "None" = false ->
  exists e, deduplicate uuid_parses emb g threshold = Raise e.
Proof.
  intros Hin Id U.
  destruct (deduplicate uuid_parses emb g threshold) as [[g' labels]|e] eqn:D;
    [|eauto].
  exfalso.
  destruct (deduplicate_result _ _ _ _ _ _ D) as (st & S & _).
  destruct (dedup_scan_labels _ _ _ g _ _ _ S eq_refl node Hin) as (label & L).
  unfold node_label, valid in L. rewrite Id in L. simpl in L.
  rewrite U in L. discriminate.
Qed.

Lemma deduplicate_missing_id_witness :
  exists e,
    deduplicate Sample.uuid_parses Sample.emb_linux Sample.anonymous_graph (9 # 10)
    = Raise e.
Proof.
  apply (deduplicate_missing_id Sample.uuid_parses Sample.emb_linux
           Sample.anonymous_graph (9 # 10) (PyInt 7)).
  - simpl. now left.
  - reflexivity.
  - reflexivity.
Defined.

(** X13: the first scanned node is never merged away: it is the first
    node of the graph that [deduplicate] returns. *)
Theorem deduplicate_keeps_first (uuid_parses : string -> bool) (emb : Embeddings)
        (g : graph) (threshold : Q) (g' : graph) (labels : pydict)
        (node : pyval) (rest : list pyval) :
  Graph.scan g = node :: rest ->
  NoDup (Graph.scan g) ->
  deduplicate uuid_parses emb g threshold = Ok (g', labels) ->
  exists rest', Graph.scan g' = node :: rest'.
Proof. apply deduplicate_first. Qed.

Lemma deduplicate_keeps_first_witness :
  exists rest',
    Graph.scan
      (Graph.delete
         (copy_edges Sample.linux_graph (PyInt 1)
            (Graph.edges Sample.linux_graph (PyInt 2))) [PyInt 2])
    = PyInt 1 :: rest'.
Proof.
  apply (deduplicate_keeps_first Sample.uuid_parses Sample.emb_linux
           Sample.linux_graph (9 # 10) _
           [(PyInt 1, PyStr "Linux"); (PyInt 3, PyStr "Unix")]
           (PyInt 1) [PyInt 2; PyInt 3]).
  - reflexivity.
  - repeat constructor; simpl; intuition discriminate.
  - vm_compute. reflexivity.
Defined.

(** X14: [deduplicate] changes no attribute of a node it keeps, keeps
    the surviving nodes in scan order, and adds no node. *)
Theorem deduplicate_keeps_attributes
        (uuid_parses : string -> bool) (emb : Embeddings)
        (g : graph) (threshold : Q) (g' : graph) (labels : pydict) :
  deduplicate uuid_parses emb g threshold = Ok (g', labels) ->
  (forall node field,
      In node (Graph.scan g') ->
      Graph.attribute g' node field = Graph.attribute g node field)
  /\ (exists deletes,
         Graph.scan g'
         = filter (fun n => negb (mem pyval_eqb n deletes)) (Graph.scan g))
  /\ Graph.count g' <= Graph.count g.
Proof.
  intros D. split; [|split].
  - intros node field Hn. now apply (deduplicate_attribute _ _ _ _ _ _ _ _ D).
  - destruct (deduplicate_result _ _ _ _ _ _ D) as (st & _ & _ & _ & _ & F).
    eauto.
  - destruct (deduplicate_result _ _ _ _ _ _ D) as (st & _ & _ & _ & _ & F).
    unfold Graph.count. rewrite <- !(length_map fst).
    fold (Graph.scan g') (Graph.scan g). rewrite F. apply filter_length_le.
Qed.

Lemma deduplicate_keeps_attributes_witness :
  (forall node field,
      In node (Graph.scan
                 (Graph.delete
                    (copy_edges Sample.linux_graph (PyInt 1)
                       (Graph.edges Sample.linux_graph (PyInt 2))) [PyInt 2])) ->
      Graph.attribute
        (Graph.delete
           (copy_edges Sample.linux_graph (PyInt 1)
              (Graph.edges Sample.linux_graph (PyInt 2))) [PyInt 2]) node field
      = Graph.attribute Sample.linux_graph node field)
  /\ (exists deletes,
         Graph.scan
           (Graph.delete
              (copy_edges Sample.linux_graph (PyInt 1)
                 (Graph.edges Sample.linux_graph (PyInt 2))) [PyInt 2])
         = filter (fun n => negb (mem pyval_eqb n deletes))
                  (Graph.scan Sample.linux_graph))
  /\ Graph.count
       (Graph.delete
          (copy_edges Sample.linux_graph (PyInt 1)
             (Graph.edges Sample.linux_graph (PyInt 2))) [PyInt 2])
     <= Graph.count Sample.linux_graph.
Proof.
  apply (deduplicate_keeps_attributes Sample.uuid_parses Sample.emb_linux
           Sample.linux_graph (9 # 10) _
           [(PyInt 1, PyStr "Linux"); (PyInt 3, PyStr "Unix")]).
  vm_compute. reflexivity.
Defined.

Lemma addedge_keeps_edge (g : graph) (s t p t' : pyval) (a a' : attrs) :
  Graph.has_edge g s t a ->
  exists b, Graph.has_edge (Graph.addedge g p t' a') s t b.
Proof.
  unfold Graph.has_edge. intros H.
  destruct (pyval_eqb s p) eqn:Es.
  - apply pyval_eqb_eq in Es. subst s. rewrite edges_addedge_same.
    destruct (pyval_eqb t t') eqn:Et.
    + apply pyval_eqb_eq in Et. subst t'. exists a'. apply dict_get_set_same.
    + apply pyval_eqb_neq in Et. exists a. now rewrite dict_get_set_other.
  - apply pyval_eqb_neq in Es. exists a.
    unfold Graph.edges at 1. simpl. now rewrite dict_get_set_other.
Qed.

Lemma copy_edges_keeps_edge (p s t : pyval) (es : adjacency) :
  forall g,
    (exists a, Graph.has_edge g s t a) ->
    exists b, Graph.has_edge (copy_edges g p es) s t b.
Proof.
  unfold copy_edges. induction es as [|[t' a'] es IH]; intros g H; [exact H|].
  simpl. apply IH. destruct (pyval_eqb p t'); simpl; [exact H|].
  destruct H as (a & H). now apply addedge_keeps_edge with (a := a).
Qed.

Lemma dedup_scan_keeps_edge (uuid_parses : string -> bool) (emb : Embeddings)
      (threshold : Q) (s t : pyval) (rest : list pyval) :
  forall st st',
    dedup_scan uuid_parses emb threshold st rest = Ok st' ->
    (exists a, Graph.has_edge (d_graph st) s t a) ->
    exists b, Graph.has_edge (d_graph st') s t b.
Proof.
  induction rest as [|node rest IH]; intros st st' S H; simpl in S.
  - now injection S as <-.
  - destruct (dedup_step uuid_parses emb threshold st node) as [st1|] eqn:S1;
      [|discriminate].
    cbn [bind] in S. apply (IH st1 st' S).
    destruct (dedup_step_cases _ _ _ _ _ _ S1) as (l & b & p & _ & _ & _ & ->).
    destruct (negb (truthy p)); simpl; [exact H|].
    now apply copy_edges_keeps_edge.
Qed.

(** X15: [deduplicate] loses no edge between two nodes it keeps: an edge
    of the input graph whose source and target both survive is an edge
    of the result (its attributes are replaced when a duplicate of the
    source had an edge to the same target). *)
Theorem deduplicate_keeps_edges (uuid_parses : string -> bool) (emb : Embeddings)
        (g : graph) (threshold : Q) (g' : graph) (labels : pydict)
        (source target : pyval) (a : attrs) :
  deduplicate uuid_parses emb g threshold = Ok (g', labels) ->
  In source (Graph.scan g') ->
  In target (Graph.scan g') ->
  Graph.has_edge g source target a ->
  exists b, Graph.has_edge g' source target b.
Proof.
  intros D Hs Ht H.
  destruct (deduplicate_result _ _ _ _ _ _ D) as (st & S & -> & _ & _ & F).
  rewrite F in Hs, Ht.
  apply filter_In in Hs as [_ Hs]. apply filter_In in Ht as [_ Ht].
  apply negb_true_iff, mem_not_In in Hs. apply negb_true_iff, mem_not_In in Ht.
  destruct (dedup_scan_keeps_edge _ _ _ source target _ _ _ S) as (b & Hb).
  { exists a. exact H. }
  exists b. now apply has_edge_delete.
Qed.

Lemma deduplicate_keeps_edges_witness :
  exists b,
    Graph.has_edge
      (Graph.delete
         (copy_edges Sample.linked_graph (PyInt 1)
            (Graph.edges Sample.linked_graph (PyInt 2))) [PyInt 2])
      (PyInt 1) (PyInt 3) b.
Proof.
  apply (deduplicate_keeps_edges Sample.uuid_parses Sample.emb_linux
           Sample.linked_graph (9 # 10)
           (Graph.delete
              (copy_edges Sample.linked_graph (PyInt 1)
                 (Graph.edges Sample.linked_graph (PyInt 2))) [PyInt 2])
           [(PyInt 1, PyStr "Linux"); (PyInt 3, PyStr "Unix")]
           (PyInt 1) (PyInt 3) (Sample.rel "related")).
  - vm_compute. reflexivity.
  - simpl. now left.
  - simpl. right. now left.
  - reflexivity.
Defined.

(* ------------------------------------------------------------------ *)
(** ** topics and infertopics: the calls to the language model *)

Lemma prompts_of_length (batch : list App.batch_entry) (ps : list string) :
  App.prompts_of batch = App.Done ps -> List.length ps = List.length batch.
Proof.
  revert ps. induction batch as [|e batch IH]; intros ps; simpl.
  - now intros [= <-].
  - destruct (App.prompt_of e) as [p|]; [|discriminate]. cbn [App.and_then].
    destruct (App.prompts_of batch) as [ps'|]; [|discriminate].
    cbn [App.and_then]. intros [= <-]. simpl. now rewrite (IH ps').
Qed.

Lemma prompts_of_app (b1 b2 : list App.batch_entry) (p1 p2 : list string) :
  App.prompts_of b1 = App.Done p1 ->
  App.prompts_of b2 = App.Done p2 ->
  App.prompts_of (b1 ++ b2) = App.Done (p1 ++ p2).
Proof.
  revert p1. induction b1 as [|e b1 IH]; intros p1; simpl.
  - now intros [= <-].
  - destruct (App.prompt_of e) as [p|]; [|discriminate]. cbn [App.and_then].
    destruct (App.prompts_of b1) as [ps'|]; [|discriminate].
    cbn [App.and_then]. intros [= <-] H2. now rewrite (IH ps' eq_refl H2).
Qed.

Lemma set_topics_prompts (batch : list App.batch_entry) (outputs : list pyval) :
  forall x w w',
    App.set_topics batch x outputs w = App.Done w' ->
    App.w_prompts w' = App.w_prompts w.
Proof.
  induction outputs as [|t outputs IH]; intros x w w'; simpl.
  - now intros [= <-].
  - destruct (nth_error batch x) as [e|]; [|discriminate].
    intros H. now rewrite (IH _ _ _ H).
Qed.

Section Calls.
Variable uuid_parses : string -> bool.
Variable llm : list string -> option Z -> list pyval.
Variable topicsbatch : option string.
Variable to_int : string -> option Z.

(** A successful call of [topics] sends one list of prompts, one prompt
    for each entry of the batch. *)
Lemma topics_prompts (w w' : App.world) (batch : list App.batch_entry) :
  App.topics llm topicsbatch to_int w batch = App.Done w' ->
  exists ps,
    App.prompts_of batch = App.Done ps
    /\ App.w_prompts w' = App.w_prompts w ++ [ps]
    /\ List.length ps = List.length batch.
Proof.
  unfold App.topics.
  destruct (App.prompts_of batch) as [ps|] eqn:P; [|discriminate].
  cbn [App.and_then].
  destruct (App.batch_size topicsbatch to_int) as [k|]; [|discriminate].
  cbn [App.and_then]. intros H. apply set_topics_prompts in H. simpl in H.
  exists ps. repeat split; [exact H | now apply prompts_of_length].
Qed.

Lemma infer_scan_calls (nodes : list pyval) :
  forall w batch w' batch',
    App.infer_scan uuid_parses llm topicsbatch to_int w batch nodes
    = App.Done (w', batch') ->
    List.length batch < 32 ->
    exists full,
      App.w_prompts w' = App.w_prompts w ++ full
      /\ Forall (fun c => List.length c = 32) full
      /\ List.length batch' < 32.
Proof.
  induction nodes as [|uid nodes IH]; intros w batch w' batch' H Len.
  - simpl in H. injection H as <- <-. exists []. rewrite app_nil_r. auto.
  - cbn [App.infer_scan] in H.
    destruct (valid uuid_parses (Graph.attribute (App.w_graph w) uid "id"))
      as [auto|]; [|discriminate].
    cbn [App.lift App.and_then] in H.
    destruct (auto && negb (truthy (Graph.attribute (App.w_graph w) uid "topic")));
      [|exact (IH _ _ _ _ H Len)].
    rewrite length_app in H. cbn [List.length] in H.
    destruct (List.length batch + 1 =? 32) eqn:E.
    + match type of H with
      | App.and_then ?t _ = _ => destruct t as [w1|] eqn:T; [|discriminate]
      end.
      cbn [App.and_then] in H.
      destruct (topics_prompts _ _ _ T) as (ps & _ & Pw & Pl).
      destruct (IH _ _ _ _ H) as (full & Fw & Ff & Fl); [simpl; lia|].
      exists (ps :: full). rewrite Fw, Pw, <- app_assoc. split; [reflexivity|].
      split; [|exact Fl]. constructor; [|exact Ff].
      rewrite Pl, length_app. simpl. now apply Nat.eqb_eq in E.
    + apply (IH _ _ _ _ H). rewrite length_app. simpl.
      apply Nat.eqb_neq in E. lia.
Qed.

(** X16: [infertopics] calls the language model with batches of at most
    32 prompts and never with an empty list: every call has exactly 32
    prompts, except a last one that may have between 1 and 31. *)
Theorem infertopics_batches (w w' : App.world) (start : Z) :
  App.infertopics uuid_parses llm topicsbatch to_int (Some w) start
  = App.Done (Some w') ->
  exists full last,
    App.w_prompts w' = App.w_prompts w ++ full ++ last
    /\ Forall (fun c => List.length c = 32) full
    /\ (last = []
        \/ exists c, last = [c] /\ 1 <= List.length c < 32).
Proof.
  unfold App.infertopics.
  destruct (App.infer_scan uuid_parses llm topicsbatch to_int w []
              (Graph.scan (App.w_graph w))) as [[w1 batch]|] eqn:S;
    [|discriminate].
  cbn [App.and_then fst snd].
  destruct (infer_scan_calls _ _ _ _ _ S) as (full & Fw & Ff & Fl); [simpl; lia|].
  destruct batch as [|e batch].
  - intros [= <-]. exists full, []. rewrite app_nil_r. auto.
  - destruct (App.topics llm topicsbatch to_int w1 (e :: batch)) as [w2|] eqn:T;
      [|discriminate].
    cbn [App.and_then]. intros [= <-].
    destruct (topics_prompts _ _ _ T) as (ps & _ & Pw & Pl).
    exists full, [ps]. rewrite Pw, Fw, <- app_assoc. split; [reflexivity|].
    split; [exact Ff|]. right. exists ps. split; [reflexivity|].
    rewrite Pl. simpl in *. lia.
Qed.
End Calls.

Lemma infertopics_batches_witness :
  exists full last,
    App.w_prompts Sample.many_world_done
    = App.w_prompts Sample.many_world ++ full ++ last
    /\ Forall (fun c => List.length c = 32) full
    /\ (last = []
        \/ exists c, last = [c] /\ 1 <= List.length c < 32).
Proof.
  apply (infertopics_batches Sample.uuid_parses Sample.llm None Sample.no_int
           Sample.many_world Sample.many_world_done 0).
  vm_compute. reflexivity.
Defined.

(* ------------------------------------------------------------------ *)
(** ** topics and infertopics: the graph *)

Lemma set_attribute_get (node : pyval) (field : string) (value : pyval)
      (nodes nodes' : list (pyval * attrs)) :
  App.set_attribute node field value nodes = Some nodes' ->
  forall n,
    dict_get pyval_eqb n nodes'
    = if pyval_eqb n node
      then option_map (dict_set String.eqb field value) (dict_get pyval_eqb n nodes)
      else dict_get pyval_eqb n nodes.
Proof.
  revert nodes'. induction nodes as [|[n0 a0] nodes IH]; intros nodes';
    [discriminate|].
  simpl. destruct (pyval_eqb node n0) eqn:E.
  - apply pyval_eqb_eq in E. subst n0. intros [= <-] n. simpl.
    now destruct (pyval_eqb n node).
  - destruct (App.set_attribute node field value nodes) as [r|]; [|discriminate].
    intros [= <-] n. simpl. destruct (pyval_eqb n n0) eqn:E0.
    + apply pyval_eqb_eq in E0. subst n0.
      rewrite pyval_eqb_neq in E.
      assert (X : pyval_eqb n node = false) by (apply pyval_eqb_neq; congruence).
      now rewrite X.
    + now apply IH.
Qed.

Lemma set_attribute_keys (node : pyval) (field : string) (value : pyval)
      (nodes nodes' : list (pyval * attrs)) :
  App.set_attribute node field value nodes = Some nodes' ->
  map fst nodes' = map fst nodes.
Proof.
  revert nodes'. induction nodes as [|[n0 a0] nodes IH]; intros nodes';
    [discriminate|].
  simpl. destruct (pyval_eqb node n0).
  - now intros [= <-].
  - destruct (App.set_attribute node field value nodes) as [r|]; [|discriminate].
    intros [= <-]. simpl. now rewrite (IH r).
Qed.

Lemma set_attribute_some (node : pyval) (field : string) (value : pyval)
      (nodes : list (pyval * attrs)) :
  In node (map fst nodes) ->
  exists nodes', App.set_attribute node field value nodes = Some nodes'.
Proof.
  induction nodes as [|[n0 a0] nodes IH]; [easy|].
  simpl. intros H. destruct (pyval_eqb node n0) eqn:E; [eauto|].
  apply pyval_eqb_neq in E. destruct H as [H|H]; [congruence|].
  destruct (IH H) as (r & ->). simpl. eauto.
Qed.

Lemma set_attribute_present (node : pyval) (field : string) (value : pyval)
      (nodes nodes' : list (pyval * attrs)) :
  App.set_attribute node field value nodes = Some nodes' ->
  exists a, dict_get pyval_eqb node nodes = Some a.
Proof.
  revert nodes'. induction nodes as [|[n0 a0] nodes IH]; intros nodes';
    [discriminate|].
  simpl. destruct (pyval_eqb node n0); [eauto|].
  destruct (App.set_attribute node field value nodes) as [r|]; [|discriminate].
  intros _. now apply (IH r).
Qed.

Lemma attrs_get_set_other (field f : string) (value : pyval) (a : attrs) :
  f <> field ->
  dict_get String.eqb f (dict_set String.eqb field value a)
  = dict_get String.eqb f a.
Proof.
  intros N. induction a as [|[k v] a IH]; simpl.
  - apply String.eqb_neq in N. now rewrite N.
  - destruct (String.eqb field k) eqn:E; simpl; [|now rewrite IH].
    apply String.eqb_eq in E. subst k.
    apply String.eqb_neq in N. now rewrite N.
Qed.

Lemma attrs_get_set_same (field : string) (value : pyval) (a : attrs) :
  dict_get String.eqb field (dict_set String.eqb field value a) = Some value.
Proof.
  induction a as [|[k v] a IH]; simpl.
  - now rewrite String.eqb_refl.
  - destruct (String.eqb field k) eqn:E; simpl; now rewrite E.
Qed.

Lemma set_attribute_absent (node : pyval) (field : string) (value : pyval)
      (nodes : list (pyval * attrs)) :
  App.set_attribute node field value nodes = None ->
  ~ In node (map fst nodes).
Proof.
  intros H Hin.
  destruct (set_attribute_some node field value nodes Hin) as (r & E).
  congruence.
Qed.

(** What [addattribute] does. *)
Lemma addattribute_spec (g g' : graph) (node : pyval) (field : string)
      (value : pyval) :
  App.addattribute g node field value = g' ->
  g_adj g' = g_adj g
  /\ Graph.scan g' = Graph.scan g
  /\ (forall n, n <> node ->
        dict_get pyval_eqb n (g_nodes g') = dict_get pyval_eqb n (g_nodes g))
  /\ (forall n f, f <> field ->
        Graph.attribute g' n f = Graph.attribute g n f)
  /\ (In node (Graph.scan g) -> Graph.attribute g' node field = value).
Proof.
  unfold App.addattribute.
  destruct (App.set_attribute node field value (g_nodes g)) as [nodes|] eqn:S.
  - intros <-. pose proof (set_attribute_get _ _ _ _ _ S) as G.
    split; [reflexivity|]. split; [exact (set_attribute_keys _ _ _ _ _ S)|].
    split; [|split].
    + intros n N. simpl. rewrite G. apply pyval_eqb_neq in N. now rewrite N.
    + intros n f N. unfold Graph.attribute. simpl. rewrite G.
      destruct (pyval_eqb n node); [|reflexivity].
      destruct (dict_get pyval_eqb n (g_nodes g)); [|reflexivity].
      simpl. now rewrite attrs_get_set_other.
    + intros _. unfold Graph.attribute. simpl. rewrite G, pyval_eqb_refl.
      destruct (dict_get pyval_eqb node (g_nodes g)) as [a|] eqn:D.
      * simpl. now rewrite attrs_get_set_same.
      * destruct (set_attribute_present _ _ _ _ _ S) as (a & X). congruence.
  - intros <-. repeat split; auto.
    intros Hin. now apply set_attribute_absent in S.
Qed.

(** [topics] touches the nodes of the batch, from position [x] on. *)
Lemma set_topics_frame (batch : list App.batch_entry) (outputs : list pyval) :
  forall x w w' n,
    App.set_topics batch x outputs w = App.Done w' ->
    (forall j e, x <= j -> nth_error batch j = Some e -> fst e <> n) ->
    dict_get pyval_eqb n (g_nodes (App.w_graph w'))
    = dict_get pyval_eqb n (g_nodes (App.w_graph w)).
Proof.
  induction outputs as [|t outputs IH]; intros x w w' n; simpl.
  - now intros [= <-].
  - destruct (nth_error batch x) as [e|] eqn:N; [|discriminate].
    remember (App.addattribute (App.w_graph w) (fst e) "topic" t) as g eqn:A.
    symmetry in A.
    cbn [App.and_then]. intros H Far.
    rewrite (IH _ _ _ n H) by (intros j e' Hj; apply Far; lia).
    simpl. destruct (addattribute_spec _ _ _ _ _ A) as (_ & _ & Other & _).
    apply Other. intros ->. now apply (Far x e).
Qed.

Section Inference.
Variable uuid_parses : string -> bool.
Variable llm : list string -> option Z -> list pyval.
Variable topicsbatch : option string.
Variable to_int : string -> option Z.

Lemma topics_frame (w w' : App.world) (batch : list App.batch_entry) (n : pyval) :
  App.topics llm topicsbatch to_int w batch = App.Done w' ->
  (forall e, In e batch -> fst e <> n) ->
  dict_get pyval_eqb n (g_nodes (App.w_graph w'))
  = dict_get pyval_eqb n (g_nodes (App.w_graph w)).
Proof.
  unfold App.topics.
  destruct (App.prompts_of batch) as [ps|]; [|discriminate].
  cbn [App.and_then].
  destruct (App.batch_size topicsbatch to_int) as [k|]; [|discriminate].
  cbn [App.and_then]. intros H Far.
  rewrite (set_topics_frame _ _ _ _ _ n H); [reflexivity|].
  intros j e _ N. apply Far. now apply nth_error_In in N.
Qed.

Lemma eligible_ext (g1 g2 : graph) (n : pyval) :
  dict_get pyval_eqb n (g_nodes g1) = dict_get pyval_eqb n (g_nodes g2) ->
  App.eligible uuid_parses g1 n = App.eligible uuid_parses g2 n
  /\ App.entry_of g1 n = App.entry_of g2 n.
Proof.
  intros H. unfold App.eligible, App.entry_of.
  now rewrite !(attribute_ext g1 g2 n _ H).
Qed.

(** The invariant of the scan of [infertopics]: the entries sent and
    pending are those of the eligible nodes seen so far, and only
    eligible nodes that were seen have been touched. *)
Lemma infer_scan_entries (g0 : graph) (nodes : list pyval) :
  forall w batch w' batch' done pre sent,
    App.infer_scan uuid_parses llm topicsbatch to_int w batch nodes
    = App.Done (w', batch') ->
    NoDup (done ++ nodes) ->
    (forall n, ~ In n done \/ App.eligible uuid_parses g0 n = false ->
               dict_get pyval_eqb n (g_nodes (App.w_graph w))
               = dict_get pyval_eqb n (g_nodes g0)) ->
    map (App.entry_of g0) (filter (App.eligible uuid_parses g0) done)
    = pre ++ batch ->
    App.prompts_of pre = App.Done sent ->
    exists pre' calls,
      map (App.entry_of g0)
          (filter (App.eligible uuid_parses g0) (done ++ nodes))
      = pre' ++ batch'
      /\ (forall n, ~ In n (done ++ nodes)
                    \/ App.eligible uuid_parses g0 n = false ->
                    dict_get pyval_eqb n (g_nodes (App.w_graph w'))
                    = dict_get pyval_eqb n (g_nodes g0))
      /\ App.w_prompts w' = App.w_prompts w ++ calls
      /\ App.prompts_of pre' = App.Done (sent ++ List.concat calls).
Proof.
  induction nodes as [|uid nodes IH];
    intros w batch w' batch' done pre sent H ND Frame Ent Sent.
  - simpl in H. injection H as <- <-. exists pre, [].
    rewrite ?app_nil_r. simpl. rewrite ?app_nil_r. auto.
  - assert (Nd : ~ In uid done).
    { apply NoDup_remove_2 in ND. intros X. apply ND, in_or_app. now left. }
    replace (done ++ uid :: nodes) with ((done ++ [uid]) ++ nodes) in *
      by (now rewrite <- app_assoc).
    pose proof (Frame uid (or_introl Nd)) as Agree.
    destruct (eligible_ext _ _ _ Agree) as [El En].
    cbn [App.infer_scan] in H.
    unfold App.eligible in El.
    destruct (valid uuid_parses (Graph.attribute (App.w_graph w) uid "id"))
      as [auto|]; [|discriminate].
    cbn [App.lift App.and_then] in H.
    fold (App.entry_of (App.w_graph w) uid) in H. rewrite En in H.
    assert (Frame' : forall n,
               ~ In n (done ++ [uid])
               \/ App.eligible uuid_parses g0 n = false ->
               dict_get pyval_eqb n (g_nodes (App.w_graph w))
               = dict_get pyval_eqb n (g_nodes g0)).
    { intros n [X|X]; apply Frame; [left | now right].
      intros Y. apply X, in_or_app. now left. }
    destruct (auto && negb (truthy (Graph.attribute (App.w_graph w) uid "topic")))
      eqn:B.
    + fold (App.eligible uuid_parses g0 uid) in El.
      assert (Ent' : map (App.entry_of g0)
                         (filter (App.eligible uuid_parses g0) (done ++ [uid]))
                     = pre ++ (batch ++ [App.entry_of g0 uid])).
      { rewrite filter_app, map_app, Ent. simpl. rewrite <- El. simpl.
        now rewrite app_assoc. }
      match type of H with
      | (if ?c then _ else _) = _ => destruct c eqn:L
      end.
      * match type of H with
        | App.and_then ?t _ = _ => destruct t as [w1|] eqn:T; [|discriminate]
        end.
        cbn [App.and_then] in H.
        destruct (topics_prompts _ _ _ _ _ _ T) as (ps & Ps & Pw & _).
        assert (Frame1 : forall n,
                   ~ In n (done ++ [uid])
                   \/ App.eligible uuid_parses g0 n = false ->
                   dict_get pyval_eqb n (g_nodes (App.w_graph w1))
                   = dict_get pyval_eqb n (g_nodes g0)).
        { intros n X. rewrite <- (Frame' n X).
          apply (topics_frame _ _ _ _ T). intros e He <-.
          assert (Hin : In e (map (App.entry_of g0)
                                  (filter (App.eligible uuid_parses g0)
                                          (done ++ [uid]))))
            by (rewrite Ent'; apply in_or_app; now right).
          apply in_map_iff in Hin as (m & <- & Hm).
          apply filter_In in Hm as [Hm1 Hm2]. simpl in X.
          destruct X as [X|X]; [contradiction | congruence]. }
        destruct (IH w1 [] w' batch' (done ++ [uid])
                    (pre ++ batch ++ [App.entry_of g0 uid]) (sent ++ ps)
                    H ND Frame1)
          as (pre' & calls & E1 & F1 & W1 & P1).
        { now rewrite app_nil_r. }
        { now apply prompts_of_app. }
        exists pre', (ps :: calls). split; [exact E1|]. split; [exact F1|].
        split; [now rewrite W1, Pw, <- app_assoc|].
        simpl. now rewrite app_assoc.
      * apply (IH w _ w' batch' (done ++ [uid]) pre sent H ND Frame' Ent' Sent).
    + fold (App.eligible uuid_parses g0 uid) in El.
      apply (IH w batch w' batch' (done ++ [uid]) pre sent H ND Frame'); [|exact Sent].
      rewrite filter_app. simpl. rewrite <- El. now rewrite app_nil_r.
Qed.

(** The result of [infertopics] in terms of the eligible nodes of the
    graph it started from. *)
Lemma infertopics_inv (w w' : App.world) (start : Z) :
  App.infertopics uuid_parses llm topicsbatch to_int (Some w) start
  = App.Done (Some w') ->
  NoDup (Graph.scan (App.w_graph w)) ->
  (exists calls,
      App.w_prompts w' = App.w_prompts w ++ calls
      /\ App.prompts_of
           (map (App.entry_of (App.w_graph w))
                (filter (App.eligible uuid_parses (App.w_graph w))
                        (Graph.scan (App.w_graph w))))
         = App.Done (List.concat calls))
  /\ (forall n, App.eligible uuid_parses (App.w_graph w) n = false ->
                dict_get pyval_eqb n (g_nodes (App.w_graph w'))
                = dict_get pyval_eqb n (g_nodes (App.w_graph w))).
Proof.
  unfold App.infertopics. intros H ND.
  destruct (App.infer_scan uuid_parses llm topicsbatch to_int w []
              (Graph.scan (App.w_graph w))) as [[w1 batch]|] eqn:S;
    [|discriminate].
  cbn [App.and_then fst snd] in H.
  destruct (infer_scan_entries (App.w_graph w) _ _ _ _ _ [] [] [] S ND)
    as (pre & calls & E & F & W & P); try reflexivity.
  simpl in E, P.
  destruct batch as [|e batch].
  - injection H as <-. rewrite app_nil_r in E. split.
    + exists calls. split; [exact W|]. now rewrite E.
    + intros n X. apply F. now right.
  - destruct (App.topics llm topicsbatch to_int w1 (e :: batch)) as [w2|] eqn:T;
      [|discriminate].
    cbn [App.and_then] in H. injection H as <-.
    destruct (topics_prompts _ _ _ _ _ _ T) as (ps & Ps & Pw & _).
    split.
    + exists (calls ++ [ps]). split; [now rewrite Pw, W, <- app_assoc|].
      rewrite E, concat_app. simpl. rewrite app_nil_r.
      now apply prompts_of_app.
    + intros n X. rewrite <- (F n (or_intror X)).
      apply (topics_frame _ _ _ _ T). intros e' He <-.
      assert (Hin : In e' (map (App.entry_of (App.w_graph w))
                               (filter (App.eligible uuid_parses (App.w_graph w))
                                       (Graph.scan (App.w_graph w)))))
        by (rewrite E; apply in_or_app; now right).
      apply in_map_iff in Hin as (m & <- & Hm).
      apply filter_In in Hm as [_ Hm]. simpl in X. congruence.
Qed.

(** X17: for a graph with unique node handles, the prompts that
    [infertopics] sends to the language model, taken over all calls in
    order, are exactly the prompts of the nodes that have an automatic
    id and no topic, one for each, in scan order.  The text of each of
    these nodes (its text attribute, or its id when it has no text) is a
    string. *)
Theorem infertopics_prompts (w w' : App.world) (start : Z) :
  App.infertopics uuid_parses llm topicsbatch to_int (Some w) start
  = App.Done (Some w') ->
  NoDup (Graph.scan (App.w_graph w)) ->
  exists calls,
    App.w_prompts w' = App.w_prompts w ++ calls
    /\ App.prompts_of
         (map (App.entry_of (App.w_graph w))
              (filter (App.eligible uuid_parses (App.w_graph w))
                      (Graph.scan (App.w_graph w))))
       = App.Done (List.concat calls).
Proof. intros H ND. now destruct (infertopics_inv w w' start H ND). Qed.

(** X18: for a graph with unique node handles, [infertopics] leaves
    every node that already has a topic, or whose id is no automatic
    id, with all its attributes as they were. *)
Theorem infertopics_untouched (w w' : App.world) (start : Z)
        (node : pyval) (field : string) :
  App.infertopics uuid_parses llm topicsbatch to_int (Some w) start
  = App.Done (Some w') ->
  NoDup (Graph.scan (App.w_graph w)) ->
  App.eligible uuid_parses (App.w_graph w) node = false ->
  Graph.attribute (App.w_graph w') node field
  = Graph.attribute (App.w_graph w) node field.
Proof.
  intros H ND E. apply attribute_ext.
  now apply (proj2 (infertopics_inv w w' start H ND)).
Qed.
End Inference.

Lemma infertopics_prompts_witness :
  exists calls,
    App.w_prompts Sample.many_world_done = App.w_prompts Sample.many_world ++ calls
    /\ App.prompts_of
         (map (App.entry_of (App.w_graph Sample.many_world))
              (filter (App.eligible Sample.uuid_parses
                         (App.w_graph Sample.many_world))
                      (Graph.scan (App.w_graph Sample.many_world))))
       = App.Done (List.concat calls).
Proof.
  apply (infertopics_prompts Sample.uuid_parses Sample.llm None Sample.no_int
           Sample.many_world Sample.many_world_done 0).
  - vm_compute. reflexivity.
  - apply (NoDup_map_inv (fun v => match v with PyInt z => z | _ => 0%Z end)).
    vm_compute. repeat constructor; simpl; intuition discriminate.
Defined.

Lemma infertopics_untouched_witness :
  Graph.attribute (App.w_graph Sample.mixed_world_done) (PyInt 1) "topic"
  = Graph.attribute (App.w_graph Sample.mixed_world) (PyInt 1) "topic".
Proof.
  apply (infertopics_untouched Sample.uuid_parses Sample.llm None Sample.no_int
           Sample.mixed_world Sample.mixed_world_done 0).
  - vm_compute. reflexivity.
  - repeat constructor; simpl; intuition discriminate.
  - reflexivity.
Defined.

(* ------------------------------------------------------------------ *)
(** ** topics and infertopics: what changes and what fails *)

Lemma set_topics_fields (batch : list App.batch_entry) (outputs : list pyval) :
  forall x w w',
    App.set_topics batch x outputs w = App.Done w' ->
    g_adj (App.w_graph w') = g_adj (App.w_graph w)
    /\ Graph.scan (App.w_graph w') = Graph.scan (App.w_graph w)
    /\ forall n f, f <> "topic" ->
         Graph.attribute (App.w_graph w') n f = Graph.attribute (App.w_graph w) n f.
Proof.
  induction outputs as [|t outputs IH]; intros x w w'; simpl.
  - intros [= <-]. auto.
  - destruct (nth_error batch x) as [e|]; [|discriminate].
    remember (App.addattribute (App.w_graph w) (fst e) "topic" t) as g eqn:A.
    symmetry in A.
    cbn [App.and_then]. intros H.
    destruct (IH _ _ _ H) as (I1 & I2 & I3). simpl in I1, I2, I3.
    destruct (addattribute_spec _ _ _ _ _ A) as (A1 & A2 & _ & A3 & _).
    split; [congruence|]. split; [congruence|].
    intros n f N. now rewrite I3, A3.
Qed.

Lemma set_topics_error (batch : list App.batch_entry) (outputs : list pyval) :
  forall x w e,
    App.set_topics batch x outputs w = App.Fail e -> exists c, e = App.Core c.
Proof.
  induction outputs as [|t outputs IH]; intros x w e; simpl; [discriminate|].
  destruct (nth_error batch x) as [b|]; [apply IH | intros [= <-]; eauto].
Qed.

Lemma set_topics_outputs (batch : list App.batch_entry) (outputs : list pyval) :
  forall x w,
    x <= List.length batch ->
    (forall e, In e batch -> In (fst e) (Graph.scan (App.w_graph w))) ->
    (x + List.length outputs <= List.length batch ->
     exists w', App.set_topics batch x outputs w = App.Done w')
    /\ (List.length batch < x + List.length outputs ->
        App.set_topics batch x outputs w = App.Fail (App.Core IndexError)).
Proof.
  induction outputs as [|t outputs IH]; intros x w Hx Nodes; simpl.
  - split; [eauto | lia].
  - destruct (nth_error batch x) as [e|] eqn:N.
    + assert (Lt : x < List.length batch)
        by (apply nth_error_Some; congruence).
      destruct (IH (S x)
                  {| App.w_graph :=
                       App.addattribute (App.w_graph w) (fst e) "topic" t;
                     App.w_index := App.index_add t (fst e) (App.w_index w);
                     App.w_prompts := App.w_prompts w |}) as [I1 I2].
      * lia.
      * intros e' He'. cbn [App.w_graph].
        destruct (addattribute_spec (App.w_graph w) _ (fst e) "topic" t eq_refl)
          as (_ & Sc & _).
        rewrite Sc. now apply Nodes.
      * split; intros L; [apply I1 | apply I2]; lia.
    + apply nth_error_None in N. split; [lia | reflexivity].
Qed.

Lemma prompts_of_cases (batch : list App.batch_entry) :
  (exists ps, App.prompts_of batch = App.Done ps
              /\ forall e, In e batch -> exists s, snd e = PyStr s)
  \/ (App.prompts_of batch = App.Fail App.TypeError
      /\ exists e, In e batch /\ forall s, snd e <> PyStr s).
Proof.
  induction batch as [|e batch IH]; simpl.
  - left. exists []. split; [reflexivity | easy].
  - unfold App.prompt_of. destruct (snd e) as [|z|s] eqn:E; cbn [App.and_then].
    + right. split; [reflexivity|]. exists e. split; [now left|].
      intros s. congruence.
    + right. split; [reflexivity|]. exists e. split; [now left|].
      intros s. congruence.
    + destruct IH as [(ps & -> & All) | (-> & e' & He' & Ne')]; cbn [App.and_then].
      * left. eexists. split; [reflexivity|].
        intros e' [<-|He']; [eauto | now apply All].
      * right. split; [reflexivity|]. exists e'. auto.
Qed.

Section Topics.
Variable llm : list string -> option Z -> list pyval.
Variable topicsbatch : option string.
Variable to_int : string -> option Z.

(** X19: [topics] raises [TypeError] exactly when the text of some
    entry of the batch is no string ([re.search] is applied to it), and
    then the language model is not called. *)
Theorem topics_type_error (w : App.world) (batch : list App.batch_entry) :
  App.topics llm topicsbatch to_int w batch = App.Fail App.TypeError
  <-> exists e, In e batch /\ forall s, snd e <> PyStr s.
Proof.
  unfold App.topics.
  destruct (prompts_of_cases batch) as [(ps & -> & All) | (-> & Bad)];
    cbn [App.and_then]; [|tauto].
  split.
  - unfold App.batch_size.
    destruct topicsbatch as [s|]; [destruct (s =? EmptyString)%string|];
      try destruct (to_int s); cbn [App.and_then];
      try discriminate;
      intros H; apply set_topics_error in H as (c & H); discriminate.
  - intros (e & He & Ne). destruct (All e He) as (s & Hs). now destruct (Ne s).
Qed.

(** X20: when the prompts are built and every node of the batch is in
    the graph, [topics] succeeds if the language model returns at most
    one output for each entry, and raises [IndexError] (at [batch[x]])
    if it returns more outputs than the batch has entries. *)
Theorem topics_output_count (w : App.world) (batch : list App.batch_entry)
        (ps : list string) (size : option Z) :
  App.prompts_of batch = App.Done ps ->
  App.batch_size topicsbatch to_int = App.Done size ->
  (forall e, In e batch -> In (fst e) (Graph.scan (App.w_graph w))) ->
  (List.length (llm ps size) <= List.length batch ->
   exists w', App.topics llm topicsbatch to_int w batch = App.Done w')
  /\ (List.length batch < List.length (llm ps size) ->
      App.topics llm topicsbatch to_int w batch = App.Fail (App.Core IndexError)).
Proof.
  intros P B Nodes. unfold App.topics. rewrite P, B. cbn [App.and_then].
  apply (set_topics_outputs batch (llm ps size) 0); [lia | exact Nodes].
Qed.

(** [topics] changes nothing but topic attributes. *)
Lemma topics_fields (w w' : App.world) (batch : list App.batch_entry) :
  App.topics llm topicsbatch to_int w batch = App.Done w' ->
  g_adj (App.w_graph w') = g_adj (App.w_graph w)
  /\ Graph.scan (App.w_graph w') = Graph.scan (App.w_graph w)
  /\ forall n f, f <> "topic" ->
       Graph.attribute (App.w_graph w') n f = Graph.attribute (App.w_graph w) n f.
Proof.
  unfold App.topics.
  destruct (App.prompts_of batch) as [ps|]; [|discriminate].
  cbn [App.and_then].
  destruct (App.batch_size topicsbatch to_int) as [k|]; [|discriminate].
  cbn [App.and_then]. intros H. now apply set_topics_fields in H.
Qed.
End Topics.

Lemma topics_output_count_witness :
  (List.length (Sample.llm_more
                  [(App.template ++ "3")%string] None)
   <= List.length [(PyInt 3, PyStr "...")] ->
   exists w',
     App.topics Sample.llm_more None Sample.no_int Sample.mixed_world
       [(PyInt 3, PyStr "...")] = App.Done w')
  /\ (List.length [(PyInt 3, PyStr "...")]
      < List.length (Sample.llm_more [(App.template ++ "3")%string] None) ->
      App.topics Sample.llm_more None Sample.no_int Sample.mixed_world
        [(PyInt 3, PyStr "...")] = App.Fail (App.Core IndexError)).
Proof.
  apply (topics_output_count Sample.llm_more None Sample.no_int
           Sample.mixed_world [(PyInt 3, PyStr "...")]).
  - reflexivity.
  - reflexivity.
  - intros e [<-|[]]. simpl. auto.
Defined.

Lemma batch_handles_differ (batch : list App.batch_entry) (i j : nat)
      (e e' : App.batch_entry) :
  NoDup (map fst batch) ->
  nth_error batch i = Some e -> nth_error batch j = Some e' ->
  i <> j -> fst e <> fst e'.
Proof.
  intros ND Hi Hj N E. apply N.
  apply (proj1 (NoDup_nth_error (map fst batch)) ND).
  - rewrite length_map. apply (proj1 (nth_error_Some batch i)). congruence.
  - rewrite !nth_error_map. unfold App.batch_entry in *.
    rewrite Hi, Hj. simpl. now rewrite E.
Qed.

(** The topic of every node of the batch after the loop of [topics]:
    the output at its position, if there is one. *)
Lemma set_topics_sets (batch : list App.batch_entry) (outputs : list pyval) :
  forall x w w',
    App.set_topics batch x outputs w = App.Done w' ->
    NoDup (map fst batch) ->
    (forall e, In e batch -> In (fst e) (Graph.scan (App.w_graph w))) ->
    forall i e,
      nth_error batch i = Some e ->
      Graph.attribute (App.w_graph w') (fst e) "topic"
      = if i <? x then Graph.attribute (App.w_graph w) (fst e) "topic"
        else match nth_error outputs (i - x) with
             | Some t => t
             | None => Graph.attribute (App.w_graph w) (fst e) "topic"
             end.
Proof.
  induction outputs as [|t outputs IH]; intros x w w'; simpl.
  - intros [= <-] _ _ i e _. destruct (i <? x); [reflexivity|].
    now destruct (i - x).
  - destruct (nth_error batch x) as [e0|] eqn:N; [|discriminate].
    remember (App.addattribute (App.w_graph w) (fst e0) "topic" t) as g eqn:A.
    symmetry in A.
    intros H ND Nodes i e Hi.
    destruct (addattribute_spec _ _ _ _ _ A) as (_ & Sc & Other & _ & Same).
    assert (Nodes' : forall e', In e' batch -> In (fst e') (Graph.scan g)).
    { intros e' He'. rewrite Sc. now apply Nodes. }
    rewrite (IH _ _ _ H ND Nodes' i e Hi). cbn [App.w_graph].
    assert (Far : i <> x ->
                  Graph.attribute g (fst e) "topic"
                  = Graph.attribute (App.w_graph w) (fst e) "topic").
    { intros X. apply attribute_ext, Other.
      now apply (batch_handles_differ batch i x). }
    destruct (Nat.ltb_spec i x) as [L1|L1];
      destruct (Nat.ltb_spec i (S x)) as [L2|L2]; try lia.
    + apply Far. lia.
    + assert (i = x) by lia. subst i. rewrite Nat.sub_diag. simpl.
      assert (e = e0) by congruence. subst e.
      apply Same, Nodes. now apply nth_error_In in N.
    + replace (i - x) with (S (i - S x)) by lia. simpl.
      destruct (nth_error outputs (i - S x)); [reflexivity|].
      apply Far. lia.
Qed.

Lemma prompts_of_strings (batch : list App.batch_entry) (ps : list string) :
  App.prompts_of batch = App.Done ps ->
  forall e, In e batch -> exists s, snd e = PyStr s.
Proof.
  intros P. destruct (prompts_of_cases batch) as [(ps' & _ & All) | (F & _)];
    [exact All | congruence].
Qed.

Section Effects.
Variable uuid_parses : string -> bool.
Variable llm : list string -> option Z -> list pyval.
Variable topicsbatch : option string.
Variable to_int : string -> option Z.

(** X21: after a successful [topics] on a batch of distinct nodes of
    the graph, the topic of the node at position [i] of the batch is the
    [i]-th output of the language model for the prompts of the batch; a
    node for which the model gave no output keeps the topic it had. *)
Theorem topics_sets_topics (w w' : App.world) (batch : list App.batch_entry) :
  App.topics llm topicsbatch to_int w batch = App.Done w' ->
  NoDup (map fst batch) ->
  (forall e, In e batch -> In (fst e) (Graph.scan (App.w_graph w))) ->
  exists prompts size,
    App.prompts_of batch = App.Done prompts
    /\ App.batch_size topicsbatch to_int = App.Done size
    /\ forall i e,
         nth_error batch i = Some e ->
         Graph.attribute (App.w_graph w') (fst e) "topic"
         = match nth_error (llm prompts size) i with
           | Some t => t
           | None => Graph.attribute (App.w_graph w) (fst e) "topic"
           end.
Proof.
  unfold App.topics. intros H ND Nodes.
  destruct (App.prompts_of batch) as [ps|]; [|discriminate].
  cbn [App.and_then] in H.
  destruct (App.batch_size topicsbatch to_int) as [k|]; [|discriminate].
  cbn [App.and_then] in H.
  exists ps, k. split; [reflexivity|]. split; [reflexivity|].
  intros i e Hi.
  rewrite (set_topics_sets _ _ _ _ _ H ND Nodes i e Hi). simpl.
  now rewrite Nat.sub_0_r.
Qed.

Lemma infer_scan_fields (nodes : list pyval) :
  forall w batch w' batch',
    App.infer_scan uuid_parses llm topicsbatch to_int w batch nodes
    = App.Done (w', batch') ->
    g_adj (App.w_graph w') = g_adj (App.w_graph w)
    /\ Graph.scan (App.w_graph w') = Graph.scan (App.w_graph w)
    /\ forall n f, f <> "topic" ->
         Graph.attribute (App.w_graph w') n f = Graph.attribute (App.w_graph w) n f.
Proof.
  induction nodes as [|uid nodes IH]; intros w batch w' batch' H.
  - simpl in H. injection H as <- <-. auto.
  - cbn [App.infer_scan] in H.
    destruct (valid uuid_parses (Graph.attribute (App.w_graph w) uid "id"))
      as [auto|]; [|discriminate].
    cbn [App.lift App.and_then] in H.
    destruct (auto && negb (truthy (Graph.attribute (App.w_graph w) uid "topic")));
      [|now apply IH in H].
    match type of H with
    | (if ?c then _ else _) = _ => destruct c
    end; [|now apply IH in H].
    match type of H with
    | App.and_then ?t _ = _ => destruct t as [w1|] eqn:T; [|discriminate]
    end.
    cbn [App.and_then] in H.
    apply IH in H as (I1 & I2 & I3).
    apply topics_fields in T as (T1 & T2 & T3).
    split; [congruence|]. split; [congruence|].
    intros n f N. now rewrite I3, T3.
Qed.

(** X22: [infertopics] changes nothing of the graph but topic
    attributes: the edges, the nodes and their scan order, and every
    attribute other than the topic are as they were. *)
Theorem infertopics_only_topics (w w' : App.world) (start : Z) :
  App.infertopics uuid_parses llm topicsbatch to_int (Some w) start
  = App.Done (Some w') ->
  g_adj (App.w_graph w') = g_adj (App.w_graph w)
  /\ Graph.scan (App.w_graph w') = Graph.scan (App.w_graph w)
  /\ Graph.count (App.w_graph w') = Graph.count (App.w_graph w)
  /\ forall n f, f <> "topic" ->
       Graph.attribute (App.w_graph w') n f = Graph.attribute (App.w_graph w) n f.
Proof.
  unfold App.infertopics. intros H.
  destruct (App.infer_scan uuid_parses llm topicsbatch to_int w []
              (Graph.scan (App.w_graph w))) as [[w1 batch]|] eqn:S;
    [|discriminate].
  cbn [App.and_then fst snd] in H.
  apply infer_scan_fields in S as (S1 & S2 & S3).
  assert (R : g_adj (App.w_graph w') = g_adj (App.w_graph w)
              /\ Graph.scan (App.w_graph w') = Graph.scan (App.w_graph w)
              /\ forall n f, f <> "topic" ->
                   Graph.attribute (App.w_graph w') n f
                   = Graph.attribute (App.w_graph w) n f).
  { destruct batch as [|e batch].
    - injection H as <-. auto.
    - destruct (App.topics llm topicsbatch to_int w1 (e :: batch)) as [w2|] eqn:T;
        [|discriminate].
      cbn [App.and_then] in H. injection H as <-.
      apply topics_fields in T as (T1 & T2 & T3).
      split; [congruence|]. split; [congruence|].
      intros n f N. now rewrite T3, S3. }
  destruct R as (R1 & R2 & R3). repeat split; auto.
  unfold Graph.count. unfold Graph.scan in R2.
  now rewrite <- (length_map fst), R2, length_map.
Qed.

(** X23: for a graph with unique node handles, [infertopics] raises
    when some scanned node with an automatic id and no topic has a text
    that is no string - as a node with an integer id and no text has,
    since its id stands for its text. *)
Theorem infertopics_text_not_string (w : App.world) (start : Z) (node : pyval) :
  NoDup (Graph.scan (App.w_graph w)) ->
  In node (Graph.scan (App.w_graph w)) ->
  App.eligible uuid_parses (App.w_graph w) node = true ->
  (forall s, snd (App.entry_of (App.w_graph w) node) <> PyStr s) ->
  exists e,
    App.infertopics uuid_parses llm topicsbatch to_int (Some w) start = App.Fail e.
Proof.
  intros ND Hin El Bad.
  destruct (App.infertopics uuid_parses llm topicsbatch to_int (Some w) start)
    as [[w'|]|e] eqn:H; [| |eauto].
  - destruct (infertopics_inv _ _ _ _ w w' start H ND) as [(calls & _ & P) _].
    destruct (prompts_of_strings _ _ P (App.entry_of (App.w_graph w) node))
      as (s & Hs).
    + apply in_map, filter_In. auto.
    + now destruct (Bad s).
  - unfold App.infertopics in H.
    destruct (App.infer_scan uuid_parses llm topicsbatch to_int w []
                (Graph.scan (App.w_graph w))) as [[w1 batch]|];
      [|discriminate].
    cbn [App.and_then fst snd] in H.
    destruct batch; [discriminate|].
    destruct (App.topics llm topicsbatch to_int w1 (b :: batch)); discriminate.
Qed.
End Effects.

Lemma topics_sets_topics_witness :
  exists prompts size,
    App.prompts_of [(PyInt 3, PyStr "..."); (PyInt 1, PyStr "Linux")]
    = App.Done prompts
    /\ App.batch_size None Sample.no_int = App.Done size
    /\ forall i e,
         nth_error [(PyInt 3, PyStr "..."); (PyInt 1, PyStr "Linux")] i = Some e ->
         Graph.attribute (App.w_graph Sample.mixed_world_first) (fst e) "topic"
         = match nth_error (Sample.llm_first prompts size) i with
           | Some t => t
           | None =>
               Graph.attribute (App.w_graph Sample.mixed_world) (fst e) "topic"
           end.
Proof.
  apply (topics_sets_topics Sample.llm_first None Sample.no_int
           Sample.mixed_world Sample.mixed_world_first
           [(PyInt 3, PyStr "..."); (PyInt 1, PyStr "Linux")]).
  - vm_compute. reflexivity.
  - repeat constructor; simpl; intuition discriminate.
  - intros e [<-|[<-|[]]]; simpl; auto.
Defined.

Lemma infertopics_only_topics_witness :
  g_adj (App.w_graph Sample.mixed_world_done)
  = g_adj (App.w_graph Sample.mixed_world)
  /\ Graph.scan (App.w_graph Sample.mixed_world_done)
     = Graph.scan (App.w_graph Sample.mixed_world)
  /\ Graph.count (App.w_graph Sample.mixed_world_done)
     = Graph.count (App.w_graph Sample.mixed_world)
  /\ forall n f, f <> "topic" ->
       Graph.attribute (App.w_graph Sample.mixed_world_done) n f
       = Graph.attribute (App.w_graph Sample.mixed_world) n f.
Proof.
  apply (infertopics_only_topics Sample.uuid_parses Sample.llm None Sample.no_int
           Sample.mixed_world Sample.mixed_world_done 0).
  vm_compute. reflexivity.
Defined.

Lemma infertopics_text_not_string_witness :
  exists e,
    App.infertopics Sample.uuid_parses Sample.llm None Sample.no_int
      (Some Sample.textless_world) 0 = App.Fail e.
Proof.
  apply (infertopics_text_not_string Sample.uuid_parses Sample.llm None
           Sample.no_int Sample.textless_world 0 (PyInt 4)).
  - repeat constructor; simpl; intuition discriminate.
  - simpl. auto.
  - reflexivity.
  - intros s. vm_compute. discriminate.
Defined.

(* ------------------------------------------------------------------ *)
(** ** run: upload requests *)

Lemma prefix_hash (c : ascii) (s : string) :
  prefix "#" (String c s) = true <-> c = "#"%char.
Proof.
  cbn [prefix]. destruct (ascii_dec "#" c) as [E|N].
  - split; [now intros _ | intros _; now destruct s].
  - split; [discriminate | congruence].
Qed.

Lemma split_hash_head (rest : string) :
  PyStr.split "#" ("#" ++ rest) = EmptyString :: PyStr.split "#" rest.
Proof.
  unfold PyStr.split. change ("#" ++ rest)%string with (String "#" rest).
  cbn [PyStr.split_go].
  now rewrite (proj2 (prefix_hash "#" rest) eq_refl).
Qed.

Lemma split_hash_first (s : string) :
  forall piece a b,
    PyStr.find_split "#" s = Some (a, b) ->
    PyStr.split_go "#" 0 piece s
    = piece a :: PyStr.split_go "#" 0 (fun r => r) b.
Proof.
  induction s as [|c s IH]; intros piece a b;
    cbn [PyStr.find_split PyStr.split_go].
  - discriminate.
  - destruct (prefix "#" (String c s)) eqn:P.
    + intros [= <- <-]. reflexivity.
    + destruct (PyStr.find_split "#" s) as [[a' b']|] eqn:F; [|discriminate].
      intros [= <- <-]. now rewrite (IH _ a' b').
Qed.

Lemma contains_hash_snoc (acc : string) (c : ascii) :
  PyStr.contains "#" acc = false -> c <> "#"%char ->
  PyStr.contains "#" (acc ++ String c EmptyString) = false.
Proof.
  intros H N. induction acc as [|d acc IH].
  - change (EmptyString ++ String c EmptyString)%string with (String c EmptyString).
    cbn [PyStr.contains].
    destruct (prefix "#" (String c EmptyString)) eqn:P.
    + apply prefix_hash in P. congruence.
    + destruct (prefix "#" EmptyString) eqn:Q; [discriminate Q | reflexivity].
  - change (String d acc ++ String c EmptyString)%string
      with (String d (acc ++ String c EmptyString)).
    cbn [PyStr.contains] in *.
    destruct (prefix "#" (String d acc)) eqn:P; [discriminate|].
    destruct (prefix "#" (String d (acc ++ String c EmptyString))) eqn:Q.
    + apply prefix_hash in Q. apply (proj2 (prefix_hash d acc)) in Q. congruence.
    + now apply IH.
Qed.

(** The last piece of a split at [#]: a suffix without any [#]. *)
Lemma split_go_hash_last (s : string) :
  forall piece acc,
    (forall r, piece r = (acc ++ r)%string) ->
    PyStr.contains "#" acc = false ->
    exists pre seg init_rev,
      rev (PyStr.split_go "#" 0 piece s) = seg :: init_rev
      /\ (acc ++ s)%string = (pre ++ seg)%string
      /\ PyStr.contains "#" seg = false.
Proof.
  induction s as [|c s IH]; intros piece acc Hp Ha; cbn [PyStr.split_go].
  - exists EmptyString, acc, []. simpl. rewrite Hp, append_nil_r. auto.
  - destruct (prefix "#" (String c s)) eqn:P.
    + destruct (IH (fun r => r) EmptyString (fun r => eq_refl) eq_refl)
        as (pre & seg & ir & R & E & C).
      simpl in E. change (String.length "#" - 1) with 0.
      exists (acc ++ String c pre)%string, seg, (ir ++ [piece EmptyString]).
      split; [simpl; now rewrite R|]. split; [|exact C].
      rewrite append_assoc. simpl. now rewrite E.
    + assert (N : c <> "#"%char).
      { intros ->. now rewrite (proj2 (prefix_hash "#" s) eq_refl) in P. }
      destruct (IH (fun r => piece (String c r)) (acc ++ String c EmptyString)%string)
        as (pre & seg & ir & R & E & C).
      * intros r. now rewrite Hp, append_assoc.
      * now apply contains_hash_snoc.
      * exists pre, seg, ir. split; [exact R|]. split; [|exact C].
        now rewrite <- E, append_assoc.
Qed.

Lemma split_hash_last (s : string) :
  exists pre seg init_rev,
    rev (PyStr.split "#" s) = seg :: init_rev
    /\ s = (pre ++ seg)%string
    /\ PyStr.contains "#" seg = false.
Proof.
  exact (split_go_hash_last s (fun r => r) EmptyString (fun r => eq_refl) eq_refl).
Qed.

Lemma startswith_hash (question : string) :
  PyStr.startswith question "#" = true ->
  exists rest, question = ("#" ++ rest)%string.
Proof.
  unfold PyStr.startswith. destruct question as [|c s]; [discriminate|].
  intros H. apply prefix_hash in H. subst c. now exists s.
Qed.

Lemma find_split_contains (sep s a b : string) :
  PyStr.find_split sep s = Some (a, b) -> PyStr.contains sep s = true.
Proof.
  revert a b. induction s as [|c s IH]; intros a b;
    cbn [PyStr.find_split PyStr.contains].
  - destruct (prefix sep EmptyString); [reflexivity | discriminate].
  - destruct (prefix sep (String c s)); [reflexivity|].
    destruct (PyStr.find_split sep s) as [[a' b']|]; [|discriminate].
    intros _. now apply (IH a' b').
Qed.

Lemma upload_url_hash (rest : string) :
  App.upload_url ("#" ++ rest)
  = match PyStr.find_split "#" rest with
    | Some (a, _) => App.Done (PyStr.strip a)
    | None => App.Done (PyStr.strip rest)
    end.
Proof.
  unfold App.upload_url. rewrite split_hash_head. cbn [nth_error].
  unfold PyStr.split.
  destruct (PyStr.find_split "#" rest) as [[a b]|] eqn:F.
  - now rewrite (split_hash_first rest _ a b F).
  - rewrite split_go_no_sep; [reflexivity|].
    destruct (PyStr.contains "#" rest) eqn:C; [|reflexivity].
    apply contains_find_split in C as (a & b & C). congruence.
Qed.

Lemma request_message_hash (rest : string) :
  exists pre piece,
    rest = (pre ++ piece)%string
    /\ PyStr.contains "#" piece = false
    /\ (PyStr.contains "#" rest = false -> piece = rest)
    /\ App.request_message ("#" ++ rest)
       = App.Done ("Upload request for _" ++ PyStr.strip piece ++ "_")%string.
Proof.
  unfold App.request_message, PyStr.startswith.
  change ("#" ++ rest)%string with (String "#" rest).
  rewrite (proj2 (prefix_hash "#" rest) eq_refl).
  change (String "#" rest) with ("#" ++ rest)%string.
  rewrite split_hash_head.
  destruct (split_hash_last rest) as (pre & seg & ir & R & E & C).
  exists pre, seg. split; [exact E|]. split; [exact C|]. split.
  - intros N. unfold PyStr.split in R. rewrite split_go_no_sep in R by exact N.
    simpl in R. congruence.
  - simpl. now rewrite R.
Qed.

(** X24: for an input that starts with [#], [run] raises neither at
    [split('#')[-1]] nor at [split('#')[1]]: the request message and the
    path handed to [addurl] are always defined. *)
Theorem upload_request_defined (question : string) :
  PyStr.startswith question "#" = true ->
  exists message url,
    App.request_message question = App.Done message
    /\ App.upload_url question = App.Done url.
Proof.
  intros H. apply startswith_hash in H as (rest & ->).
  destruct (request_message_hash rest) as (pre & piece & _ & _ & _ & M).
  rewrite M, upload_url_hash.
  destruct (PyStr.find_split "#" rest) as [[a b]|]; eauto.
Qed.

(** X25: when the text after the leading [#] has no further [#], the
    path handed to [addurl] is that text without surrounding white
    space, and the request message names the same path. *)
Theorem upload_request_plain (rest : string) :
  PyStr.contains "#" rest = false ->
  App.upload_url ("#" ++ rest) = App.Done (PyStr.strip rest)
  /\ App.request_message ("#" ++ rest)
     = App.Done ("Upload request for _" ++ PyStr.strip rest ++ "_")%string.
Proof.
  intros N. split.
  - rewrite upload_url_hash.
    destruct (PyStr.find_split "#" rest) as [[a b]|] eqn:F; [|reflexivity].
    apply find_split_contains in F. congruence.
  - destruct (request_message_hash rest) as (pre & piece & _ & _ & Same & M).
    now rewrite M, (Same N).
Qed.

Lemma find_split_hash_first (a b : string) :
  PyStr.contains "#" a = false ->
  PyStr.find_split "#" (a ++ "#" ++ b) = Some (a, b).
Proof.
  induction a as [|c a IH]; intros N.
  - change (EmptyString ++ "#" ++ b)%string with (String "#" b).
    cbn [PyStr.find_split].
    now rewrite (proj2 (prefix_hash "#" b) eq_refl).
  - change (String c a ++ "#" ++ b)%string with (String c (a ++ "#" ++ b)).
    cbn [PyStr.contains] in N. cbn [PyStr.find_split].
    destruct (prefix "#" (String c a)) eqn:P; [discriminate|].
    destruct (prefix "#" (String c (a ++ "#" ++ b))) eqn:Q.
    + apply prefix_hash in Q. apply (proj2 (prefix_hash c a)) in Q. congruence.
    + now rewrite (IH N).
Qed.

Lemma split_go_hash_last_piece (piece : string) :
  PyStr.contains "#" piece = false ->
  forall pre piece0,
    exists init_rev,
      rev (PyStr.split_go "#" 0 piece0 (pre ++ "#" ++ piece)) = piece :: init_rev.
Proof.
  intros N. induction pre as [|c pre IH]; intros piece0.
  - change (EmptyString ++ "#" ++ piece)%string with (String "#" piece).
    cbn [PyStr.split_go].
    rewrite (proj2 (prefix_hash "#" piece) eq_refl).
    change (String.length "#" - 1) with 0.
    rewrite (split_go_no_sep "#" piece _ N). simpl. eauto.
  - change (String c pre ++ "#" ++ piece)%string
      with (String c (pre ++ "#" ++ piece)).
    cbn [PyStr.split_go].
    destruct (prefix "#" (String c (pre ++ "#" ++ piece))).
    + change (String.length "#" - 1) with 0.
      destruct (IH (fun r => r)) as (ir & R).
      exists (ir ++ [piece0 EmptyString]). cbn [rev]. now rewrite R.
    + apply IH.
Qed.

(** X26: when the text after the leading [#] has a further [#] (a URL
    with a fragment), the path handed to [addurl] is the text [a] up to
    the first further [#], without surrounding white space, while the
    request message names the text [piece] after the last [#]. *)
Theorem upload_request_fragment (a b pre piece : string) :
  PyStr.contains "#" a = false ->
  PyStr.contains "#" piece = false ->
  (a ++ "#" ++ b)%string = (pre ++ "#" ++ piece)%string ->
  App.upload_url ("#" ++ a ++ "#" ++ b) = App.Done (PyStr.strip a)
  /\ App.request_message ("#" ++ a ++ "#" ++ b)
     = App.Done ("Upload request for _" ++ PyStr.strip piece ++ "_")%string.
Proof.
  intros Na Np E. split.
  - now rewrite upload_url_hash, (find_split_hash_first a b Na).
  - unfold App.request_message, PyStr.startswith.
    change ("#" ++ a ++ "#" ++ b)%string with (String "#" (a ++ "#" ++ b)).
    rewrite (proj2 (prefix_hash "#" (a ++ "#" ++ b)) eq_refl).
    change (String "#" (a ++ "#" ++ b)) with ("#" ++ (a ++ "#" ++ b))%string.
    rewrite split_hash_head, E. unfold PyStr.split.
    destruct (split_go_hash_last_piece piece Np pre (fun r => r)) as (ir & R).
    cbn [rev]. rewrite R. reflexivity.
Qed.

Lemma upload_request_defined_witness :
  exists message url,
    App.request_message "# notes.txt" = App.Done message
    /\ App.upload_url "# notes.txt" = App.Done url.
Proof. apply (upload_request_defined "# notes.txt"). reflexivity. Defined.

Lemma upload_request_plain_witness :
  App.upload_url ("#" ++ " notes.txt") = App.Done (PyStr.strip " notes.txt")
  /\ App.request_message ("#" ++ " notes.txt")
     = App.Done ("Upload request for _" ++ PyStr.strip " notes.txt" ++ "_")%string.
Proof. apply (upload_request_plain " notes.txt"). reflexivity. Defined.

Lemma upload_request_fragment_witness :
  App.upload_url ("#" ++ " x.org/p" ++ "#" ++ "top#end")
  = App.Done (PyStr.strip " x.org/p")
  /\ App.request_message ("#" ++ " x.org/p" ++ "#" ++ "top#end")
     = App.Done ("Upload request for _" ++ PyStr.strip "end" ++ "_")%string.
Proof.
  apply (upload_request_fragment " x.org/p" "top#end" " x.org/p#top" "end");
    reflexivity.
Defined.
